(** * PC-BASIC devicebase.py: devices, files and the INPUT tokenizers

    A shallow embedding of [pcbasic/basic/devices/devicebase.py] and the
    properties of its text-file engine, its two INPUT tokenizers and its
    master/clone device protocol.

    Python 2 byte strings are lists of [ascii]; the one-character read-ahead
    slot of a text file ([next_char], a string of length 0 or 1) is an
    [option ascii].  The byte stream under a file, the keyboard and the
    display are collaborators outside the module: the stream is a pair of
    lists (bytes still to be read, bytes written so far), the keyboard a list
    of the batches its blocking read will deliver, the display an instance of
    a small interface. *)

From Stdlib Require Import ZArith List Ascii String Bool Lia.
From stdpp Require Import gmap.
Import ListNotations.

Local Open Scope bool_scope.
Local Open Scope list_scope.

(** ** Byte strings *)

Definition bytes := list ascii.

Definition bs (s : string) : bytes := list_ascii_of_string s.

Definition NUL : ascii := "000"%char.
Definition LF : ascii := "010"%char.
Definition CR : ascii := "013"%char.
Definition SUB : ascii := "026"%char.
Definition SPACE : ascii := " "%char.
Definition QUOTE : ascii := "034"%char.
Definition COMMA : ascii := ","%char.

Definition ord (c : ascii) : Z := Z.of_N (N_of_ascii c).

Fixpoint bytes_eqb (x y : bytes) : bool :=
  match x, y with
  | [], [] => true
  | a :: x', c :: y' => Ascii.eqb a c && bytes_eqb x' y'
  | _, _ => false
  end.

Fixpoint startswith (p s : bytes) : bool :=
  match p, s with
  | [], _ => true
  | a :: p', c :: s' => Ascii.eqb a c && startswith p' s'
  | _ :: _, [] => false
  end.

(** Python's [x in s] on byte strings: [x] occurs in [s] as a substring; the
    empty string occurs in every string. *)
Fixpoint py_in (x s : bytes) : bool :=
  startswith x s ||
  match s with
  | [] => false
  | _ :: s' => py_in x s'
  end.

Definition nonempty (x : bytes) : bool :=
  match x with [] => false | _ :: _ => true end.

(** The string held by a read-ahead slot. *)
Definition slot_bytes (o : option ascii) : bytes :=
  match o with None => [] | Some a => [a] end.

Definition slot_is (o : option ascii) (a : ascii) : bool :=
  match o with None => false | Some c => Ascii.eqb c a end.

(** [str.upper()] on bytes: only a..z change. *)
Definition upper_ascii (c : ascii) : ascii :=
  let n := N_of_ascii c in
  if (97 <=? n)%N && (n <=? 122)%N then ascii_of_N (n - 32) else c.

Definition upper (s : bytes) : bytes := List.map upper_ascii s.

(** ** Errors and outcomes *)

Inductive BASICError : Type :=
  | DEVICE_UNAVAILABLE
  | BAD_FILE_MODE
  | DEVICE_IO_ERROR
  | INPUT_PAST_END.

(** The result of a call that may raise.  [Diverges] is a call that does not
    return: a loop whose bound ran out, or a read on a keyboard that has
    nothing more to deliver.  [Dangling] is a call through a file number
    that names no object, which Python's references cannot be. *)
Inductive outcome (A : Type) : Type :=
  | Returns (a : A)
  | Raises (e : BASICError)
  | Diverges
  | Dangling.
Arguments Returns {A} a.
Arguments Raises {A} e.
Arguments Diverges {A}.
Arguments Dangling {A}.

Definition bind {A B} (m : outcome A) (k : A -> outcome B) : outcome B :=
  match m with
  | Returns a => k a
  | Raises e => Raises e
  | Diverges => Diverges
  | Dangling => Dangling
  end.

(** [values.STR] and the numeric type sigils; the tokenizers only compare
    the type character with [values.STR]. *)
Inductive typechar : Type := STR | INT | SNG | DBL.

Definition is_STR (t : typechar) : bool :=
  match t with STR => true | _ => false end.

(** ** The byte stream under a file *)

Record Stream : Type := mkStream {
  unread : bytes;
  written : bytes
}.

(** [fhandle.read(1)] *)
Definition stream_read1 (s : Stream) : option ascii * Stream :=
  match unread s with
  | [] => (None, s)
  | a :: rest => (Some a, {| unread := rest; written := written s |})
  end.

(** [fhandle.write(s)] *)
Definition stream_write (s : Stream) (x : bytes) : Stream :=
  {| unread := unread s; written := written s ++ x |}.

(** ** TextFileBase *)

(** The class of a text file decides its class attributes. *)
Inductive file_class : Type := TextFileBase | InputTextFile.

Record TextFile : Type := mkTextFile {
  cls : file_class;
  fhandle : Stream;
  filetype : bytes;
  mode : bytes;
  width : Z;
  col : Z;
  next_char : option ascii;
  char : option ascii;
  last : option ascii
}.

Definition set_fhandle (f : TextFile) (s : Stream) : TextFile :=
  {| cls := cls f; fhandle := s; filetype := filetype f; mode := mode f;
     width := width f; col := col f;
     next_char := next_char f; char := char f; last := last f |}.

Definition set_col (f : TextFile) (c : Z) : TextFile :=
  {| cls := cls f; fhandle := fhandle f; filetype := filetype f; mode := mode f;
     width := width f; col := c;
     next_char := next_char f; char := char f; last := last f |}.

(** [TextFileBase.set_width] *)
Definition set_width (f : TextFile) (new_width : Z) : TextFile :=
  {| cls := cls f; fhandle := fhandle f; filetype := filetype f; mode := mode f;
     width := new_width; col := col f;
     next_char := next_char f; char := char f; last := last f |}.

(** [TextFileBase.__init__], after [RawFile.__init__]. *)
Definition TextFileBase_init (k : file_class) (fh : Stream) (ftype md : bytes)
    (first_char : option ascii) : TextFile :=
  let md := upper md in
  let '(nc, fh) :=
    if py_in md (bs "IR") && negb (nonempty (slot_bytes first_char))
    then stream_read1 fh
    else (first_char, fh) in
  {| cls := k; fhandle := fh; filetype := ftype; mode := md;
     width := 255; col := 1;
     next_char := nc; char := None; last := None |}.

(** [InputTextFile.__init__(line)]: a text file over [io.BytesIO(line)]. *)
Definition InputTextFile_init (line : bytes) : TextFile :=
  TextFileBase_init InputTextFile {| unread := line; written := [] |}
    (bs "D") (bs "I") None.

(** A text file of the base class opened for input over a given stream
    content. *)
Definition open_input (content : bytes) : TextFile :=
  TextFileBase_init TextFileBase {| unread := content; written := [] |}
    (bs "D") (bs "I") None.

(** Class attributes. *)
Definition whitespace_input : bytes := [SPACE; NUL; LF].

Definition soft_sep (f : TextFile) : bytes :=
  match cls f with
  | TextFileBase => [SPACE]
  | InputTextFile => []
  end.

(** The simultaneous assignment
    [next_char, char, last = fhandle.read(1), next_char, char]. *)
Definition shift (f : TextFile) : TextFile :=
  let '(c, fh) := stream_read1 (fhandle f) in
  {| cls := cls f; fhandle := fh; filetype := filetype f; mode := mode f;
     width := width f; col := col f;
     next_char := c; char := next_char f; last := char f |}.

(** The loop of [input_chars]; [n] bounds the number of turns. *)
Fixpoint input_chars_loop (n : nat) (num : Z) (s : list bytes) (f : TextFile)
    : list bytes * TextFile :=
  match n with
  | O => (s, f)
  | S n' =>
      if (num >? -1)%Z && (num <=? Z.of_nat (length s))%Z then (s, f)
      else match next_char f with
           | None => (s, f)
           | Some a =>
               if Ascii.eqb a SUB then (s, f)
               else input_chars_loop n' num (s ++ [[a]]) (shift f)
           end
  end.

(** Characters a file still holds, read-ahead slot included. *)
Definition pending (f : TextFile) : nat := S (length (unread (fhandle f))).

(** [TextFileBase.input_chars] *)
Definition input_chars (f : TextFile) (num : Z) : bytes * TextFile :=
  let '(s, f') := input_chars_loop (S (pending f)) num [] f in
  (List.concat s, f').

(** [TextFileBase.read_one] *)
Definition read_one (f : TextFile) : bytes * TextFile := input_chars f 1.

(** The loop of [read_line].  It leaves after at most 255 turns, which is
    what [fuel] counts; [None] is the bound running out. *)
Fixpoint read_line_loop (fuel : nat) (out : list bytes) (f : TextFile)
    : option (bytes * option bytes * TextFile) :=
  match fuel with
  | O => None
  | S k =>
      let '(c, f1) := read_one f in
      if negb (nonempty c) || bytes_eqb c [CR] then
        Some (List.concat out, Some c, f1)
      else
        let out := out ++ [c] in
        if Nat.eqb (length out) 255 then
          Some (List.concat out,
                if slot_is (next_char f1) CR then Some [CR] else None, f1)
        else read_line_loop k out f1
  end.

(** [TextFileBase.read_line]: the line, the terminator ([None] is Python's
    [None]) and the file afterwards. *)
Definition read_line (f : TextFile) : option (bytes * option bytes * TextFile) :=
  read_line_loop 255 [] f.

(** ** Writing *)

(** The first loop of [write]: the printable width of the first line of [s]
    and whether a CR or LF ends it. *)
Fixpoint first_line_width (s : bytes) (s_width : Z) : Z * bool :=
  match s with
  | [] => (s_width, false)
  | c :: s' =>
      if Ascii.eqb c CR || Ascii.eqb c LF then (s_width, true)
      else first_line_width s' (if (32 <=? ord c)%Z then (s_width + 1)%Z else s_width)
  end.

(** One turn of the second loop of [write]. *)
Definition write_char (f : TextFile) (c : ascii) : TextFile :=
  if Ascii.eqb c CR then
    set_col (set_fhandle f (stream_write (fhandle f) [c])) 1
  else
    let f1 := set_fhandle f (stream_write (fhandle f) [c]) in
    if (32 <=? ord c)%Z then
      let f2 := set_col f1 (col f1 + 1) in
      if (col f2 =? 257)%Z then set_col f2 1 else f2
    else f1.

Definition write_chars (f : TextFile) (s : bytes) : TextFile :=
  fold_left write_char s f.

(** [write] calls [write_line], which calls [write]: [depth] bounds the
    nesting of these calls, [None] is the bound running out. *)
Fixpoint write_rec (depth : nat) (f : TextFile) (s : bytes) (can_break : bool)
    : option TextFile :=
  match depth with
  | O => None
  | S d =>
      let '(s_width, newline) := first_line_width s 0 in
      let broken :=
        if can_break && negb (width f =? 255)%Z && negb (col f =? 1)%Z
           && (col f - 1 + s_width >? width f)%Z && negb newline
        then option_map (fun f' => set_col f' 1) (write_rec d f ([] ++ [CR]) true)
        else Some f in
      option_map (fun f' => write_chars f' s) broken
  end.

(** [TextFileBase.write] *)
Definition write (f : TextFile) (s : bytes) (can_break : bool) : option TextFile :=
  write_rec 2 f s can_break.

(** [TextFileBase.write_line] *)
Definition write_line (f : TextFile) (s : bytes) : option TextFile :=
  write f (s ++ [CR]) true.

(** [TextFileBase.eof] *)
Definition eof (f : TextFile) : bool :=
  if bytes_eqb (mode f) (bs "A") || bytes_eqb (mode f) (bs "O") then false
  else match next_char f with
       | None => true
       | Some a => Ascii.eqb a SUB
       end.

(** ** INPUT#: the tokenizer over a buffered source *)

(** The loop of [_skip_whitespace]; [c] is the last character dropped. *)
Fixpoint _skip_whitespace_loop (fuel : nat) (whitespace c : bytes) (f : TextFile)
    : outcome (bytes * TextFile) :=
  match fuel with
  | O => Diverges
  | S k =>
      if nonempty (slot_bytes (next_char f))
         && py_in (slot_bytes (next_char f)) whitespace then
        let '(c, f1) := read_one f in
        let f2 :=
          if bytes_eqb c [LF] && slot_is (next_char f1) CR
          then snd (read_one f1) else f1 in
        _skip_whitespace_loop k whitespace c f2
      else Returns (c, f)
  end.

(** [TextFileBase._skip_whitespace] *)
Definition _skip_whitespace (f : TextFile) (whitespace : bytes)
    : outcome (bytes * TextFile) :=
  _skip_whitespace_loop (S (pending f)) whitespace [] f.

(** [last not in (b'\n', b'\0')] *)
Definition not_lf_nul (x : bytes) : bool :=
  negb (bytes_eqb x [LF] || bytes_eqb x [NUL]).

(** The start of [input_entry], up to the test that raises: the last
    whitespace character skipped, the first character read, whether the
    field is quoted, and the character in hand when the scan starts. *)
Record entry_head : Type := mkHead {
  h_last : bytes;
  h_first : bytes;
  h_quoted : bool;
  h_c : bytes;
  h_file : TextFile
}.

Definition input_entry_head (f : TextFile) (t : typechar) : outcome entry_head :=
  bind (_skip_whitespace f whitespace_input) (fun '(lastc, f1) =>
  let '(c0, f2) := read_one f1 in
  let quoted := bytes_eqb c0 [QUOTE] && is_STR t && not_lf_nul lastc in
  let '(c, f3) := if quoted then read_one f2 else (c0, f2) in
  Returns {| h_last := lastc; h_first := c0; h_quoted := quoted;
             h_c := c; h_file := f3 |}).

(** The [while] loop of [input_entry]: the word, the character that ended
    the scan and the file afterwards. *)
Fixpoint input_entry_loop (fuel : nat) (t : typechar) (quoted : bool)
    (c word blanks : bytes) (f : TextFile) : outcome (bytes * bytes * TextFile) :=
  match fuel with
  | O => Diverges
  | S k =>
      if nonempty c
         && negb ((negb (is_STR t) && py_in c (soft_sep f))
                  || (py_in c [COMMA; CR] && negb quoted)) then
        if bytes_eqb c [QUOTE] && quoted then Returns (word, c, f)
        else if bytes_eqb c [LF] && negb quoted then
          let '(c1, f1) := read_one f in
          let '(c2, f2) := if bytes_eqb c1 [CR] then read_one f1 else (c1, f1) in
          input_entry_loop k t quoted c2 word blanks f2
        else
          let '(word, blanks) :=
            if bytes_eqb c [NUL] then (word, blanks)
            else if py_in c whitespace_input && negb quoted then
              (if is_STR t then (word, blanks ++ c) else (word, blanks))
            else (word ++ blanks ++ c, []) in
          if (255 <=? length word + length blanks)%nat then Returns (word, c, f)
          else
            let '(c1, f1) := if negb quoted then read_one f else input_chars f 1 in
            input_entry_loop k t quoted c1 word blanks f1
      else Returns (word, c, f)
  end.

(** The end of [input_entry], after the scan: when a whitespace character
    or the closing quote ended the scan, spaces are skipped and a comma or
    CR that follows is read as the separator. *)
Definition input_entry_trail (quoted : bool) (c : bytes) (f1 : TextFile)
    : outcome (bytes * TextFile) :=
  if (nonempty c && py_in c whitespace_input)
     || (quoted && bytes_eqb c [QUOTE]) then
    bind (_skip_whitespace f1 [SPACE]) (fun '(_, f2) =>
    if py_in (slot_bytes (next_char f2)) [COMMA; CR] then Returns (read_one f2)
    else Returns (c, f2))
  else Returns (c, f1).

(** [TextFileBase.input_entry] *)
Definition input_entry (f : TextFile) (t : typechar) (allow_past_end : bool)
    : outcome (bytes * bytes * TextFile) :=
  bind (input_entry_head f t) (fun h =>
  if negb (nonempty (h_c h)) && negb allow_past_end && not_lf_nul (h_last h)
  then Raises INPUT_PAST_END
  else
    bind (input_entry_loop (S (S (pending (h_file h)))) t (h_quoted h) (h_c h)
            [] [] (h_file h)) (fun '(word, c, f1) =>
    bind (input_entry_trail (h_quoted h) c f1) (fun '(c', f') =>
    Returns (word, c', f')))).

(** ** The keyboard file and the tokenizer over a live source *)

(** The names of [base/eascii.py] that [KYBDFile] uses.  The byte strings
    they stand for are declared outside this module; they are a parameter
    of everything below. *)
Inductive ea_name : Type :=
  | HOME | UP | PAGEUP | LEFT | RIGHT | END | DOWN | PAGEDOWN | DELETE | INSERT
  | F1 | F2 | F3 | F4 | F5 | F6 | F7 | F8 | F9 | F10.

Class EAscii : Type := ea : ea_name -> bytes.

Definition xFF : ascii := "255"%char.
Definition xFE : ascii := "254"%char.

(** [KYBDFile._input_replace], in the order of the dict display. *)
Definition _input_replace `{EAscii} : list (bytes * bytes) :=
  [ (ea HOME, [xFF; "011"%char]); (ea UP, [xFF; "030"%char]); (ea PAGEUP, [xFE]);
    (ea LEFT, [xFF; "029"%char]); (ea RIGHT, [xFF; "028"%char]);
    (ea END, [xFF; "014"%char]);
    (ea DOWN, [xFF; "031"%char]); (ea PAGEDOWN, [xFE]);
    (ea DELETE, [xFF; "127"%char]); (ea INSERT, [xFF; "018"%char]);
    (ea F1, []); (ea F2, []); (ea F3, []); (ea F4, []); (ea F5, []);
    (ea F6, []); (ea F7, []); (ea F8, []); (ea F9, []); (ea F10, []) ].

(** [d.get(k, default)] on a dict display: of two equal keys the later
    entry stands. *)
Fixpoint dict_get (d : list (bytes * bytes)) (k default : bytes) : bytes :=
  match d with
  | [] => default
  | (k', v) :: d' => dict_get d' k (if bytes_eqb k' k then v else default)
  end.

(** The keyboard: what each blocking call of [read_bytes_kybd_file(1)] will
    deliver, a list of codes, each a byte string.  A call on an exhausted
    keyboard waits for ever. *)
Definition Keyboard := list (list bytes).

Record KYBDFile : Type := mkKYBDFile {
  k_text : TextFile;
  _input_last : bytes;
  k_is_master : bool;
  k_reclen : option Z
}.

(** What [read_one] makes of one batch of codes:
    [b''.join(self._input_replace.get(c, c) for c in batch)]. *)
Definition delivered `{EAscii} (batch : list bytes) : bytes :=
  List.concat (List.map (fun c => dict_get _input_replace c c) batch).

(** [KYBDFile.read_one] *)
Fixpoint KYBDFile_read_one `{EAscii} (kbd : Keyboard) : outcome (bytes * Keyboard) :=
  match kbd with
  | [] => Diverges
  | batch :: rest =>
      let chars := delivered batch in
      if (length chars <? 1)%nat then KYBDFile_read_one rest
      else Returns (chars, rest)
  end.

(** The state of the [while] loop of [input_entry_realtime]: the character
    in hand, the word and the pending blanks, [parsing_trail], the
    [_input_last] of the file and the keyboard. *)
Record rt_state : Type := mkRt {
  rt_c : bytes;
  rt_word : bytes;
  rt_blanks : bytes;
  rt_trail : bool;
  rt_last : bytes;
  rt_kbd : Keyboard
}.

(** The end of a turn of the loop, from the length test on: [word],
    [blanks] and [trail] are those the turn has set, [again] is the loop
    itself, for the next turn. *)
Definition rt_finish `{EAscii} (again : rt_state -> outcome rt_state)
    (t : typechar) (s : rt_state) (word blanks : bytes) (trail : bool)
    : outcome rt_state :=
  if (255 <=? length word + length blanks)%nat then
    Returns {| rt_c := rt_c s; rt_word := word; rt_blanks := blanks;
               rt_trail := trail; rt_last := rt_last s; rt_kbd := rt_kbd s |}
  else
    bind (KYBDFile_read_one (rt_kbd s)) (fun '(c1, kbd1) =>
    if trail && negb (py_in c1 whitespace_input) then
      Returns {| rt_c := c1; rt_word := word; rt_blanks := blanks;
                 rt_trail := trail;
                 rt_last := if negb (bytes_eqb c1 [COMMA] || bytes_eqb c1 [CR])
                            then c1 else rt_last s;
                 rt_kbd := kbd1 |}
    else
      again {| rt_c := c1; rt_word := word; rt_blanks := blanks;
               rt_trail := trail || (negb (is_STR t) && bytes_eqb c1 [SPACE]);
               rt_last := rt_last s; rt_kbd := kbd1 |}).

Fixpoint input_entry_realtime_loop `{EAscii} (fuel : nat) (t : typechar)
    (quoted : bool) (s : rt_state) : outcome rt_state :=
  match fuel with
  | O => Diverges
  | S k =>
      let c := rt_c s in
      let finish := rt_finish (input_entry_realtime_loop k t quoted) t s in
      if nonempty c && negb (py_in c [COMMA; CR] && negb quoted) then
        if bytes_eqb c [QUOTE] && quoted then
          finish (rt_word s) (rt_blanks s) true
        else if bytes_eqb c [LF] && negb quoted then
          bind (KYBDFile_read_one (rt_kbd s)) (fun '(c1, kbd1) =>
          bind (if bytes_eqb c1 [CR] then KYBDFile_read_one kbd1
                else Returns (c1, kbd1)) (fun '(c2, kbd2) =>
          input_entry_realtime_loop k t quoted
            {| rt_c := c2; rt_word := rt_word s; rt_blanks := rt_blanks s;
               rt_trail := rt_trail s; rt_last := rt_last s; rt_kbd := kbd2 |}))
        else if bytes_eqb c [NUL] then
          finish (rt_word s) (rt_blanks s) (rt_trail s)
        else if py_in c whitespace_input && negb quoted then
          (if is_STR t then finish (rt_word s) (rt_blanks s ++ c) (rt_trail s)
           else finish (rt_word s) (rt_blanks s) (rt_trail s))
        else finish (rt_word s ++ rt_blanks s ++ c) [] (rt_trail s)
      else Returns s
  end.

(** [input_entry_realtime], bound to [KYBDFile.input_entry]: the word, the
    character that ended it, the file and the keyboard afterwards. *)
Definition input_entry_realtime `{EAscii} (self : KYBDFile) (kbd : Keyboard)
    (t : typechar) (allow_past_end : bool)
    : outcome (bytes * bytes * KYBDFile * Keyboard) :=
  bind (if nonempty (_input_last self) then Returns (_input_last self, [], kbd)
        else bind (KYBDFile_read_one kbd) (fun '(c, kbd1) =>
             Returns (c, _input_last self, kbd1))) (fun '(c0, last0, kbd1) =>
  let quoted := bytes_eqb c0 [QUOTE] && is_STR t in
  bind (if quoted then KYBDFile_read_one kbd1 else Returns (c0, kbd1)) (fun '(c, kbd2) =>
  if negb (nonempty c) && negb allow_past_end then Raises INPUT_PAST_END
  else
    bind (input_entry_realtime_loop (S (S (length kbd2))) t quoted
            {| rt_c := c; rt_word := []; rt_blanks := []; rt_trail := false;
               rt_last := last0; rt_kbd := kbd2 |}) (fun s =>
    Returns (rt_word s, rt_c s,
             {| k_text := k_text self; _input_last := rt_last s;
                k_is_master := k_is_master self; k_reclen := k_reclen self |},
             rt_kbd s)))).

(** ** The display, the screen file and the devices *)

(** What this module asks of the display object: its width and that of its
    text screen, the cursor column, and [set_width], which belongs to the
    display and is taken here as the display it leaves behind. *)
Class Display (D : Type) : Type := {
  display_mode_width : D -> Z;
  screen_mode_width : D -> Z;
  screen_current_col : D -> Z;
  display_set_width : D -> Z -> D
}.

Record SCRNFile : Type := mkSCRNFile {
  s_filetype : bytes;
  s_mode : bytes;
  _width : Z;
  _col : Z;
  s_is_master : bool;
  s_reclen : option Z
}.

(** [SCRNFile.__init__] *)
Definition SCRNFile_init `{Display D} (display : D) : SCRNFile :=
  {| s_filetype := bs "D"; s_mode := upper (bs "O");
     _width := screen_mode_width display;
     _col := screen_current_col display;
     s_is_master := true; s_reclen := None |}.

(** [SCRNFile.open_clone] *)
Definition SCRNFile_open_clone `{Display D} (self : SCRNFile) (display : D)
    (ftype md : bytes) (reclen : Z) : SCRNFile :=
  let inst := SCRNFile_init display in
  {| s_filetype := ftype; s_mode := md;
     _width := _width inst; _col := _col inst;
     s_is_master := false; s_reclen := Some reclen |}.

(** The [width] property of [SCRNFile]. *)
Definition SCRNFile_width `{Display D} (self : SCRNFile) (display : D) : Z :=
  if s_is_master self then display_mode_width display else _width self.

(** The [col] property of [SCRNFile]. *)
Definition SCRNFile_col `{Display D} (self : SCRNFile) (display : D) : Z :=
  if s_is_master self then screen_current_col display else _col self.

(** [SCRNFile.set_width]: the file and the display afterwards. *)
Definition SCRNFile_set_width `{Display D} (self : SCRNFile) (display : D)
    (new_width : Z) : SCRNFile * D :=
  if s_is_master self then (self, display_set_width display new_width)
  else ({| s_filetype := s_filetype self; s_mode := s_mode self;
           _width := new_width; _col := _col self;
           s_is_master := s_is_master self; s_reclen := s_reclen self |},
        display).

(** [KYBDFile.__init__]: a text file over the null stream in mode A, so
    that no first character is read. *)
Definition KYBDFile_init : KYBDFile :=
  {| k_text := TextFileBase_init TextFileBase {| unread := []; written := [] |}
                 (bs "D") (bs "A") None;
     _input_last := []; k_is_master := true; k_reclen := None |}.

(** [KYBDFile.open_clone] *)
Definition KYBDFile_open_clone (self : KYBDFile) (ftype md : bytes) (reclen : Z)
    : KYBDFile :=
  let inst := KYBDFile_init in
  let tf := k_text inst in
  {| k_text := {| cls := cls tf; fhandle := fhandle tf; filetype := ftype;
                  mode := md; width := width tf; col := col tf;
                  next_char := next_char tf; char := char tf; last := last tf |};
     _input_last := _input_last inst; k_is_master := false;
     k_reclen := Some reclen |}.

(** [KYBDFile.set_width] *)
Definition KYBDFile_set_width `{Display D} (self : KYBDFile) (display : D)
    (new_width : Z) : KYBDFile * D :=
  if k_is_master self then (self, display_set_width display new_width)
  else (self, display).

(** The files of the master-file devices. *)
Inductive File : Type :=
  | Kybd (k : KYBDFile)
  | Scrn (s : SCRNFile).

Definition is_master (o : File) : bool :=
  match o with
  | Kybd k => k_is_master k
  | Scrn s => s_is_master s
  end.

Definition File_mode (o : File) : bytes :=
  match o with
  | Kybd k => mode (k_text k)
  | Scrn s => s_mode s
  end.

Definition File_filetype (o : File) : bytes :=
  match o with
  | Kybd k => filetype (k_text k)
  | Scrn s => s_filetype s
  end.

Definition File_reclen (o : File) : option Z :=
  match o with
  | Kybd k => k_reclen k
  | Scrn s => s_reclen s
  end.

(** The [width] a file shows. *)
Definition File_width `{Display D} (o : File) (display : D) : Z :=
  match o with
  | Kybd k => width (k_text k)
  | Scrn s => SCRNFile_width s display
  end.

Definition File_open_clone `{Display D} (o : File) (display : D)
    (ftype md : bytes) (reclen : Z) : File :=
  match o with
  | Kybd k => Kybd (KYBDFile_open_clone k ftype md reclen)
  | Scrn s => Scrn (SCRNFile_open_clone s display ftype md reclen)
  end.

Definition File_set_width `{Display D} (o : File) (display : D) (new_width : Z)
    : File * D :=
  match o with
  | Kybd k => let '(k', d) := KYBDFile_set_width k display new_width in (Kybd k', d)
  | Scrn s => let '(s', d) := SCRNFile_set_width s display new_width in (Scrn s', d)
  end.

(** The objects a session shares: the one display, and the file objects,
    each under the number that stands for its identity. *)
Record World (D : Type) : Type := mkWorld {
  display : D;
  files : gmap nat File
}.
Arguments mkWorld {D} _ _.
Arguments display {D} _.
Arguments files {D} _.

Record Device : Type := mkDevice {
  device_file : option nat;
  allowed_modes : bytes
}.

(** [Device.__init__] *)
Definition Device_init : Device :=
  {| device_file := None; allowed_modes := [] |}.

(** A new object in the world: the number it gets is not in use. *)
Definition alloc {D} (w : World D) (o : File) : nat * World D :=
  let h := fresh (dom (files w)) in
  (h, {| display := display w; files := <[h := o]> (files w) |}).

(** [SCRNDevice.__init__] *)
Definition SCRNDevice_init `{Display D} (w : World D) : Device * World D :=
  let '(h, w') := alloc w (Scrn (SCRNFile_init (display w))) in
  ({| device_file := Some h; allowed_modes := bs "OR" |}, w').

(** [KYBDDevice.__init__] *)
Definition KYBDDevice_init `{Display D} (w : World D) : Device * World D :=
  let '(h, w') := alloc w (Kybd KYBDFile_init) in
  ({| device_file := Some h; allowed_modes := bs "IR" |}, w').

(** [Device.open]; of its arguments only [filetype], [mode] and [reclen]
    are used.  It gives the new file, the device and the world afterwards.
    ([SCRNDevice.open] calls it and then writes the magic byte of the file
    type to the new file: see [SCRNDevice_open].) *)
Definition Device_open `{Display D} (self : Device) (ftype md : bytes) (reclen : Z)
    (w : World D) : outcome (nat * Device * World D) :=
  match device_file self with
  | None => Raises DEVICE_UNAVAILABLE
  | Some m =>
      if negb (py_in md (allowed_modes self)) then Raises BAD_FILE_MODE
      else
        match files w !! m with
        | None => Dangling
        | Some master =>
            let '(new_file, w') :=
              alloc w (File_open_clone master (display w) ftype md reclen) in
            Returns (new_file, self, w')
        end
  end.

(** [set_width] called on the file object numbered [h]. *)
Definition set_width_at `{Display D} (h : nat) (new_width : Z) (w : World D)
    : outcome (World D) :=
  match files w !! h with
  | None => Dangling
  | Some o =>
      let '(o', d) := File_set_width o (display w) new_width in
      Returns {| display := d; files := <[h := o']> (files w) |}
  end.

(** The [width] shown by the file object numbered [h]. *)
Definition width_at `{Display D} (h : nat) (w : World D) : option Z :=
  match files w !! h with
  | None => None
  | Some o => Some (File_width o (display w))
  end.

(** ** Notions the properties are stated with *)

(** What a file has ahead of it: the read-ahead slot, then the unread part
    of the stream.  With an empty slot the file reads as at its end. *)
Definition ahead (f : TextFile) : bytes :=
  match next_char f with
  | None => []
  | Some a => a :: unread (fhandle f)
  end.

(** A character counted for WIDTH. *)
Definition printable (c : ascii) : Prop := (32 <= ord c)%Z.

Definition newline_free (s : bytes) : Prop := ~ In CR s /\ ~ In LF s.

(** The number of characters of [s] counted for WIDTH. *)
Definition printable_length (s : bytes) : Z :=
  Z.of_nat (length (List.filter (fun c => (32 <=? ord c)%Z) s)).

(** How a line ends, in terms of what the file had ahead of it: at a CR,
    which is consumed; at the end of the stream or at the soft-EOF marker,
    which stays; or at the cap, where the terminator tells whether a CR
    comes next. *)
Definition line_end (room : nat) (before : bytes) (line : bytes)
    (term : option bytes) (after : bytes) : Prop :=
  ((length line < room)%nat /\ term = Some [CR] /\ before = line ++ CR :: after)
  \/ ((length line < room)%nat /\ term = Some [] /\ before = line ++ after
      /\ (after = [] \/ exists r, after = SUB :: r))
  \/ (length line = room /\ before = line ++ after
      /\ ((exists r, after = CR :: r) /\ term = Some [CR]
          \/ (forall r, after <> CR :: r) /\ term = None)).

(** What [read_one] yields on a file with [s] ahead, and what is ahead
    afterwards: the soft-EOF marker is not read and stays. *)
Definition peek (s : bytes) : bytes :=
  match s with
  | [] => []
  | a :: _ => if Ascii.eqb a SUB then [] else [a]
  end.

Definition advance (s : bytes) : bytes :=
  match s with
  | [] => []
  | a :: r => if Ascii.eqb a SUB then s else r
  end.

Definition is_whitespace_input (a : ascii) : bool :=
  List.existsb (Ascii.eqb a) whitespace_input.

(** The leading run of whitespace-for-input of [s]: space, NUL and LF are
    skipped, and the CR right after an LF with it.  The result is the last
    whitespace character skipped ([lastc] when there is none) and what
    follows the run. *)
Fixpoint leading_run (s : bytes) (lastc : bytes) : bytes * bytes :=
  match s with
  | [] => (lastc, [])
  | a :: s' =>
      if is_whitespace_input a then
        match s' with
        | [] => ([a], [])
        | c :: s'' =>
            if Ascii.eqb a LF && Ascii.eqb c CR then leading_run s'' [a]
            else leading_run s' [a]
        end
      else (lastc, s)
  end.

(** A byte string without its whitespace-for-input. *)
Definition drop_whitespace (s : bytes) : bytes :=
  List.filter (fun a => negb (is_whitespace_input a)) s.

(** A character that ends no field and hides nothing of the stream: not a
    comma, CR or LF, and not the soft-EOF marker. *)
Definition plain (a : ascii) : Prop :=
  a <> COMMA /\ a <> CR /\ a <> LF /\ a <> SUB.

(** A text file of the base class opened for output on an empty stream. *)
Definition open_output : TextFile :=
  TextFileBase_init TextFileBase {| unread := []; written := [] |}
    (bs "D") (bs "O") None.

(** The CRs that a write added to the stream.  For a string without CR
    these are the line breaks that [write] inserted. *)
Definition line_breaks (f f' : TextFile) : nat :=
  count_occ ascii_dec (written (fhandle f')) CR
  - count_occ ascii_dec (written (fhandle f)) CR.

(** A keyboard on which NUL only comes alone: what [read_one] makes of each
    batch is the single byte NUL or holds no NUL. *)
Definition nul_only_alone `{EAscii} (kbd : Keyboard) : Prop :=
  Forall (fun batch => delivered batch = [NUL] \/ ~ In NUL (delivered batch)) kbd.

(** A keyboard that delivers one single-byte code at a time. *)
Definition single_bytes (kbd : Keyboard) : Prop :=
  Forall (fun batch => exists a : ascii, batch = [[a]]) kbd.

(** The keys of a byte string, pressed one after the other. *)
Definition keys (s : bytes) : Keyboard := List.map (fun a => [[a]]) s.

(** Modelled from the spec: the byte strings of [base/eascii.py] are not
    among the sources.  The spec has the keyboard deliver codes of one byte
    or multi-byte extended codes; the extended codes are taken as on the IBM
    PC, a NUL followed by the scan code of the key.  Used in the examples
    only: the properties hold for every [EAscii]. *)
Definition ibm_eascii : EAscii := fun n =>
  NUL :: match n with
         | HOME => ["071"%char] | UP => ["072"%char] | PAGEUP => ["073"%char]
         | LEFT => ["075"%char] | RIGHT => ["077"%char] | END => ["079"%char]
         | DOWN => ["080"%char] | PAGEDOWN => ["081"%char]
         | INSERT => ["082"%char] | DELETE => ["083"%char]
         | F1 => ["059"%char] | F2 => ["060"%char] | F3 => ["061"%char]
         | F4 => ["062"%char] | F5 => ["063"%char] | F6 => ["064"%char]
         | F7 => ["065"%char] | F8 => ["066"%char] | F9 => ["067"%char]
         | F10 => ["068"%char]
         end.

(** A character as a keyboard on which NUL only comes alone delivers it. *)
Definition lone_nul (c : bytes) : Prop := c = [NUL] \/ ~ In NUL c.

(** A display for the examples: its state is its width. *)
Definition width_display : Display Z :=
  {| display_mode_width := fun d => d;
     screen_mode_width := fun d => d;
     screen_current_col := fun _ => 1%Z;
     display_set_width := fun _ w => w |}.

(** A session for the examples: a display of width 80, the screen device
    with its master file (file 0) and one file opened on it for output
    (file 1). *)
Definition screen_session : World Z :=
  let '(dev, w1) := @SCRNDevice_init Z width_display (mkWorld 80%Z ∅) in
  match @Device_open Z width_display dev (bs "D") (bs "O") 128 w1 with
  | Returns (_, _, w2) => w2
  | _ => w1
  end.

(** ** Further notions, for the properties beyond the claims *)

(** What can be read of [s]: its characters up to the first soft-EOF
    marker. *)
Fixpoint readable (s : bytes) : bytes :=
  match s with
  | [] => []
  | a :: r => if Ascii.eqb a SUB then [] else a :: readable r
  end.

(** [k] characters taken off the stream, one after the other. *)
Fixpoint shifts (k : nat) (f : TextFile) : TextFile :=
  match k with
  | O => f
  | S k' => shifts k' (shift f)
  end.

Definition has_cr (s : bytes) : bool := List.existsb (Ascii.eqb CR) s.

(** What follows the last CR of [s]; all of [s] when it has no CR. *)
Fixpoint after_last_cr (s : bytes) : bytes :=
  match s with
  | [] => []
  | a :: r =>
      if has_cr r then after_last_cr r
      else if Ascii.eqb a CR then r else a :: r
  end.

(** The test of [write] that decides on a line break before the string. *)
Definition breaks (f : TextFile) (s : bytes) (can_break : bool) : bool :=
  can_break && negb (width f =? 255)%Z && negb (col f =? 1)%Z
  && (col f - 1 + fst (first_line_width s 0) >? width f)%Z
  && negb (snd (first_line_width s 0)).

(** Lines written one after the other with [write_line]. *)
Fixpoint write_lines (f : TextFile) (ls : list bytes) : option TextFile :=
  match ls with
  | [] => Some f
  | l :: r =>
      match write_line f l with
      | Some f' => write_lines f' r
      | None => None
      end
  end.

(** [n] lines read one after the other with [read_line]. *)
Fixpoint read_lines (n : nat) (f : TextFile)
    : option (list (bytes * option bytes) * TextFile) :=
  match n with
  | O => Some ([], f)
  | S k =>
      match read_line f with
      | Some (l, t, f1) =>
          match read_lines k f1 with
          | Some (r, f2) => Some ((l, t) :: r, f2)
          | None => None
          end
      | None => None
      end
  end.

(** What one turn of the scan of [input_entry] does to the word and the
    pending blanks with the character [c], when the turn neither ends the
    scan nor drops an LF. *)
Definition field_update (t : typechar) (quoted : bool) (c word blanks : bytes)
    : bytes * bytes :=
  if bytes_eqb c [NUL] then (word, blanks)
  else if py_in c whitespace_input && negb quoted then
    (if is_STR t then (word, blanks ++ c) else (word, blanks))
  else (word ++ blanks ++ c, []).

(** A word with no whitespace-for-input at either end. *)
Definition trimmed (w : bytes) : Prop :=
  match w with
  | [] => True
  | a :: _ => is_whitespace_input a = false
              /\ is_whitespace_input (List.last w a) = false
  end.

(** A character that an unquoted field cannot hold. *)
Definition no_separator (a : ascii) : Prop :=
  a <> COMMA /\ a <> CR /\ a <> LF /\ a <> NUL.

(** A character that a quoted field gives back as it is. *)
Definition quotable (a : ascii) : Prop := a <> QUOTE /\ a <> NUL /\ a <> SUB.

(** ** KYBDFile.input_chars *)

(** [c in d] for a dict display: [c] is one of the keys. *)
Definition dict_has (d : list (bytes * bytes)) (k : bytes) : bool :=
  List.existsb (fun kv => bytes_eqb (fst kv) k) d.

(** What [input_chars] makes of one code: NUL for a code of the replace
    table, the code itself when it is one byte, nothing otherwise. *)
Definition input_char_of `{EAscii} (c : bytes) : bytes :=
  if dict_has _input_replace c then [NUL]
  else if Nat.eqb (length c) 1 then c else [].

(** The loop of [KYBDFile.input_chars].  Each turn asks the keyboard for
    the characters still missing and takes the batch it delivers. *)
Fixpoint KYBDFile_input_chars_loop `{EAscii} (kbd : Keyboard) (num : Z)
    (chars : bytes) : outcome (bytes * Keyboard) :=
  if (Z.of_nat (length chars) <? num)%Z then
    match kbd with
    | [] => Diverges
    | batch :: rest =>
        KYBDFile_input_chars_loop rest num
          (chars ++ List.concat (List.map input_char_of batch))
    end
  else Returns (chars, kbd).

(** [KYBDFile.input_chars] *)
Definition KYBDFile_input_chars `{EAscii} (kbd : Keyboard) (num : Z)
    : outcome (bytes * Keyboard) :=
  KYBDFile_input_chars_loop kbd num [].

(** A keyboard that delivers no more codes than it is asked for, along a
    run of [input_chars]: each batch taken has at most as many codes as
    characters were missing. *)
Fixpoint delivers_as_asked `{EAscii} (kbd : Keyboard) (num : Z) (chars : bytes)
    : Prop :=
  match kbd with
  | [] => True
  | batch :: rest =>
      (Z.of_nat (length chars) < num)%Z ->
      (Z.of_nat (length batch) <= num - Z.of_nat (length chars))%Z
      /\ delivers_as_asked rest num
           (chars ++ List.concat (List.map input_char_of batch))
  end.

(** [self] with another [_input_last]. *)
Definition with_input_last (self : KYBDFile) (c : bytes) : KYBDFile :=
  {| k_text := k_text self; _input_last := c;
     k_is_master := k_is_master self; k_reclen := k_reclen self |}.

(** ** parse_protocol_string, the magic bytes, the null device *)

(** Unicode strings are lists of code points. *)
Definition ustring := list N.

Definition COLON : N := 58%N.

(** [s.split(sep, 1)]: [s] whole when [sep] is not in it, else what is
    before the first [sep] and what is after it. *)
Fixpoint split1 (sep : N) (s : ustring) : list ustring :=
  match s with
  | [] => [[]]
  | a :: r =>
      if N.eqb a sep then [[]; r]
      else match split1 sep r with
           | [] => []
           | h :: t => (a :: h) :: t
           end
  end.

(** [parse_protocol_string]; [uupper] is [unicode.upper]. *)
Definition parse_protocol_string (uupper : ustring -> ustring)
    (arg : option ustring) : option ustring * ustring :=
  match arg with
  | None => (None, [])
  | Some [] => (None, [])
  | Some arg =>
      let argsplit := split1 COLON arg in
      if Nat.eqb (length argsplit) 1 then (None, List.hd [] argsplit)
      else (Some (uupper (List.hd [] argsplit)), List.concat (List.tl argsplit))
  end.

Definition TYPE_TO_MAGIC : list (bytes * bytes) :=
  [ (bs "B", [xFF]); (bs "P", [xFE]); (bs "M", ["253"%char]) ].

Definition MAGIC_TO_TYPE : list (bytes * bytes) :=
  [ ([xFF], bs "B"); ([xFE], bs "P"); (["253"%char], bs "M") ].

(** [d[k]] on a dict display, [None] for a missing key. *)
Fixpoint dict_lookup (d : list (bytes * bytes)) (k : bytes) : option bytes :=
  match d with
  | [] => None
  | (k', v) :: d' =>
      match dict_lookup d' k with
      | Some v' => Some v'
      | None => if bytes_eqb k' k then Some v else None
      end
  end.

(** [nullstream()]: nothing to read. *)
Definition nullstream : Stream := {| unread := []; written := [] |}.

(** [NullDevice.open]: a text file on the null stream, whatever the mode. *)
Definition NullDevice_open (ftype md : bytes) : TextFile :=
  TextFileBase_init TextFileBase nullstream ftype md None.

(** ** Writing to the screen file *)

(** What [SCRNFile.write] asks of the text screen besides the display
    interface: whether the cursor is past the last column, the row of the
    cursor, the height of the screen, and its two writing calls, each taken
    as the display it leaves behind. *)
Class Screen (D : Type) `{Display D} : Type := {
  screen_overflow : D -> bool;
  screen_current_row : D -> Z;
  screen_mode_height : D -> Z;
  screen_write : D -> ascii -> bool -> D;
  screen_write_line : D -> bool -> D
}.

(** A call that a screen file makes on the text screen. *)
Inductive screen_call : Type :=
  | Write (c : ascii) (do_echo : bool)
  | WriteLine (do_echo : bool).

Definition call_echo (e : screen_call) : bool :=
  match e with
  | Write _ b => b
  | WriteLine b => b
  end.

(** The characters of the [screen.write] calls of a log. *)
Fixpoint chars_written (log : list screen_call) : bytes :=
  match log with
  | [] => []
  | Write c _ :: r => c :: chars_written r
  | WriteLine _ :: r => chars_written r
  end.

Definition do_call `{Screen D} (d : D) (e : screen_call) : D :=
  match e with
  | Write c b => screen_write d c b
  | WriteLine b => screen_write_line d b
  end.

(** The file, the display and the calls made so far, while [write] runs. *)
Record scrn_state (D : Type) : Type := mkScrn {
  st_file : SCRNFile;
  st_display : D;
  st_log : list screen_call
}.
Arguments mkScrn {D} _ _ _.
Arguments st_file {D} _.
Arguments st_display {D} _.
Arguments st_log {D} _.

Definition set__col (self : SCRNFile) (c : Z) : SCRNFile :=
  {| s_filetype := s_filetype self; s_mode := s_mode self;
     _width := _width self; _col := c;
     s_is_master := s_is_master self; s_reclen := s_reclen self |}.

(** [self.screen.write_line(do_echo=do_echo); self._col = 1] *)
Definition scrn_break `{Screen D} (st : scrn_state D) : scrn_state D :=
  let do_echo := s_is_master (st_file st) in
  {| st_file := set__col (st_file st) 1;
     st_display := screen_write_line (st_display st) do_echo;
     st_log := st_log st ++ [WriteLine do_echo] |}.

(** The first loop of [SCRNFile.write]: a backspace takes one off the
    width, other control characters do not count. *)
Fixpoint scrn_first_line_width (s : bytes) (s_width : Z) : Z * bool :=
  match s with
  | [] => (s_width, false)
  | c :: s' =>
      if Ascii.eqb c CR || Ascii.eqb c LF then (s_width, true)
      else scrn_first_line_width s'
             (if Ascii.eqb c "008"%char then (s_width - 1)%Z
              else if (32 <=? ord c)%Z then (s_width + 1)%Z else s_width)
  end.

(** [SCRNFile.write] up to its second loop. *)
Definition SCRNFile_write_start `{Screen D} (self : SCRNFile) (d : D) (s : bytes)
    (can_break : bool) : scrn_state D :=
  let c0 := screen_current_col d in
  let self1 := set__col self (if screen_overflow d then (c0 + 1)%Z else c0) in
  let '(s_width, newline) := scrn_first_line_width s 0 in
  let st := {| st_file := self1; st_display := d; st_log := [] |} in
  if can_break
     && (negb (SCRNFile_width self1 d =? 255)%Z
         && negb (screen_current_row d =? screen_mode_height d)%Z
         && negb (SCRNFile_col self1 d =? 1)%Z
         && (SCRNFile_col self1 d - 1 + s_width >? SCRNFile_width self1 d)%Z
         && negb newline)
  then scrn_break st else st.

(** One turn of the second loop of [SCRNFile.write]. *)
Definition scrn_write_char `{Screen D} (cwidth : Z) (st : scrn_state D) (c : ascii)
    : scrn_state D :=
  let wd st := SCRNFile_width (st_file st) (st_display st) in
  let cl st := SCRNFile_col (st_file st) (st_display st) in
  let st1 := if (wd st <=? cwidth)%Z && (cl st >? wd st)%Z
             then scrn_break st else st in
  let st2 :=
    if (cl st1 <=? cwidth)%Z || (wd st1 <=? cwidth)%Z then
      let do_echo := s_is_master (st_file st1) in
      {| st_file := st_file st1;
         st_display := screen_write (st_display st1) c do_echo;
         st_log := st_log st1 ++ [Write c do_echo] |}
    else st1 in
  {| st_file := if Ascii.eqb c LF || Ascii.eqb c CR then set__col (st_file st2) 1
                else set__col (st_file st2) (_col (st_file st2) + 1);
     st_display := st_display st2;
     st_log := st_log st2 |}.

(** [SCRNFile.write]: the file, the display and the calls made. *)
Definition SCRNFile_write `{Screen D} (self : SCRNFile) (d : D) (s : bytes)
    (can_break : bool) : scrn_state D :=
  let st := SCRNFile_write_start self d s can_break in
  let cwidth := screen_mode_width (st_display st) in
  fold_left (scrn_write_char cwidth) s st.

(** [SCRNFile.write_line] *)
Definition SCRNFile_write_line `{Screen D} (self : SCRNFile) (d : D) (inp : bytes)
    : scrn_state D :=
  let st := SCRNFile_write self d inp true in
  let do_echo := s_is_master (st_file st) in
  {| st_file := st_file st;
     st_display := screen_write_line (st_display st) do_echo;
     st_log := st_log st ++ [WriteLine do_echo] |}.

(** [SCRNDevice.open]: [Device.open], then the magic byte of the file type
    is written to the new file.  The calls made on the screen are given
    with the result. *)
Definition SCRNDevice_open `{Screen D} (self : Device) (ftype md : bytes)
    (reclen : Z) (w : World D)
    : outcome (nat * Device * World D * list screen_call) :=
  bind (Device_open self ftype md reclen w) (fun '(new_file, dev, w1) =>
  let magic := dict_get TYPE_TO_MAGIC ftype [] in
  match files w1 !! new_file with
  | None => Dangling
  | Some (Scrn sf) =>
      let st := SCRNFile_write sf (display w1) magic true in
      Returns (new_file, dev,
               {| display := st_display st;
                  files := <[new_file := Scrn (st_file st)]> (files w1) |},
               st_log st)
  | Some (Kybd k) =>
      match write (k_text k) magic true with
      | None => Diverges
      | Some tf =>
          Returns (new_file, dev,
                   {| display := display w1;
                      files := <[new_file :=
                                   Kybd {| k_text := tf;
                                           _input_last := _input_last k;
                                           k_is_master := k_is_master k;
                                           k_reclen := k_reclen k |}]> (files w1) |},
                   [])
      end
  end).

(** A text screen for the examples: 80 columns, 25 rows; its state is the
    column of the cursor, which a character moves on by one and a line
    break sends back to 1. *)
Definition column_display : Display Z :=
  {| display_mode_width := fun _ => 80%Z;
     screen_mode_width := fun _ => 80%Z;
     screen_current_col := fun d => d;
     display_set_width := fun d _ => d |}.

Definition column_screen : @Screen Z column_display :=
  {| screen_overflow := fun _ => false;
     screen_current_row := fun _ => 1%Z;
     screen_mode_height := fun _ => 25%Z;
     screen_write := fun d _ _ => (d + 1)%Z;
     screen_write_line := fun _ _ => 1%Z |}.

(** What [SCRNFile.write] keeps while it runs on the file [self] and the
    display [d]: of the file only [_col] changes, every call made carries
    the file's [_is_master] as [do_echo], and the display is [d] after the
    calls made. *)
Definition scrn_inv `{Screen D} (self : SCRNFile) (d : D) (st : scrn_state D) : Prop :=
  set__col (st_file st) (_col self) = self
  /\ List.Forall (fun e => call_echo e = s_is_master self) (st_log st)
  /\ st_display st = fold_left do_call (st_log st) d.

(** A clone of the screen file of [column_screen], set to width 3. *)
Definition narrow_clone : SCRNFile :=
  fst (@SCRNFile_set_width Z column_display
         (@SCRNFile_open_clone Z column_display
            (@SCRNFile_init Z column_display 1%Z) 1%Z (bs "D") (bs "O") 128)
         1%Z 3).

(** The screen device of [column_screen] and its world. *)
Definition column_device : Device :=
  fst (@SCRNDevice_init Z column_display (mkWorld 1%Z ∅)).

Definition column_world : World Z :=
  snd (@SCRNDevice_init Z column_display (mkWorld 1%Z ∅)).

(** * Properties *)

(** ** Reading one character *)

Lemma read_one_unfold (f : TextFile) :
  read_one f =
  match next_char f with
  | None => ([], f)
  | Some a => if Ascii.eqb a SUB then ([], f) else ([a], shift f)
  end.
Proof.
  unfold read_one, input_chars, pending. simpl.
  destruct (next_char f) as [a|]; [|reflexivity].
  destruct (Ascii.eqb a SUB); reflexivity.
Qed.

Lemma ahead_shift (f : TextFile) (a : ascii) :
  next_char f = Some a -> ahead (shift f) = unread (fhandle f).
Proof.
  intros _. unfold shift, ahead, stream_read1.
  destruct (unread (fhandle f)); reflexivity.
Qed.

Lemma read_one_nil (f : TextFile) : ahead f = [] -> read_one f = ([], f).
Proof.
  unfold ahead. rewrite read_one_unfold.
  destruct (next_char f); [discriminate | reflexivity].
Qed.

Lemma read_one_sub (f : TextFile) (r : bytes) :
  ahead f = SUB :: r -> read_one f = ([], f).
Proof.
  unfold ahead. rewrite read_one_unfold.
  destruct (next_char f) as [a|]; [|discriminate].
  intros [= -> _]. reflexivity.
Qed.

Lemma read_one_cons (f : TextFile) (a : ascii) (r : bytes) :
  ahead f = a :: r -> a <> SUB ->
  read_one f = ([a], shift f) /\ ahead (shift f) = r.
Proof.
  unfold ahead at 1. rewrite read_one_unfold.
  destruct (next_char f) as [c|] eqn:E; [|discriminate].
  intros [= -> Hr] Hne.
  destruct (Ascii.eqb_spec a SUB) as [->|_]; [contradiction|].
  split; [reflexivity|]. rewrite (ahead_shift f a E). exact Hr.
Qed.

Lemma shift_cls (f : TextFile) : cls (shift f) = cls f.
Proof. unfold shift. destruct (stream_read1 (fhandle f)). reflexivity. Qed.

Lemma read_one_cls (f : TextFile) : cls (snd (read_one f)) = cls f.
Proof.
  rewrite read_one_unfold. destruct (next_char f) as [a|]; [|reflexivity].
  destruct (Ascii.eqb a SUB); [reflexivity | apply shift_cls].
Qed.

Lemma ahead_pending (f : TextFile) : (length (ahead f) <= pending f)%nat.
Proof.
  unfold ahead, pending. destruct (next_char f); simpl; lia.
Qed.

(** The bound that [input_chars] gives its loop is enough: every turn but
    the last takes a character, so any two bounds above the number of
    characters ahead give the same result. *)
Lemma input_chars_loop_bound (n : nat) :
  forall (m : nat) (num : Z) (s : list bytes) (f : TextFile),
    (length (ahead f) < n)%nat -> (length (ahead f) < m)%nat ->
    input_chars_loop n num s f = input_chars_loop m num s f.
Proof.
  induction n as [|n IH]; intros m num s f Hn Hm; [lia|].
  destruct m as [|m]; [lia|]. cbn [input_chars_loop].
  destruct ((num >? -1)%Z && (num <=? Z.of_nat (length s))%Z); [reflexivity|].
  destruct (next_char f) as [a|] eqn:E; [|reflexivity].
  destruct (Ascii.eqb a SUB); [reflexivity|].
  pose proof (ahead_shift f a E) as Hs.
  unfold ahead in Hn, Hm. rewrite E in Hn, Hm. cbn [length] in Hn, Hm.
  apply IH; rewrite Hs; lia.
Qed.

(** ** read_line *)

Lemma concat_snoc (out : list bytes) (x : bytes) :
  List.concat (out ++ [x]) = List.concat out ++ x.
Proof. rewrite concat_app. simpl. rewrite app_nil_r. reflexivity. Qed.

Lemma slot_is_ahead (f : TextFile) (a : ascii) :
  slot_is (next_char f) a = true <-> exists r, ahead f = a :: r.
Proof.
  unfold slot_is, ahead. destruct (next_char f) as [c|].
  - destruct (Ascii.eqb_spec c a) as [->|Hne].
    + split; [eauto | reflexivity].
    + split; [discriminate | intros [r [= E _]]; contradiction].
  - split; [discriminate | intros [r [=]]].
Qed.

Lemma read_line_loop_spec (fuel : nat) :
  forall (out : list bytes) (f : TextFile),
    (fuel + length out = 255)%nat -> (0 < fuel)%nat ->
    exists line term f',
      read_line_loop fuel out f = Some (List.concat out ++ line, term, f')
      /\ ~ In CR line /\ ~ In SUB line
      /\ line_end fuel (ahead f) line term (ahead f').
Proof.
  induction fuel as [|k IH]; intros out f Hlen Hpos; [lia|].
  cbn [read_line_loop].
  destruct (ahead f) as [|a r] eqn:Ha.
  - rewrite (read_one_nil f Ha). cbn.
    exists [], (Some []), f. rewrite app_nil_r, Ha.
    split; [reflexivity|]. split; [tauto|]. split; [tauto|].
    right; left. simpl. repeat split; auto; lia.
  - destruct (Ascii.eqb_spec a SUB) as [->|Hsub].
    { rewrite (read_one_sub f r Ha). cbn.
      exists [], (Some []), f. rewrite app_nil_r, Ha.
      split; [reflexivity|]. split; [tauto|]. split; [tauto|].
      right; left. simpl. repeat split; eauto; lia. }
    destruct (read_one_cons f a r Ha Hsub) as [-> Hr].
    destruct (Ascii.eqb_spec a CR) as [->|Hcr].
    { cbn. exists [], (Some [CR]), (shift f). rewrite app_nil_r, Hr.
      split; [reflexivity|]. split; [tauto|]. split; [tauto|].
      left. simpl. repeat split; auto; lia. }
    assert (Hb : bytes_eqb [a] [CR] = false).
    { simpl. destruct (Ascii.eqb_spec a CR); [contradiction | reflexivity]. }
    cbn [nonempty negb orb]. rewrite Hb.
    rewrite length_app. cbn [length].
    destruct (Nat.eqb_spec (length out + 1) 255) as [Hcap|Hcap].
    + assert (k = 0)%nat by lia. subst k.
      exists [a], (if slot_is (next_char (shift f)) CR then Some [CR] else None),
             (shift f).
      rewrite concat_snoc, Hr.
      split; [reflexivity|]. split; [simpl; intuition congruence|].
      split; [simpl; intuition congruence|].
      right; right. repeat split; auto.
      destruct (slot_is (next_char (shift f)) CR) eqn:Hs.
      * left. split; [|reflexivity]. rewrite <- Hr. apply slot_is_ahead, Hs.
      * right. split; [|reflexivity]. intros r' Hr'.
        assert (slot_is (next_char (shift f)) CR = true)
          by (apply slot_is_ahead; exists r'; congruence).
        congruence.
    + destruct (IH (out ++ [[a]]) (shift f)) as (line & term & f' & Hrun & Hc & Hs & Hend).
      { rewrite length_app. simpl. lia. }
      { lia. }
      exists (a :: line), term, f'.
      split.
      { etransitivity; [exact Hrun|]. rewrite concat_snoc, <- app_assoc. reflexivity. }
      split; [simpl; intuition congruence|].
      split; [simpl; intuition congruence|].
      rewrite Hr in Hend. unfold line_end in *. simpl.
      destruct Hend as [(Hl & Ht & He)|[(Hl & Ht & He & Hz)|(Hl & He & Hz)]].
      * left. repeat split; [lia | exact Ht | rewrite He; reflexivity].
      * right; left. repeat split; [lia | exact Ht | rewrite He; reflexivity | exact Hz].
      * right; right. repeat split; [lia | rewrite He; reflexivity | exact Hz].
Qed.

(** [read_line]: always returns; the shape of its result. *)
Lemma read_line_spec (f : TextFile) :
  exists line term f',
    read_line f = Some (line, term, f')
    /\ ~ In CR line /\ ~ In SUB line
    /\ line_end 255 (ahead f) line term (ahead f').
Proof.
  destruct (read_line_loop_spec 255 [] f) as (line & term & f' & H); [reflexivity | lia |].
  exists line, term, f'. exact H.
Qed.

(** ** Byte-string tests *)

Lemma bytes_eqb_eq (x y : bytes) : bytes_eqb x y = true <-> x = y.
Proof.
  revert y. induction x as [|a x IH]; intros [|c y]; simpl; try (split; congruence).
  rewrite andb_true_iff, IH. split.
  - intros [Hac ->]. apply Ascii.eqb_eq in Hac. congruence.
  - intros [= -> ->]. split; [apply Ascii.eqb_refl | reflexivity].
Qed.

Lemma bytes_eqb_neq (x y : bytes) : bytes_eqb x y = false <-> x <> y.
Proof.
  rewrite <- bytes_eqb_eq. destruct (bytes_eqb x y); split; congruence.
Qed.

Lemma py_in_single (a : ascii) (s : bytes) :
  py_in [a] s = List.existsb (Ascii.eqb a) s.
Proof.
  induction s as [|c s IH]; [reflexivity|].
  simpl. rewrite IH, andb_true_r. reflexivity.
Qed.

Lemma existsb_eqb_In (a : ascii) (s : bytes) :
  List.existsb (Ascii.eqb a) s = true <-> In a s.
Proof.
  rewrite existsb_exists. split.
  - intros (x & Hx & E). apply Ascii.eqb_eq in E. congruence.
  - intros H. exists a. split; [exact H | apply Ascii.eqb_refl].
Qed.

Lemma not_lf_nul_iff (x : bytes) :
  not_lf_nul x = true <-> x <> [LF] /\ x <> [NUL].
Proof.
  unfold not_lf_nul. rewrite negb_true_iff, orb_false_iff.
  rewrite !bytes_eqb_neq. tauto.
Qed.

(** ** read_one in terms of what is ahead *)

Lemma read_one_peek (f : TextFile) : fst (read_one f) = peek (ahead f).
Proof.
  rewrite read_one_unfold. unfold peek, ahead.
  destruct (next_char f) as [a|]; [|reflexivity].
  destruct (Ascii.eqb a SUB); reflexivity.
Qed.

Lemma read_one_advance (f : TextFile) :
  ahead (snd (read_one f)) = advance (ahead f).
Proof.
  rewrite read_one_unfold. unfold advance.
  destruct (next_char f) as [a|] eqn:E.
  - unfold ahead at 2 3. rewrite E.
    destruct (Ascii.eqb a SUB) eqn:Ea; simpl.
    + unfold ahead. rewrite E. reflexivity.
    + apply (ahead_shift f a E).
  - simpl. unfold ahead. rewrite E. reflexivity.
Qed.

Lemma peek_advance_cases (s : bytes) :
  (peek s = [] /\ advance s = s)
  \/ (exists a, peek s = [a] /\ a <> SUB /\ s = a :: advance s).
Proof.
  destruct s as [|a r]; [left; split; reflexivity|].
  simpl. destruct (Ascii.eqb_spec a SUB) as [->|Hne].
  - left. split; reflexivity.
  - right. exists a. repeat split; auto.
Qed.

(** The facts about one call of [read_one] that the loops need. *)
Lemma read_one_facts (f : TextFile) (c : bytes) (f' : TextFile) :
  read_one f = (c, f') ->
  c = peek (ahead f) /\ ahead f' = advance (ahead f) /\ cls f' = cls f.
Proof.
  intros E. pose proof (read_one_peek f) as H1.
  pose proof (read_one_advance f) as H2. pose proof (read_one_cls f) as H3.
  rewrite E in H1, H2, H3. simpl in *. auto.
Qed.

(** ** Skipping whitespace *)

Lemma ahead_cons_next (f : TextFile) (a : ascii) (r : bytes) :
  ahead f = a :: r -> next_char f = Some a.
Proof.
  unfold ahead. destruct (next_char f); [|discriminate]. intros [= -> _]. reflexivity.
Qed.

Lemma ahead_nil_next (f : TextFile) : ahead f = [] -> next_char f = None.
Proof. unfold ahead. destruct (next_char f); [discriminate | reflexivity]. Qed.

Lemma whitespace_not_sub (a : ascii) : is_whitespace_input a = true -> a <> SUB.
Proof. intros H ->. discriminate H. Qed.

Lemma skip_whitespace_loop_run (fuel : nat) :
  forall (c : bytes) (f : TextFile),
    (length (ahead f) < fuel)%nat ->
    exists f',
      _skip_whitespace_loop fuel whitespace_input c f
        = Returns (fst (leading_run (ahead f) c), f')
      /\ ahead f' = snd (leading_run (ahead f) c)
      /\ cls f' = cls f.
Proof.
  induction fuel as [|k IH]; intros c f Hlen; [lia|].
  cbn [_skip_whitespace_loop].
  destruct (ahead f) as [|a r] eqn:Ha.
  - rewrite (ahead_nil_next f Ha). cbn. exists f. rewrite Ha. auto.
  - rewrite (ahead_cons_next f a r Ha). cbn [slot_bytes nonempty andb].
    rewrite py_in_single. fold (is_whitespace_input a). cbn [leading_run].
    destruct (is_whitespace_input a) eqn:Hws.
    2:{ exists f. rewrite Ha. auto. }
    destruct (read_one_cons f a r Ha (whitespace_not_sub a Hws)) as [-> Hr].
    cbn [bytes_eqb]. rewrite andb_true_r.
    simpl in Hlen.
    destruct r as [|b r'].
    + rewrite (ahead_nil_next _ Hr). cbn [slot_is]. rewrite andb_false_r.
      destruct (IH [a] (shift f)) as (f' & Hrun & Hah & Hcls); [rewrite Hr; simpl; lia|].
      rewrite Hr in Hrun, Hah. exists f'. rewrite shift_cls in Hcls. auto.
    + rewrite (ahead_cons_next _ b r' Hr). cbn [slot_is].
      destruct (Ascii.eqb a LF && Ascii.eqb b CR) eqn:Hlfcr.
      * apply andb_true_iff in Hlfcr as [_ Hb]. apply Ascii.eqb_eq in Hb. subst b.
        assert (Hcr : CR <> SUB) by discriminate.
        destruct (read_one_cons (shift f) CR r' Hr Hcr) as [-> Hr2]. cbn [snd].
        destruct (IH [a] (shift (shift f))) as (f' & Hrun & Hah & Hcls);
          [rewrite Hr2; simpl in *; lia|].
        rewrite Hr2 in Hrun, Hah. exists f'. rewrite !shift_cls in Hcls. auto.
      * destruct (IH [a] (shift f)) as (f' & Hrun & Hah & Hcls);
          [rewrite Hr; simpl in *; lia|].
        rewrite Hr in Hrun, Hah. exists f'. rewrite shift_cls in Hcls. auto.
Qed.

(** [_skip_whitespace] over the whitespace for INPUT returns, with the last
    character of the leading run, and leaves the file after the run. *)
Lemma skip_whitespace_run (f : TextFile) :
  exists f',
    _skip_whitespace f whitespace_input = Returns (fst (leading_run (ahead f) []), f')
    /\ ahead f' = snd (leading_run (ahead f) [])
    /\ cls f' = cls f.
Proof.
  apply skip_whitespace_loop_run. pose proof (ahead_pending f). lia.
Qed.

(** Skipping spaces only (after a field) always returns too. *)
Lemma skip_spaces_loop_returns (fuel : nat) :
  forall (c : bytes) (f : TextFile),
    (length (ahead f) < fuel)%nat ->
    exists l f', _skip_whitespace_loop fuel [SPACE] c f = Returns (l, f')
                 /\ cls f' = cls f.
Proof.
  induction fuel as [|k IH]; intros c f Hlen; [lia|].
  cbn [_skip_whitespace_loop].
  destruct (ahead f) as [|a r] eqn:Ha.
  - rewrite (ahead_nil_next f Ha). cbn. eauto.
  - rewrite (ahead_cons_next f a r Ha). cbn [slot_bytes nonempty andb].
    rewrite py_in_single. cbn [existsb]. rewrite orb_false_r.
    destruct (Ascii.eqb_spec a SPACE) as [->|Hsp]; [|eauto].
    assert (Hns : SPACE <> SUB) by discriminate.
    destruct (read_one_cons f SPACE r Ha Hns) as [-> Hr].
    cbn [bytes_eqb Ascii.eqb]. 
    change (bytes_eqb [SPACE] [LF]) with false. cbn [andb].
    destruct (IH [SPACE] (shift f)) as (l & f' & Hrun & Hcls);
      [rewrite Hr; simpl in *; lia|].
    rewrite shift_cls in Hcls. eauto.
Qed.

Lemma skip_spaces_returns (f : TextFile) :
  exists l f', _skip_whitespace f [SPACE] = Returns (l, f') /\ cls f' = cls f.
Proof.
  apply skip_spaces_loop_returns. pose proof (ahead_pending f). lia.
Qed.

(** ** The start of input_entry *)

Lemma input_entry_head_spec (f : TextFile) (t : typechar) :
  exists h,
    input_entry_head f t = Returns h
    /\ h_last h = fst (leading_run (ahead f) [])
    /\ h_first h = peek (snd (leading_run (ahead f) []))
    /\ h_quoted h = bytes_eqb (h_first h) [QUOTE] && is_STR t && not_lf_nul (h_last h)
    /\ h_c h = (if h_quoted h then peek (advance (snd (leading_run (ahead f) [])))
                else h_first h)
    /\ ahead (h_file h)
       = (if h_quoted h then advance (advance (snd (leading_run (ahead f) [])))
          else advance (snd (leading_run (ahead f) [])))
    /\ cls (h_file h) = cls f.
Proof.
  unfold input_entry_head.
  destruct (skip_whitespace_run f) as (f1 & -> & Hah & Hcls). cbn [bind].
  destruct (read_one f1) as [c0 f2] eqn:E1.
  apply read_one_facts in E1 as (Hc0 & Hah2 & Hcls2).
  rewrite Hah in Hc0, Hah2.
  destruct (bytes_eqb c0 [QUOTE] && is_STR t
            && not_lf_nul (fst (leading_run (ahead f) []))) eqn:Hq.
  - destruct (read_one f2) as [c f3] eqn:E2.
    apply read_one_facts in E2 as (Hc & Hah3 & Hcls3).
    rewrite Hah2 in Hc, Hah3.
    eexists. split; [reflexivity|]. cbn.
    repeat split; auto; try congruence.
  - eexists. split; [reflexivity|]. cbn.
    repeat split; auto; try congruence.
Qed.

(** ** The scan of input_entry returns *)

Lemma input_entry_loop_returns (fuel : nat) :
  forall (t : typechar) (quoted : bool) (c word blanks : bytes) (f : TextFile),
    (c = [] /\ (1 <= fuel)%nat) \/ (length (ahead f) + 2 <= fuel)%nat ->
    exists w c' f',
      input_entry_loop fuel t quoted c word blanks f = Returns (w, c', f')
      /\ cls f' = cls f.
Proof.
  induction fuel as [|k IH]; intros t quoted c word blanks f Hf; [lia|].
  cbn [input_entry_loop].
  destruct c as [|a c'].
  { cbn. eauto. }
  destruct Hf as [[? _]|Hf]; [discriminate|].
  match goal with |- context [if ?b then _ else Returns (word, a :: c', f)] =>
    destruct b; [|eauto] end.
  match goal with |- context [if ?b then Returns (word, a :: c', f) else _] =>
    destruct b; [eauto|] end.
  assert (Hread : forall f0 c1 f1, read_one f0 = (c1, f1) ->
            (length (ahead f0) + 1 <= k)%nat ->
            cls f1 = cls f0 /\ (length (ahead f1) <= length (ahead f0))%nat /\
            ((c1 = [] /\ (1 <= k)%nat) \/ (length (ahead f1) + 2 <= k)%nat)).
  { intros f0 c1 f1 E Hk. apply read_one_facts in E as (Hc1 & Hah & Hcls).
    split; [exact Hcls|].
    destruct (peek_advance_cases (ahead f0)) as [[Hp Ha]|(x & Hp & _ & Ha)].
    - rewrite Hah, Ha. split; [lia|]. left. split; [congruence | lia].
    - rewrite Hah. remember (advance (ahead f0)) as r0 eqn:Hr0. clear Hr0.
      rewrite Ha in Hk |- *. simpl in Hk |- *. split; [lia|]. right. lia. }
  match goal with |- context [if ?b then _ else _] => destruct b end.
  - destruct (read_one f) as [c1 f1] eqn:E1.
    destruct (Hread f c1 f1 E1) as (Hcls1 & Hle1 & Hk1); [lia|].
    destruct (bytes_eqb c1 [CR]).
    + destruct (read_one f1) as [c2 f2] eqn:E2.
      destruct Hk1 as [[-> _]|Hk1].
      * rewrite read_one_unfold in E1.
        destruct (IH t quoted c2 word blanks f2) as (w & cx & f' & Hrun & Hcls).
        { destruct (Hread f1 c2 f2 E2) as (_ & _ & Hk2); [lia|]. exact Hk2. }
        rewrite Hrun. exists w, cx, f'. split; [reflexivity|].
        apply read_one_facts in E2 as (_ & _ & Hcls2). congruence.
      * destruct (Hread f1 c2 f2 E2) as (Hcls2 & _ & Hk2); [lia|].
        destruct (IH t quoted c2 word blanks f2 Hk2) as (w & cx & f' & Hrun & Hcls).
        rewrite Hrun. exists w, cx, f'. split; [reflexivity | congruence].
    + destruct (IH t quoted c1 word blanks f1 Hk1) as (w & cx & f' & Hrun & Hcls).
      rewrite Hrun. exists w, cx, f'. split; [reflexivity | congruence].
  - match goal with |- context [let '(_, _) := ?p in _] => destruct p as [word' blanks'] end.
    destruct (255 <=? length word' + length blanks')%nat; [eauto|].
    change (input_chars f 1) with (read_one f).
    assert (E : (if negb quoted then read_one f else read_one f) = read_one f)
      by (destruct quoted; reflexivity).
    rewrite E. clear E.
    destruct (read_one f) as [c1 f1] eqn:E1.
    destruct (Hread f c1 f1 E1) as (Hcls1 & Hle1 & Hk1); [lia|].
    destruct (IH t quoted c1 word' blanks' f1 Hk1) as (w & cx & f' & Hrun & Hcls).
    rewrite Hrun. exists w, cx, f'. split; [reflexivity | congruence].
Qed.

(** ** input_entry: outcomes *)

Lemma input_entry_trail_returns (quoted : bool) (c : bytes) (f1 : TextFile) :
  exists c' f', input_entry_trail quoted c f1 = Returns (c', f').
Proof.
  unfold input_entry_trail.
  destruct ((nonempty c && py_in c whitespace_input)
            || (quoted && bytes_eqb c [QUOTE])); [|eauto].
  destruct (skip_spaces_returns f1) as (l & f2 & -> & _). cbn [bind].
  destruct (py_in (slot_bytes (next_char f2)) [COMMA; CR]); [|eauto].
  destruct (read_one f2). eauto.
Qed.

(** [input_entry] either raises INPUT_PAST_END at its one test, or returns. *)
Lemma input_entry_outcome (f : TextFile) (t : typechar) (allow_past_end : bool) :
  forall h, input_entry_head f t = Returns h ->
    (negb (nonempty (h_c h)) && negb allow_past_end && not_lf_nul (h_last h) = true
     /\ input_entry f t allow_past_end = Raises INPUT_PAST_END)
    \/ (negb (nonempty (h_c h)) && negb allow_past_end && not_lf_nul (h_last h) = false
        /\ exists w c0 f1 c f',
             input_entry_loop (S (S (pending (h_file h)))) t (h_quoted h) (h_c h)
               [] [] (h_file h) = Returns (w, c0, f1)
             /\ input_entry_trail (h_quoted h) c0 f1 = Returns (c, f')
             /\ input_entry f t allow_past_end = Returns (w, c, f')).
Proof.
  intros h Hh. unfold input_entry. rewrite Hh. cbn [bind].
  destruct (negb (nonempty (h_c h)) && negb allow_past_end && not_lf_nul (h_last h));
    [left; auto | right; split; [reflexivity|]].
  destruct (input_entry_loop_returns (S (S (pending (h_file h)))) t (h_quoted h)
              (h_c h) [] [] (h_file h)) as (w & c0 & f1 & Hloop & _).
  { right. pose proof (ahead_pending (h_file h)). lia. }
  destruct (input_entry_trail_returns (h_quoted h) c0 f1) as (c & f' & Htrail).
  exists w, c0, f1, c, f'. rewrite Hloop. cbn [bind]. rewrite Htrail. cbn [bind].
  auto.
Qed.

(** C1. In the buffered-source [input_entry] the field is read in quoted
    mode exactly when the target type is string, the first character read
    after the leading whitespace run is a double quote, and the last
    whitespace character skipped in that run is neither LF nor NUL; for a
    numeric target the field is never quoted.  The start of [input_entry]
    always returns; [h_last] is the last character of the leading run of
    what the file had ahead, [h_first] the character read after the run, and
    [h_quoted] the mode in which [input_entry] scans the field. *)
Theorem input_entry_quoted_iff (f : TextFile) (t : typechar) :
  exists h,
    input_entry_head f t = Returns h
    /\ h_last h = fst (leading_run (ahead f) [])
    /\ h_first h = peek (snd (leading_run (ahead f) []))
    /\ (h_quoted h = true <->
        t = STR /\ h_first h = [QUOTE] /\ h_last h <> [LF] /\ h_last h <> [NUL])
    /\ (t <> STR -> h_quoted h = false).
Proof.
  destruct (input_entry_head_spec f t) as (h & Hh & Hl & Hf & Hq & _).
  exists h. split; [exact Hh|]. split; [exact Hl|]. split; [exact Hf|].
  rewrite Hq. split.
  - rewrite !andb_true_iff, bytes_eqb_eq, not_lf_nul_iff.
    destruct t; simpl; intuition congruence.
  - intros Ht. destruct t; [contradiction| | |]; simpl;
      rewrite andb_false_r; reflexivity.
Qed.

Lemma input_entry_quoted_iff_witness :
  exists h,
    input_entry_head (open_input (bs "  " ++ [QUOTE] ++ bs "a,b" ++ [QUOTE])) STR
      = Returns h
    /\ h_last h = [SPACE] /\ h_first h = [QUOTE] /\ h_quoted h = true.
Proof.
  destruct (input_entry_quoted_iff
              (open_input (bs "  " ++ [QUOTE] ++ bs "a,b" ++ [QUOTE])) STR)
    as (h & Hh & Hl & Hf & Hq & _).
  exists h. split; [exact Hh|]. split; [exact Hl|]. split; [exact Hf|].
  apply Hq. rewrite Hl, Hf. repeat split; discriminate.
Defined.

(** The examples of the tokenizer over a buffered source: a number ended by
    a space, with the comma after the spaces as the separator; a quoted
    string with a comma in it; an LF before the quote, which keeps the quote
    in the field. *)
Example input_entry_number :
  exists f',
    input_entry (open_input (bs "  12.5 , 3" ++ [CR])) SNG false
      = Returns (bs "12.5", [COMMA], f')
    /\ ahead f' = bs " 3" ++ [CR].
Proof. eexists. split; [vm_compute; reflexivity | reflexivity]. Qed.

Example input_entry_quoted_string :
  exists f',
    input_entry
      (open_input ([QUOTE] ++ bs "hello, world" ++ [QUOTE] ++ bs "  ,9" ++ [CR]))
      STR false
      = Returns (bs "hello, world", [COMMA], f')
    /\ ahead f' = bs "9" ++ [CR].
Proof. eexists. split; [vm_compute; reflexivity | reflexivity]. Qed.

Example input_entry_lf_escapes_quote :
  exists f',
    input_entry (open_input ([LF; CR; QUOTE] ++ bs "a" ++ [QUOTE; CR])) STR false
      = Returns ([QUOTE] ++ bs "a" ++ [QUOTE], [CR], f').
Proof. eexists. vm_compute. reflexivity. Qed.

(** C2, as the code has it.  The buffered-source [input_entry] raises
    INPUT_PAST_END exactly when no character is in hand when the scan would
    start -- none could be read after the leading whitespace run or, when
    quoting applies, none after the opening quote; the end of the stream and
    the soft-EOF marker both read as no character -- and allow_past_end is
    false and the last whitespace character skipped is neither LF nor NUL.
    In every other case it returns: it raises nothing else and does not
    diverge. *)
Theorem input_past_end_iff (f : TextFile) (t : typechar) (allow_past_end : bool) :
  exists h,
    input_entry_head f t = Returns h
    /\ h_c h = (if h_quoted h then peek (advance (snd (leading_run (ahead f) [])))
                else peek (snd (leading_run (ahead f) [])))
    /\ (input_entry f t allow_past_end = Raises INPUT_PAST_END <->
        h_c h = [] /\ allow_past_end = false
        /\ h_last h <> [LF] /\ h_last h <> [NUL])
    /\ (input_entry f t allow_past_end <> Raises INPUT_PAST_END ->
        exists w c f', input_entry f t allow_past_end = Returns (w, c, f')).
Proof.
  destruct (input_entry_head_spec f t) as (h & Hh & Hl & Hf & Hq & Hc & _).
  exists h. split; [exact Hh|].
  split; [rewrite Hc, Hf; reflexivity|].
  assert (Hcond : negb (nonempty (h_c h)) && negb allow_past_end
                  && not_lf_nul (h_last h) = true <->
                  h_c h = [] /\ allow_past_end = false
                  /\ h_last h <> [LF] /\ h_last h <> [NUL]).
  { rewrite !andb_true_iff, !negb_true_iff, not_lf_nul_iff.
    destruct (h_c h); simpl; intuition congruence. }
  destruct (input_entry_outcome f t allow_past_end h Hh)
    as [[Hb Hr]|[Hb (w & c0 & f1 & c & f' & _ & _ & Hr)]].
  - split; [|intros H; contradiction].
    split; [intros _; apply Hcond, Hb | intros _; exact Hr].
  - split; [|intros _; eauto].
    rewrite Hr. split; [discriminate|].
    intros H. apply Hcond in H. congruence.
Qed.

(** ** NUL never reaches the word (buffered source) *)

Lemma peek_short (s : bytes) : (length (peek s) <= 1)%nat.
Proof.
  destruct s as [|a r]; simpl; [lia|]. destruct (Ascii.eqb a SUB); simpl; lia.
Qed.

Lemma read_one_short (f : TextFile) (c : bytes) (f' : TextFile) :
  read_one f = (c, f') -> (length c <= 1)%nat.
Proof.
  intros E. apply read_one_facts in E as (-> & _). apply peek_short.
Qed.

Lemma not_in_app (a : ascii) (x y : bytes) :
  ~ In a x -> ~ In a y -> ~ In a (x ++ y).
Proof. intros Hx Hy H. apply in_app_or in H. tauto. Qed.

Lemma input_entry_loop_no_nul (fuel : nat) :
  forall (t : typechar) (quoted : bool) (c word blanks : bytes) (f : TextFile)
         (w c' : bytes) (f' : TextFile),
    (length c <= 1)%nat -> ~ In NUL word -> ~ In NUL blanks ->
    input_entry_loop fuel t quoted c word blanks f = Returns (w, c', f') ->
    ~ In NUL w.
Proof.
  induction fuel as [|k IH]; intros t quoted c word blanks f w c' f' Hc Hw Hb;
    [discriminate|].
  cbn [input_entry_loop].
  destruct (nonempty c && negb ((negb (is_STR t) && py_in c (soft_sep f))
                                || (py_in c [COMMA; CR] && negb quoted)));
    [|intros [= <- _ _]; exact Hw].
  destruct (bytes_eqb c [QUOTE] && quoted); [intros [= <- _ _]; exact Hw|].
  destruct (bytes_eqb c [LF] && negb quoted).
  - destruct (read_one f) as [c1 f1] eqn:E1.
    pose proof (read_one_short _ _ _ E1) as Hc1.
    destruct (bytes_eqb c1 [CR]).
    + destruct (read_one f1) as [c2 f2] eqn:E2.
      pose proof (read_one_short _ _ _ E2) as Hc2.
      apply IH; assumption.
    + apply IH; assumption.
  - assert (Hstep : exists word' blanks',
              (if bytes_eqb c [NUL] then (word, blanks)
               else if py_in c whitespace_input && negb quoted
                    then if is_STR t then (word, blanks ++ c) else (word, blanks)
                    else (word ++ blanks ++ c, [])) = (word', blanks')
              /\ ~ In NUL word' /\ ~ In NUL blanks').
    { destruct (bytes_eqb c [NUL]) eqn:Hnul; [eauto|].
      assert (Hcn : ~ In NUL c).
      { destruct c as [|a [|b c0]]; simpl in Hc; [tauto | | lia].
        apply bytes_eqb_neq in Hnul. intros [->|[]]. apply Hnul. reflexivity. }
      destruct (py_in c whitespace_input && negb quoted).
      - destruct (is_STR t); [|eauto].
        eexists _, _. split; [reflexivity|]. split; [exact Hw|].
        apply not_in_app; assumption.
      - eexists _, _. split; [reflexivity|]. split; [|tauto].
        apply not_in_app; [exact Hw|]. apply not_in_app; assumption. }
    destruct Hstep as (word' & blanks' & -> & Hw' & Hb').
    destruct (255 <=? length word' + length blanks')%nat;
      [intros [= <- _ _]; exact Hw'|].
    change (input_chars f 1) with (read_one f).
    assert (E : (if negb quoted then read_one f else read_one f) = read_one f)
      by (destruct quoted; reflexivity).
    rewrite E. clear E.
    destruct (read_one f) as [c1 f1] eqn:E1.
    pose proof (read_one_short _ _ _ E1) as Hc1.
    apply IH; assumption.
Qed.

(** The word of the buffered-source [input_entry] holds no NUL. *)
Lemma input_entry_no_nul (f : TextFile) (t : typechar) (allow_past_end : bool)
    (w c : bytes) (f' : TextFile) :
  input_entry f t allow_past_end = Returns (w, c, f') -> ~ In NUL w.
Proof.
  intros Hret.
  destruct (input_entry_head_spec f t) as (h & Hh & _ & Hf & _ & Hc & _).
  destruct (input_entry_outcome f t allow_past_end h Hh)
    as [[_ Hr]|[_ (w0 & c0 & f1 & c1 & f2 & Hloop & _ & Hr)]]; [congruence|].
  rewrite Hr in Hret. injection Hret as <- _ _.
  eapply input_entry_loop_no_nul; [| | |exact Hloop]; [|tauto|tauto].
  rewrite Hc. destruct (h_quoted h); [|rewrite Hf]; apply peek_short.
Qed.

(** ** Console INPUT: spaces do not end a number *)

Lemma input_entry_loop_numeric_end (fuel : nat) :
  forall (t : typechar) (c word : bytes) (f : TextFile)
         (w c' : bytes) (f' : TextFile),
    is_STR t = false -> cls f = InputTextFile ->
    (length c <= 1)%nat -> (length word < 255)%nat ->
    input_entry_loop fuel t false c word [] f = Returns (w, c', f') ->
    nonempty c' && py_in c' whitespace_input = false.
Proof.
  induction fuel as [|k IH]; intros t c word f w c' f' Ht Hcls Hc Hw; [discriminate|].
  cbn [input_entry_loop]. unfold soft_sep. rewrite Hcls, Ht.
  destruct c as [|a [|b c0]]; [intros [= _ <- _]; reflexivity | | simpl in Hc; lia].
  cbn [nonempty negb andb]. rewrite andb_true_r.
  change (py_in [a] []) with false. cbn [orb].
  destruct (py_in [a] [COMMA; CR]) eqn:Hsep.
  { cbn [negb]. intros [= _ <- _]. cbn [nonempty andb].
    rewrite py_in_single in Hsep |- *. cbn [existsb] in Hsep.
    rewrite orb_false_r in Hsep. apply orb_true_iff in Hsep as [H|H];
      apply Ascii.eqb_eq in H; subst a; reflexivity. }
  cbn [negb]. rewrite andb_false_r, !andb_true_r.
  destruct (bytes_eqb [a] [LF]).
  - destruct (read_one f) as [c1 f1] eqn:E1.
    pose proof (read_one_short _ _ _ E1) as Hc1.
    apply read_one_facts in E1 as (_ & _ & Hcls1).
    destruct (bytes_eqb c1 [CR]).
    + destruct (read_one f1) as [c2 f2] eqn:E2.
      pose proof (read_one_short _ _ _ E2) as Hc2.
      apply read_one_facts in E2 as (_ & _ & Hcls2).
      apply IH; try assumption. congruence.
    + apply IH; try assumption. congruence.
  - destruct (bytes_eqb [a] [NUL]) eqn:Hnul;
      [|destruct (py_in [a] whitespace_input) eqn:Hnws];
      cbn [length app]; rewrite ?Nat.add_0_r.
    1,2: destruct (Nat.leb_spec 255 (length word)); [lia|];
         destruct (read_one f) as [c1 f1] eqn:E1;
         pose proof (read_one_short _ _ _ E1) as Hc1;
         apply read_one_facts in E1 as (_ & _ & Hcls1);
         apply IH; try assumption; congruence.
    destruct (Nat.leb_spec 255 (length (word ++ [a]))).
    + intros [= _ <- _]. cbn [nonempty andb]. exact Hnws.
    + destruct (read_one f) as [c1 f1] eqn:E1.
      pose proof (read_one_short _ _ _ E1) as Hc1.
      apply read_one_facts in E1 as (_ & _ & Hcls1).
      apply IH; try assumption. congruence.
Qed.

Lemma ahead_TextFileBase_init (k : file_class) (content : bytes) :
  ahead (TextFileBase_init k {| unread := content; written := [] |}
           (bs "D") (bs "I") None) = content.
Proof. destruct content; reflexivity. Qed.

Lemma cls_TextFileBase_init (k : file_class) (content : bytes) :
  cls (TextFileBase_init k {| unread := content; written := [] |}
         (bs "D") (bs "I") None) = k.
Proof. destruct content; reflexivity. Qed.

Lemma drop_whitespace_cons (a : ascii) (s : bytes) :
  drop_whitespace (a :: s)
  = (if is_whitespace_input a then [] else [a]) ++ drop_whitespace s.
Proof.
  unfold drop_whitespace. simpl. destruct (is_whitespace_input a); reflexivity.
Qed.

Lemma leading_run_plain (s : bytes) :
  forall (lastc tail : bytes),
    Forall plain s ->
    exists l s',
      leading_run (s ++ CR :: tail) lastc = (l, s' ++ CR :: tail)
      /\ drop_whitespace s' = drop_whitespace s
      /\ Forall plain s'
      /\ (s' = [] \/ exists a s1, s' = a :: s1 /\ is_whitespace_input a = false).
Proof.
  induction s as [|a s IH]; intros lastc tail Hs.
  - exists lastc, []. cbn. auto.
  - inversion Hs as [|? ? Ha Hs']; subst.
    cbn [app leading_run].
    destruct (is_whitespace_input a) eqn:Hws.
    + assert (Hlf : Ascii.eqb a LF = false).
      { destruct Ha as (_ & _ & Hlf & _). apply Ascii.eqb_neq. exact Hlf. }
      destruct (IH [a] tail Hs') as (l & s' & Hrun & Hd & Hp & Hhead).
      exists l, s'. rewrite drop_whitespace_cons, Hws. cbn [app].
      split; [|auto].
      destruct (s ++ CR :: tail) as [|c r] eqn:E.
      { destruct s; discriminate. }
      rewrite Hlf. cbn [andb]. exact Hrun.
    + exists lastc, (a :: s). split; [reflexivity|]. split; [reflexivity|].
      split; [exact Hs|]. right. eauto.
Qed.

Lemma plain_tests (a : ascii) :
  plain a ->
  py_in [a] [COMMA; CR] = false /\ bytes_eqb [a] [LF] = false /\ a <> SUB.
Proof.
  intros (Hc & Hr & Hl & Hs). rewrite py_in_single. cbn.
  apply Ascii.eqb_neq in Hc, Hr, Hl. rewrite Hc, Hr, Hl. auto.
Qed.

Lemma input_entry_loop_at_cr (k : nat) (t : typechar) (word blanks : bytes)
    (f : TextFile) :
  input_entry_loop (S k) t false [CR] word blanks f = Returns (word, [CR], f).
Proof.
  cbn [input_entry_loop].
  change (py_in [CR] [COMMA; CR] && negb false) with true.
  rewrite orb_true_r. reflexivity.
Qed.

Lemma scan_numeric_plain (s : bytes) :
  forall (fuel : nat) (a : ascii) (word : bytes) (f : TextFile) (tail : bytes)
         (t : typechar),
    is_STR t = false -> cls f = InputTextFile ->
    plain a -> Forall plain s ->
    ahead f = s ++ CR :: tail ->
    (length word + length (drop_whitespace (a :: s)) < 255)%nat ->
    (length s + 3 <= fuel)%nat ->
    exists f',
      input_entry_loop fuel t false [a] word [] f
        = Returns (word ++ drop_whitespace (a :: s), [CR], f')
      /\ ahead f' = tail.
Proof.
  induction s as [|b s IH]; intros fuel a word f tail t Ht Hcls Ha Hs Hah Hlen Hfuel;
    (destruct fuel as [|k]; [lia|]);
    cbn [input_entry_loop]; unfold soft_sep; rewrite Hcls, Ht;
    destruct (plain_tests a Ha) as (Hsep & Hlf & Hsub);
    cbn [nonempty negb andb]; rewrite andb_true_r;
    change (py_in [a] []) with false; cbn [orb];
    rewrite Hsep; cbn [negb andb]; rewrite andb_false_r, Hlf, ?andb_true_r;
    cbn [andb];
    rewrite drop_whitespace_cons in Hlen |- *;
    rewrite py_in_single; fold (is_whitespace_input a).
  - assert (Hw' : exists word',
        (if bytes_eqb [a] [NUL] then (word, [])
         else if is_whitespace_input a then (word, [])
              else (word ++ [] ++ [a], [] : bytes)) = (word', [])
        /\ word' = word ++ (if is_whitespace_input a then [] else [a]) ++ drop_whitespace []).
    { destruct (bytes_eqb [a] [NUL]) eqn:Hn.
      - apply bytes_eqb_eq in Hn. injection Hn as ->. cbn. rewrite app_nil_r. eauto.
      - destruct (is_whitespace_input a); cbn; rewrite ?app_nil_r; eauto. }
    destruct Hw' as (word' & Hstep & Hword'). 
    cbn [app] in Hah.
    assert (Hcr : CR <> SUB) by discriminate.
    destruct (read_one_cons f CR tail Hah Hcr) as [Hread Htail].
    exists (shift f). split; [|exact Htail].
    etransitivity; [|rewrite <- Hword'; reflexivity].
    revert Hstep.
    destruct (bytes_eqb [a] [NUL]); [|destruct (is_whitespace_input a)];
      intros [= <-]; cbn [length]; rewrite ?Nat.add_0_r.
    all: match goal with |- context [(255 <=? ?n)%nat] =>
           destruct (Nat.leb_spec 255 n) as [Hcap|Hcap] end.
    all: try (exfalso; revert Hcap Hlen; rewrite ?length_app; cbn; lia).
    all: rewrite Hread; destruct k as [|k']; [simpl in Hfuel; lia|];
         apply input_entry_loop_at_cr.
  - inversion Hs as [|? ? Hb Hs']; subst.
    cbn [app] in Hah.
    destruct (plain_tests b Hb) as (_ & _ & Hbsub).
    destruct (read_one_cons f b (s ++ CR :: tail) Hah Hbsub) as [Hread Htail].
    assert (Hc1 : cls (shift f) = InputTextFile) by (rewrite shift_cls; exact Hcls).
    assert (Hgo : forall word',
              word' = word ++ (if is_whitespace_input a then [] else [a]) ->
              exists f',
                input_entry_loop k t false [b] word' [] (shift f)
                  = Returns (word ++ (if is_whitespace_input a then [] else [a])
                             ++ drop_whitespace (b :: s), [CR], f')
                /\ ahead f' = tail).
    { intros word' ->.
      destruct (IH k b (word ++ (if is_whitespace_input a then [] else [a]))
                  (shift f) tail t Ht Hc1 Hb Hs' Htail) as (f' & Hrun & Hf').
      - revert Hlen. rewrite !length_app. lia.
      - simpl in Hfuel. lia.
      - exists f'. rewrite Hrun, <- app_assoc. auto. }
    destruct (bytes_eqb [a] [NUL]) eqn:Hn;
      [apply bytes_eqb_eq in Hn; injection Hn as ->
      |destruct (is_whitespace_input a) eqn:Hws];
      cbn [length]; rewrite ?Nat.add_0_r.
    all: match goal with |- context [(255 <=? ?n)%nat] =>
           destruct (Nat.leb_spec 255 n) as [Hcap|Hcap] end.
    all: try (exfalso; revert Hcap Hlen; rewrite ?length_app; cbn; lia).
    all: rewrite Hread; apply Hgo; cbn; rewrite ?app_nil_r; reflexivity.
Qed.

Lemma numeric_not_quoted (f : TextFile) (t : typechar) (h : entry_head) :
  t <> STR ->
  h_quoted h = bytes_eqb (h_first h) [QUOTE] && is_STR t && not_lf_nul (h_last h) ->
  is_STR t = false /\ h_quoted h = false.
Proof.
  intros Ht ->. destruct t; [contradiction| | |]; cbn; rewrite andb_false_r; auto.
Qed.

Lemma console_numeric_not_space (line : bytes) (t : typechar) (allow_past_end : bool)
    (w c : bytes) (f' : TextFile) :
  t <> STR ->
  input_entry (InputTextFile_init line) t allow_past_end = Returns (w, c, f') ->
  c <> [SPACE].
Proof.
  intros Ht Hret. set (f := InputTextFile_init line) in *.
  destruct (input_entry_head_spec f t) as (h & Hh & _ & Hf & Hq & Hc & _ & Hcls).
  destruct (numeric_not_quoted f t h Ht Hq) as [Hstr Hnq].
  destruct (input_entry_outcome f t allow_past_end h Hh)
    as [[_ Hr]|[_ (w0 & c0 & f1 & c1 & f2 & Hloop & Htrail & Hr)]]; [congruence|].
  rewrite Hr in Hret. injection Hret as <- <- <-.
  rewrite Hnq in Hloop, Htrail, Hc.
  apply input_entry_loop_numeric_end in Hloop; try assumption.
  - unfold input_entry_trail in Htrail. rewrite Hloop in Htrail.
    cbn in Htrail. injection Htrail as <- _.
    intros ->. discriminate Hloop.
  - rewrite Hcls. apply cls_TextFileBase_init.
  - rewrite Hc, Hf. apply peek_short.
  - simpl. lia.
Qed.

Lemma console_numeric_field (s tail : bytes) (t : typechar) (allow_past_end : bool) :
  t <> STR -> Forall plain s -> (length (drop_whitespace s) < 255)%nat ->
  exists f',
    input_entry (InputTextFile_init (s ++ CR :: tail)) t allow_past_end
      = Returns (drop_whitespace s, [CR], f')
    /\ ahead f' = tail.
Proof.
  intros Ht Hs Hlen. set (f := InputTextFile_init (s ++ CR :: tail)).
  destruct (input_entry_head_spec f t) as (h & Hh & _ & Hf & Hq & Hc & Hah & Hcls).
  destruct (numeric_not_quoted f t h Ht Hq) as [Hstr Hnq].
  rewrite Hnq in Hc, Hah.
  assert (Hcls' : cls (h_file h) = InputTextFile)
    by (rewrite Hcls; apply cls_TextFileBase_init).
  unfold f in Hf, Hah. unfold InputTextFile_init in Hf, Hah.
  rewrite ahead_TextFileBase_init in Hf, Hah.
  destruct (leading_run_plain s [] tail Hs) as (l & s' & Hrun & Hd & Hp & Hhead).
  rewrite Hrun in Hf, Hah. cbn [snd] in Hf, Hah.
  unfold input_entry. rewrite Hh. cbn [bind]. rewrite Hnq.
  destruct Hhead as [->|(a & s1 & -> & Hws)].
  - cbn in Hf, Hah. rewrite Hf in Hc. rewrite Hc. cbn [nonempty negb andb].
    rewrite input_entry_loop_at_cr. cbn [bind].
    rewrite <- Hd. cbn. exists (h_file h). auto.
  - inversion Hp as [|? ? Ha Hp1]; subst.
    destruct (plain_tests a Ha) as (_ & _ & Hsub).
    cbn [app peek advance] in Hf, Hah.
    apply Ascii.eqb_neq in Hsub. rewrite Hsub in Hf, Hah.
    rewrite Hf in Hc. rewrite Hc. cbn [nonempty negb andb].
    destruct (scan_numeric_plain s1 (S (S (pending (h_file h)))) a [] (h_file h)
                tail t Hstr Hcls' Ha Hp1 Hah) as (f' & Hloop & Htail).
    + rewrite Hd. cbn [length]. lia.
    + pose proof (ahead_pending (h_file h)) as Hpend. rewrite Hah in Hpend.
      rewrite length_app in Hpend. cbn in Hpend. lia.
    + rewrite Hloop. cbn [bind app]. rewrite Hd.
      unfold input_entry_trail.
      change (nonempty [CR] && py_in [CR] whitespace_input || false && bytes_eqb [CR] [QUOTE])
        with false.
      cbn. exists f'. auto.
Qed.

(** C10. On an [InputTextFile], the buffer that stages console INPUT, a
    numeric field is never ended by a space: the terminator that
    [input_entry] returns is never a space, and on a line whose first CR
    comes after characters that are no comma, LF or soft-EOF marker, the
    field is all of these characters without the spaces (and NULs) among
    them, ended by that CR (fewer than 255 characters are kept).  So
    the line 1 2 CR is the one field 12, where the same line in a text file of
    the base class gives the field 1 ended by the space. *)
Theorem console_input_space_is_no_separator
    (line : bytes) (t : typechar) (allow_past_end : bool) :
  t <> STR ->
  (forall w c f',
      input_entry (InputTextFile_init line) t allow_past_end = Returns (w, c, f') ->
      c <> [SPACE])
  /\ (forall s tail,
        line = s ++ CR :: tail -> Forall plain s ->
        (length (drop_whitespace s) < 255)%nat ->
        exists f',
          input_entry (InputTextFile_init line) t allow_past_end
            = Returns (drop_whitespace s, [CR], f')
          /\ ahead f' = tail)
  /\ (exists f1,
        input_entry (InputTextFile_init (bs "1 2" ++ [CR])) SNG false
          = Returns (bs "12", [CR], f1))
  /\ (exists f2,
        input_entry (open_input (bs "1 2" ++ [CR])) SNG false
          = Returns (bs "1", [SPACE], f2)).
Proof.
  intros Ht. split; [|split; [|split]].
  - intros w c f'. apply console_numeric_not_space. exact Ht.
  - intros s tail -> Hs Hlen. apply console_numeric_field; assumption.
  - eexists. vm_compute. reflexivity.
  - eexists. vm_compute. reflexivity.
Qed.

Lemma console_input_space_is_no_separator_witness :
  exists f',
    input_entry (InputTextFile_init (bs "7 5 0" ++ [CR] ++ bs "next")) INT false
      = Returns (bs "750", [CR], f')
    /\ ahead f' = bs "next".
Proof.
  assert (Hint : INT <> STR) by discriminate.
  destruct (console_input_space_is_no_separator
              (bs "7 5 0" ++ [CR] ++ bs "next") INT false Hint) as (_ & H & _).
  apply (H (bs "7 5 0") (bs "next")).
  - reflexivity.
  - repeat constructor; discriminate.
  - vm_compute. lia.
Defined.

(** ** write *)

Lemma write_unfold (f : TextFile) (s : bytes) (can_break : bool) :
  write f s can_break =
  Some (write_chars
          (if can_break && negb (width f =? 255)%Z && negb (col f =? 1)%Z
              && (col f - 1 + fst (first_line_width s 0) >? width f)%Z
              && negb (snd (first_line_width s 0))
           then set_col (write_chars f [CR]) 1 else f) s).
Proof.
  unfold write. cbn [write_rec].
  destruct (first_line_width s 0) as [sw nl]. cbn [fst snd].
  destruct (can_break && negb (width f =? 255)%Z && negb (col f =? 1)%Z
            && (col f - 1 + sw >? width f)%Z && negb nl); [|reflexivity].
  change (first_line_width ([] ++ [CR]) 0) with (0%Z, true).
  cbn [negb]. rewrite andb_false_r. reflexivity.
Qed.

Lemma first_line_width_newline_free (s : bytes) :
  forall acc : Z,
    newline_free s ->
    first_line_width s acc = ((acc + printable_length s)%Z, false).
Proof.
  unfold newline_free, printable_length.
  induction s as [|c s IH]; intros acc [Hcr Hlf].
  - cbn. rewrite Z.add_0_r. reflexivity.
  - cbn [first_line_width].
    destruct (Ascii.eqb_spec c CR) as [->|Hc1]; [exfalso; apply Hcr; left; reflexivity|].
    destruct (Ascii.eqb_spec c LF) as [->|Hc2]; [exfalso; apply Hlf; left; reflexivity|].
    cbn [orb]. rewrite IH by (split; intros H; [apply Hcr | apply Hlf]; right; exact H).
    cbn [List.filter]. destruct (32 <=? ord c)%Z; cbn [length]; f_equal; lia.
Qed.

Lemma write_char_written (f : TextFile) (c : ascii) :
  written (fhandle (write_char f c)) = written (fhandle f) ++ [c].
Proof.
  unfold write_char.
  destruct (Ascii.eqb c CR); [reflexivity|].
  destruct (32 <=? ord c)%Z; [|reflexivity].
  cbn. destruct (col f + 1 =? 257)%Z; reflexivity.
Qed.

Lemma write_char_width (f : TextFile) (c : ascii) :
  width (write_char f c) = width f.
Proof.
  unfold write_char.
  destruct (Ascii.eqb c CR); [reflexivity|].
  destruct (32 <=? ord c)%Z; [|reflexivity].
  cbn. destruct (col f + 1 =? 257)%Z; reflexivity.
Qed.

Lemma write_chars_written (s : bytes) :
  forall f, written (fhandle (write_chars f s)) = written (fhandle f) ++ s.
Proof.
  unfold write_chars. induction s as [|c s IH]; intros f; cbn [fold_left].
  - rewrite app_nil_r. reflexivity.
  - rewrite IH, write_char_written, <- app_assoc. reflexivity.
Qed.

(** [col] after one character: CR sends it to 1, a printable character
    moves it one on, from 256 back to 1, and nothing else moves it. *)
Lemma write_char_col (f : TextFile) (c : ascii) :
  col (write_char f c) =
  if Ascii.eqb c CR then 1%Z
  else if (32 <=? ord c)%Z then (if (col f + 1 =? 257)%Z then 1 else col f + 1)%Z
       else col f.
Proof.
  unfold write_char.
  destruct (Ascii.eqb c CR); [reflexivity|].
  destruct (32 <=? ord c)%Z; [|reflexivity].
  cbn. destruct (col f + 1 =? 257)%Z; reflexivity.
Qed.

Lemma write_char_col_range (f : TextFile) (c : ascii) :
  (1 <= col f <= 256)%Z -> (1 <= col (write_char f c) <= 256)%Z.
Proof.
  intros H. rewrite write_char_col.
  destruct (Ascii.eqb c CR); [lia|].
  destruct (32 <=? ord c)%Z; [|exact H].
  destruct (Z.eqb_spec (col f + 1) 257); lia.
Qed.

Lemma write_chars_col_range (s : bytes) :
  forall f, (1 <= col f <= 256)%Z -> (1 <= col (write_chars f s) <= 256)%Z.
Proof.
  unfold write_chars. induction s as [|c s IH]; intros f H; cbn [fold_left].
  - exact H.
  - apply IH, write_char_col_range, H.
Qed.

Lemma printable_not_cr (c : ascii) : printable c -> Ascii.eqb c CR = false.
Proof.
  intros H. apply Ascii.eqb_neq. intros ->. apply H. reflexivity.
Qed.

Lemma write_chars_col_printable (s : bytes) :
  forall f,
    (1 <= col f <= 256)%Z -> Forall printable s ->
    col (write_chars f s) = (1 + (col f - 1 + Z.of_nat (length s)) mod 256)%Z.
Proof.
  unfold write_chars. induction s as [|c s IH]; intros f Hr Hp; cbn [fold_left length].
  - rewrite Z.add_0_r, Z.mod_small; lia.
  - inversion Hp as [|? ? Hc Hs]; subst.
    rewrite IH; [|apply write_char_col_range, Hr | exact Hs].
    rewrite write_char_col, (printable_not_cr c Hc).
    unfold printable in Hc. apply Z.leb_le in Hc. rewrite Hc.
    f_equal. rewrite Nat2Z.inj_succ.
    destruct (Z.eqb_spec (col f + 1) 257) as [E|E].
    + replace (col f - 1 + Z.succ (Z.of_nat (length s)))%Z
        with (Z.of_nat (length s) + 1 * 256)%Z by lia.
      rewrite Z.mod_add by lia. f_equal; lia.
    + f_equal; lia.
Qed.

Lemma count_cr_zero (s : bytes) : ~ In CR s -> count_occ ascii_dec s CR = 0%nat.
Proof. apply count_occ_not_In. Qed.

(** C4, as the code has it.  For a string without CR or LF, of printable
    length L, written with can_break at column c of a file of width w:
    [write] returns; the stream gets the string, after one CR when
    c-1+L > w, w <> 255 and c <> 1, and the string alone otherwise.  So no
    line break is inserted iff c-1+L <= w or w = 255 or c = 1, and exactly
    one is inserted iff c-1+L > w and w <> 255 and c <> 1. *)
Theorem write_line_break_iff (f : TextFile) (s : bytes) :
  newline_free s ->
  exists f',
    write f s true = Some f'
    /\ written (fhandle f')
       = written (fhandle f)
         ++ (if negb (width f =? 255)%Z && negb (col f =? 1)%Z
                && (col f - 1 + printable_length s >? width f)%Z
             then [CR] else [])
         ++ s
    /\ (line_breaks f f' = 0%nat <->
        (col f - 1 + printable_length s <= width f)%Z
        \/ width f = 255%Z \/ col f = 1%Z)
    /\ (line_breaks f f' = 1%nat <->
        (col f - 1 + printable_length s > width f)%Z
        /\ width f <> 255%Z /\ col f <> 1%Z).
Proof.
  intros Hs. rewrite write_unfold.
  rewrite (first_line_width_newline_free s 0 Hs). cbn [fst snd negb andb].
  rewrite Z.add_0_l, andb_true_r.
  eexists. split; [reflexivity|].
  rewrite write_chars_written. unfold line_breaks. rewrite write_chars_written.
  destruct Hs as [Hcr _]. pose proof (count_cr_zero s Hcr) as Hz.
  destruct (Z.eqb_spec (width f) 255) as [Hw|Hw];
    destruct (Z.eqb_spec (col f) 1) as [Hc|Hc];
    destruct (Z.gtb_spec (col f - 1 + printable_length s) (width f)) as [Hl|Hl];
    cbn [negb andb app];
    rewrite ?write_chars_written; cbn [set_col fhandle];
    rewrite ?write_chars_written, ?count_occ_app, ?Hz; cbn [count_occ];
    try (destruct (ascii_dec CR CR) as [_|Hne]; [|contradiction]);
    (split; [rewrite <- ?app_assoc; reflexivity|]);
    split; split; intros H; try lia; try tauto.
Qed.

Lemma write_line_break_iff_witness :
  exists f',
    write (set_col (set_width open_output 10) 5) (bs "ABCDEFGHIJ") true = Some f'
    /\ written (fhandle f') = CR :: bs "ABCDEFGHIJ"
    /\ line_breaks (set_col (set_width open_output 10) 5) f' = 1%nat.
Proof.
  assert (Hnf : newline_free (bs "ABCDEFGHIJ")).
  { split; intros H; cbn in H; repeat (destruct H as [H|H]; [discriminate H|]);
      exact H. }
  destruct (write_line_break_iff (set_col (set_width open_output 10) 5)
              (bs "ABCDEFGHIJ") Hnf) as (f' & Hw & Hout & _ & H1).
  exists f'. split; [exact Hw|]. split; [exact Hout|].
  apply H1. cbn. repeat split; discriminate.
Defined.

(** C4 as stated fails at column 1 and at width 255: 81 characters written
    at column 1 of a file of width 80, and 255 characters written at
    column 2 of a file of width 255, overflow the width and get no line
    break. *)
Lemma write_no_break_counterexample :
  (exists f',
      write (set_width open_output 80) (repeat "A"%char 81) true = Some f'
      /\ line_breaks (set_width open_output 80) f' = 0%nat
      /\ (col (set_width open_output 80) - 1
          + printable_length (repeat "A"%char 81)
          > width (set_width open_output 80))%Z
      /\ width (set_width open_output 80) <> 255%Z)
  /\ (exists f',
        write (set_col open_output 2) (repeat "A"%char 255) true = Some f'
        /\ line_breaks (set_col open_output 2) f' = 0%nat
        /\ (col (set_col open_output 2) - 1
            + printable_length (repeat "A"%char 255)
            > width (set_col open_output 2))%Z).
Proof.
  split.
  - eexists. split; [vm_compute; reflexivity|].
    split; [vm_compute; reflexivity|]. split; [reflexivity | discriminate].
  - eexists. split; [vm_compute; reflexivity|].
    split; [vm_compute; reflexivity | reflexivity].
Qed.

Lemma read_one_col (f : TextFile) : col (snd (read_one f)) = col f.
Proof.
  rewrite read_one_unfold. destruct (next_char f) as [a|]; [|reflexivity].
  destruct (Ascii.eqb a SUB); [reflexivity|].
  unfold shift. destruct (stream_read1 (fhandle f)). reflexivity.
Qed.

Lemma write_chars_app (s1 s2 : bytes) (f : TextFile) :
  write_chars f (s1 ++ s2) = write_chars (write_chars f s1) s2.
Proof. unfold write_chars. apply fold_left_app. Qed.

(** C5. [col] stays in 1..256 and wraps from 257 to 1 whatever the width:
    a new file is at column 1; [write] returns and keeps [col] in 1..256,
    [write_line] leaves it at 1, reading and [set_width] do not move it; a
    printable character moves [col] one on, and from 256 back to 1, with no
    regard to [width]; so 256 printable characters written at column 1 of a
    file of width 255 leave [col] at 1. *)
Theorem col_stays_in_range_and_wraps :
  (forall k fh ft md fc, col (TextFileBase_init k fh ft md fc) = 1%Z)
  /\ (forall f s can_break,
        (1 <= col f <= 256)%Z ->
        exists f', write f s can_break = Some f' /\ (1 <= col f' <= 256)%Z)
  /\ (forall f s, exists f', write_line f s = Some f' /\ col f' = 1%Z)
  /\ (forall f w, col (snd (read_one f)) = col f /\ col (set_width f w) = col f)
  /\ (forall f c,
        printable c ->
        col (write_char f c) = (if (col f =? 256)%Z then 1 else col f + 1)%Z
        /\ width (write_char f c) = width f)
  /\ (forall f s,
        Forall printable s -> length s = 256%nat ->
        col f = 1%Z -> width f = 255%Z ->
        exists f', write f s true = Some f' /\ col f' = 1%Z).
Proof.
  split; [|split; [|split; [|split; [|split]]]].
  - intros k fh ft md fc. unfold TextFileBase_init.
    destruct (py_in (upper md) (bs "IR") && negb (nonempty (slot_bytes fc)));
      [destruct (stream_read1 fh)|]; reflexivity.
  - intros f s can_break Hr. rewrite write_unfold. eexists. split; [reflexivity|].
    apply write_chars_col_range.
    match goal with |- context [if ?b then _ else _] => destruct b end;
      [cbn; lia | exact Hr].
  - intros f s. unfold write_line. rewrite write_unfold.
    eexists. split; [reflexivity|]. rewrite write_chars_app.
    unfold write_chars at 1. cbn [fold_left]. rewrite write_char_col. reflexivity.
  - intros f w. split; [apply read_one_col | reflexivity].
  - intros f c Hc. split; [|apply write_char_width].
    rewrite write_char_col, (printable_not_cr c Hc).
    unfold printable in Hc. apply Z.leb_le in Hc. rewrite Hc.
    destruct (Z.eqb_spec (col f + 1) 257), (Z.eqb_spec (col f) 256); lia.
  - intros f s Hp Hlen Hc Hw. rewrite write_unfold.
    assert (E : (col f =? 1)%Z = true) by (apply Z.eqb_eq, Hc).
    rewrite E. cbn [negb]. rewrite andb_false_r. cbn [andb].
    eexists. split; [reflexivity|].
    rewrite write_chars_col_printable; [|lia | exact Hp].
    rewrite Hc, Hlen. reflexivity.
Qed.

Lemma col_stays_in_range_and_wraps_witness :
  exists f',
    write open_output (repeat "A"%char 256) true = Some f' /\ col f' = 1%Z.
Proof.
  destruct col_stays_in_range_and_wraps as (_ & _ & _ & _ & _ & H).
  apply H.
  - apply List.Forall_forall. intros x Hx. apply repeat_spec in Hx. subst x.
    intros Hgt. discriminate Hgt.
  - apply repeat_length.
  - reflexivity.
  - reflexivity.
Defined.

Lemma input_past_end_iff_witness :
  input_entry (open_input (bs "   ")) SNG false = Raises INPUT_PAST_END
  /\ exists w c f', input_entry (open_input [LF]) SNG false = Returns (w, c, f').
Proof.
  split.
  - destruct (input_past_end_iff (open_input (bs "   ")) SNG false)
      as (h & Hh & Hc & Hiff & _).
    apply Hiff. injection Hh as <-. cbn. repeat split; discriminate.
  - destruct (input_past_end_iff (open_input [LF]) SNG false)
      as (h & Hh & Hc & Hiff & Hret).
    apply Hret. intros Hraise. apply Hiff in Hraise as (_ & _ & Hlf & _).
    injection Hh as <-. apply Hlf. reflexivity.
Defined.

(** C2 as stated fails where quoting applies and where the stream is not at
    its true end: a string field that is only an opening quote raises
    INPUT_PAST_END although a character was read after the whitespace run
    and quoting applies; and so does a stream that holds the soft-EOF
    marker with more bytes after it. *)
Lemma input_past_end_counterexample :
  (exists h,
      input_entry_head (open_input [QUOTE]) STR = Returns h
      /\ h_first h = [QUOTE] /\ h_quoted h = true
      /\ input_entry (open_input [QUOTE]) STR false = Raises INPUT_PAST_END)
  /\ (ahead (open_input (SUB :: bs "12")) = SUB :: bs "12"
      /\ input_entry (open_input (SUB :: bs "12")) INT false
         = Raises INPUT_PAST_END).
Proof.
  split.
  - eexists. split; [vm_compute; reflexivity|]. cbn [h_first h_quoted].
    repeat split; reflexivity.
  - split; reflexivity.
Qed.

(** C6, as the code has it.  [read_line] returns a line without CR, read up
    to a CR, which is consumed, to the end of the stream or the soft-EOF
    marker 0x1A, which stays unread, or to 255 characters.  The terminator
    is CR at a CR, empty at the end of the stream or at the soft-EOF marker,
    and at the cap CR when the next unread character is CR and None
    otherwise.  On HELLO CR WORLD it gives HELLO with CR, then WORLD with
    the empty terminator. *)
Theorem read_line_terminators :
  (forall f,
      exists line term f',
        read_line f = Some (line, term, f')
        /\ ~ In CR line /\ ~ In SUB line
        /\ line_end 255 (ahead f) line term (ahead f'))
  /\ (exists f1 f2,
        read_line (open_input (bs "HELLO" ++ [CR] ++ bs "WORLD"))
          = Some (bs "HELLO", Some [CR], f1)
        /\ read_line f1 = Some (bs "WORLD", Some [], f2)).
Proof.
  split; [exact read_line_spec|].
  eexists. eexists. split; vm_compute; reflexivity.
Qed.

(** C6 as stated fails at the soft-EOF marker: with A, 0x1A, B, CR ahead the
    line is A with the empty terminator, though the stream is not at its
    end, no CR was met and the line is shorter than 255. *)
Lemma read_line_soft_eof_counterexample :
  exists f',
    read_line (open_input (bs "A" ++ [SUB] ++ bs "B" ++ [CR]))
      = Some (bs "A", Some [], f')
    /\ ahead f' = [SUB] ++ bs "B" ++ [CR]
    /\ unread (fhandle f') = bs "B" ++ [CR].
Proof.
  eexists. split; [vm_compute; reflexivity|]. split; reflexivity.
Qed.

(** ** The keyboard file: read_one and the tokenizer over a live source *)

Section Realtime.
Context `{EA : EAscii}.

Lemma KYBDFile_read_one_cases (kbd : Keyboard) :
  KYBDFile_read_one kbd = Diverges
  \/ exists c kbd',
       KYBDFile_read_one kbd = Returns (c, kbd')
       /\ c <> [] /\ (length kbd' < length kbd)%nat
       /\ exists skipped batch, kbd = skipped ++ batch :: kbd' /\ c = delivered batch.
Proof.
  induction kbd as [|batch rest IH]; [left; reflexivity|].
  cbn [KYBDFile_read_one].
  destruct (Nat.ltb_spec (length (delivered batch)) 1) as [Hlt|Hge].
  - destruct IH as [->|(c & kbd' & -> & Hne & Hlen & sk & b & -> & Hc)];
      [left; reflexivity|].
    right. exists c, kbd'. split; [reflexivity|]. split; [exact Hne|].
    split; [simpl; lia|]. exists (batch :: sk), b. auto.
  - right. exists (delivered batch), rest. split; [reflexivity|].
    split; [destruct (delivered batch); [simpl in Hge; lia | discriminate]|].
    split; [simpl; lia|]. exists [], batch. auto.
Qed.

(** The scan over a live source returns or waits for ever; it raises
    nothing. *)
Lemma input_entry_realtime_loop_outcome (fuel : nat) :
  forall (t : typechar) (quoted : bool) (s : rt_state),
    input_entry_realtime_loop fuel t quoted s = Diverges
    \/ exists s', input_entry_realtime_loop fuel t quoted s = Returns s'.
Proof.
  induction fuel as [|k IH]; intros t quoted s; [left; reflexivity|].
  cbn [input_entry_realtime_loop]. unfold rt_finish.
  repeat match goal with
  | |- context [if ?b then _ else _] => destruct b
  | |- context [KYBDFile_read_one ?kk] =>
      let c := fresh "c" in let k' := fresh "k" in
      destruct (KYBDFile_read_one_cases kk) as [-> | (c & k' & -> & _)];
      cbn [bind]
  end; eauto.
Qed.

(** The bound that [input_entry_realtime] gives its loop is enough: every
    turn but the last reads a key, so what the loop returns under any bound
    it returns under a bound above the number of batches left. *)
Lemma input_entry_realtime_loop_bound (fuel' : nat) :
  forall (fuel : nat) (t : typechar) (quoted : bool) (s r : rt_state),
    (length (rt_kbd s) + 1 <= fuel)%nat ->
    input_entry_realtime_loop fuel' t quoted s = Returns r ->
    input_entry_realtime_loop fuel t quoted s = Returns r.
Proof.
  induction fuel' as [|k' IH]; intros fuel t quoted s r Hfuel; [discriminate|].
  destruct fuel as [|k]; [lia|].
  cbn [input_entry_realtime_loop]. unfold rt_finish.
  repeat match goal with
  | |- context [if ?b then _ else _] => destruct b
  | |- context [KYBDFile_read_one ?kk] =>
      let c := fresh "c" in let k' := fresh "k" in let Hl := fresh "Hl" in
      destruct (KYBDFile_read_one_cases kk) as [-> | (c & k' & -> & _ & Hl & _)];
      cbn [bind]
  end; try discriminate; try tauto; apply IH; cbn [rt_kbd]; lia.
Qed.

(** C3. The tokenizer bound to KYBD: files never raises INPUT_PAST_END: the
    test that would raise it needs a read that gave no character, and
    [KYBDFile.read_one] does not come back without one.  A call returns, or
    waits on the keyboard for ever.  The buffered-source tokenizer does
    raise INPUT_PAST_END, for one at the end of an empty stream. *)
Theorem realtime_never_input_past_end
    (self : KYBDFile) (kbd : Keyboard) (t : typechar) (allow_past_end : bool) :
  (input_entry_realtime self kbd t allow_past_end = Diverges
   \/ exists r, input_entry_realtime self kbd t allow_past_end = Returns r)
  /\ input_entry (open_input []) STR false = Raises INPUT_PAST_END.
Proof.
  split; [|reflexivity].
  unfold input_entry_realtime.
  assert (Hgo : forall (c : bytes) (last0 : bytes) (kbd2 : Keyboard) (q : bool),
            c <> [] ->
            (if negb (nonempty c) && negb allow_past_end
             then Raises INPUT_PAST_END
             else bind (input_entry_realtime_loop (S (S (length kbd2))) t q
                          {| rt_c := c; rt_word := []; rt_blanks := [];
                             rt_trail := false; rt_last := last0; rt_kbd := kbd2 |})
                    (fun s => Returns (rt_word s, rt_c s,
                       {| k_text := k_text self; _input_last := rt_last s;
                          k_is_master := k_is_master self;
                          k_reclen := k_reclen self |}, rt_kbd s)))
            = Diverges
            \/ exists r,
                 (if negb (nonempty c) && negb allow_past_end
                  then Raises INPUT_PAST_END
                  else bind (input_entry_realtime_loop (S (S (length kbd2))) t q
                               {| rt_c := c; rt_word := []; rt_blanks := [];
                                  rt_trail := false; rt_last := last0;
                                  rt_kbd := kbd2 |})
                         (fun s => Returns (rt_word s, rt_c s,
                            {| k_text := k_text self; _input_last := rt_last s;
                               k_is_master := k_is_master self;
                               k_reclen := k_reclen self |}, rt_kbd s)))
                 = Returns r).
  { intros c last0 kbd2 q Hc. destruct c as [|a c]; [contradiction|].
    cbn [nonempty negb andb].
    match goal with |- context [input_entry_realtime_loop ?n t q ?s] =>
      destruct (input_entry_realtime_loop_outcome n t q s) as [->|[s' ->]] end;
      cbn [bind]; eauto. }
  destruct (nonempty (_input_last self)) eqn:Hlast; cbn [bind].
  - assert (Hne : _input_last self <> [])
      by (destruct (_input_last self); [discriminate | discriminate]).
    destruct (bytes_eqb (_input_last self) [QUOTE] && is_STR t); cbn [bind].
    + destruct (KYBDFile_read_one_cases kbd) as [->|(c & k1 & -> & Hc & _)];
        cbn [bind]; [left; reflexivity|]. apply Hgo, Hc.
    + apply Hgo, Hne.
  - destruct (KYBDFile_read_one_cases kbd) as [->|(c0 & k1 & -> & Hc0 & _)];
      cbn [bind]; [left; reflexivity|].
    destruct (bytes_eqb c0 [QUOTE] && is_STR t); cbn [bind].
    + destruct (KYBDFile_read_one_cases k1) as [->|(c & k2 & -> & Hc & _)];
        cbn [bind]; [left; reflexivity|]. apply Hgo, Hc.
    + apply Hgo, Hc0.
Qed.

End Realtime.

(** ** NUL in the word of the live-source tokenizer *)

Section RealtimeNul.
Context `{EA : EAscii}.

Lemma KYBDFile_read_one_lone_nul (kbd : Keyboard) (c : bytes) (kbd' : Keyboard) :
  nul_only_alone kbd ->
  KYBDFile_read_one kbd = Returns (c, kbd') ->
  lone_nul c /\ nul_only_alone kbd'.
Proof.
  intros Hk Hr.
  destruct (KYBDFile_read_one_cases kbd)
    as [E|(c1 & k1 & E & _ & _ & sk & b & Hfrom & Hc)]; [congruence|].
  rewrite E in Hr. injection Hr as <- <-.
  unfold nul_only_alone in *. rewrite Hfrom in Hk.
  apply Forall_app in Hk as [_ Hk]. inversion Hk; subst. split; assumption.
Qed.

Lemma not_whitespace_not_nul (c : bytes) :
  lone_nul c -> py_in c whitespace_input = false -> ~ In NUL c.
Proof.
  intros [->|H] Hws; [discriminate Hws | exact H].
Qed.

Lemma rt_finish_no_nul (again : rt_state -> outcome rt_state) (t : typechar)
    (s : rt_state) (word blanks : bytes) (trail : bool) (s' : rt_state) :
  (forall s1 s2,
      lone_nul (rt_c s1) -> ~ In NUL (rt_word s1) -> ~ In NUL (rt_blanks s1) ->
      ~ In NUL (rt_last s1) -> nul_only_alone (rt_kbd s1) ->
      again s1 = Returns s2 ->
      ~ In NUL (rt_word s2) /\ ~ In NUL (rt_last s2)) ->
  ~ In NUL word -> ~ In NUL blanks -> ~ In NUL (rt_last s) ->
  nul_only_alone (rt_kbd s) ->
  rt_finish again t s word blanks trail = Returns s' ->
  ~ In NUL (rt_word s') /\ ~ In NUL (rt_last s').
Proof.
  intros Hagain Hw Hb Hl Hk. unfold rt_finish.
  destruct (255 <=? length word + length blanks)%nat;
    [intros [= <-]; cbn; auto|].
  destruct (KYBDFile_read_one (rt_kbd s)) as [[c1 kbd1]| | |] eqn:E;
    cbn [bind]; try discriminate.
  destruct (KYBDFile_read_one_lone_nul _ _ _ Hk E) as [Hc1 Hk1].
  destruct (trail && negb (py_in c1 whitespace_input)) eqn:Htr.
  - intros [= <-]. cbn. split; [exact Hw|].
    apply andb_true_iff in Htr as [_ Hnws]. apply negb_true_iff in Hnws.
    destruct (negb (bytes_eqb c1 [COMMA] || bytes_eqb c1 [CR])); [|exact Hl].
    apply not_whitespace_not_nul; assumption.
  - apply Hagain; cbn; assumption.
Qed.

Lemma input_entry_realtime_loop_no_nul (fuel : nat) :
  forall (t : typechar) (quoted : bool) (s s' : rt_state),
    lone_nul (rt_c s) -> ~ In NUL (rt_word s) -> ~ In NUL (rt_blanks s) ->
    ~ In NUL (rt_last s) -> nul_only_alone (rt_kbd s) ->
    input_entry_realtime_loop fuel t quoted s = Returns s' ->
    ~ In NUL (rt_word s') /\ ~ In NUL (rt_last s').
Proof.
  induction fuel as [|k IH]; intros t quoted s s' Hc Hw Hb Hl Hk; [discriminate|].
  cbn [input_entry_realtime_loop].
  pose proof (fun w b tr => rt_finish_no_nul (input_entry_realtime_loop k t quoted)
                t s w b tr s' (IH t quoted)) as Hfin.
  destruct (nonempty (rt_c s)
            && negb (py_in (rt_c s) [COMMA; CR] && negb quoted));
    [|intros [= <-]; auto].
  destruct (bytes_eqb (rt_c s) [QUOTE] && quoted); [apply Hfin; assumption|].
  destruct (bytes_eqb (rt_c s) [LF] && negb quoted).
  - destruct (KYBDFile_read_one (rt_kbd s)) as [[c1 kbd1]| | |] eqn:E1;
      cbn [bind]; try discriminate.
    destruct (KYBDFile_read_one_lone_nul _ _ _ Hk E1) as [Hc1 Hk1].
    destruct (bytes_eqb c1 [CR]).
    + destruct (KYBDFile_read_one kbd1) as [[c2 kbd2]| | |] eqn:E2;
        cbn [bind]; try discriminate.
      destruct (KYBDFile_read_one_lone_nul _ _ _ Hk1 E2) as [Hc2 Hk2].
      apply IH; cbn; assumption.
    + cbn [bind]. apply IH; cbn; assumption.
  - destruct (bytes_eqb (rt_c s) [NUL]) eqn:Hnul; [apply Hfin; assumption|].
    assert (Hcn : ~ In NUL (rt_c s)).
    { destruct Hc as [E|H]; [|exact H].
      apply bytes_eqb_neq in Hnul. contradiction. }
    destruct (py_in (rt_c s) whitespace_input && negb quoted).
    + destruct (is_STR t); apply Hfin; try assumption.
      apply not_in_app; assumption.
    + apply Hfin; try assumption; [|tauto].
      apply not_in_app; [assumption|]. apply not_in_app; assumption.
Qed.

(** On a keyboard on which NUL only comes alone, the word of
    [input_entry_realtime] holds no NUL, and neither does the character the
    file keeps for the next field. *)
Lemma input_entry_realtime_no_nul (self : KYBDFile) (kbd : Keyboard)
    (t : typechar) (allow_past_end : bool)
    (w c : bytes) (self' : KYBDFile) (kbd' : Keyboard) :
  nul_only_alone kbd -> ~ In NUL (_input_last self) ->
  input_entry_realtime self kbd t allow_past_end = Returns (w, c, self', kbd') ->
  ~ In NUL w /\ ~ In NUL (_input_last self').
Proof.
  intros Hk Hl. unfold input_entry_realtime.
  assert (Hgo : forall (c1 last0 : bytes) (kbd2 : Keyboard) (q : bool),
            lone_nul c1 -> ~ In NUL last0 -> nul_only_alone kbd2 ->
            (if negb (nonempty c1) && negb allow_past_end
             then Raises INPUT_PAST_END
             else bind (input_entry_realtime_loop (S (S (length kbd2))) t q
                          {| rt_c := c1; rt_word := []; rt_blanks := [];
                             rt_trail := false; rt_last := last0; rt_kbd := kbd2 |})
                    (fun s => Returns (rt_word s, rt_c s,
                       {| k_text := k_text self; _input_last := rt_last s;
                          k_is_master := k_is_master self;
                          k_reclen := k_reclen self |}, rt_kbd s)))
            = Returns (w, c, self', kbd') ->
            ~ In NUL w /\ ~ In NUL (_input_last self')).
  { intros c1 last0 kbd2 q Hc1 Hl0 Hk2.
    destruct (negb (nonempty c1) && negb allow_past_end); [discriminate|].
    destruct (input_entry_realtime_loop (S (S (length kbd2))) t q _)
      as [s'| | |] eqn:Hloop; cbn [bind]; try discriminate.
    intros [= <- _ <- _]. cbn [_input_last].
    eapply input_entry_realtime_loop_no_nul; [| | | | |exact Hloop]; cbn; auto. }
  destruct (nonempty (_input_last self)) eqn:Hlast; cbn [bind].
  - destruct (bytes_eqb (_input_last self) [QUOTE] && is_STR t); cbn [bind].
    + destruct (KYBDFile_read_one kbd) as [[c1 kbd1]| | |] eqn:E1;
        cbn [bind]; try discriminate.
      destruct (KYBDFile_read_one_lone_nul _ _ _ Hk E1) as [Hc1 Hk1].
      apply Hgo; auto.
    + apply Hgo; auto. right. exact Hl.
  - destruct (KYBDFile_read_one kbd) as [[c0 kbd1]| | |] eqn:E0;
      cbn [bind]; try discriminate.
    destruct (KYBDFile_read_one_lone_nul _ _ _ Hk E0) as [Hc0 Hk1].
    destruct (bytes_eqb c0 [QUOTE] && is_STR t); cbn [bind].
    + destruct (KYBDFile_read_one kbd1) as [[c1 kbd2]| | |] eqn:E1;
        cbn [bind]; try discriminate.
      destruct (KYBDFile_read_one_lone_nul _ _ _ Hk1 E1) as [Hc1 Hk2].
      apply Hgo; auto.
    + apply Hgo; auto.
Qed.

Lemma dict_get_no_nul (d : list (bytes * bytes)) (k : bytes) :
  Forall (fun kv => ~ In NUL (snd kv)) d ->
  forall default,
    dict_get d k default = default \/ ~ In NUL (dict_get d k default).
Proof.
  induction d as [|[k' v] d IH]; intros Hd default; [left; reflexivity|].
  inversion Hd as [|? ? Hv Hd']; subst. cbn [dict_get snd] in *.
  destruct (bytes_eqb k' k).
  - destruct (IH Hd' v) as [E|E]; [rewrite E; right; exact Hv | right; exact E].
  - apply IH, Hd'.
Qed.

Lemma input_replace_values : Forall (fun kv => ~ In NUL (snd kv)) _input_replace.
Proof.
  unfold _input_replace.
  repeat (constructor; [cbn; intros Hin;
                        repeat (destruct Hin as [Hin|Hin]; [discriminate Hin|]);
                        exact Hin|]).
  constructor.
Qed.

(** A keyboard that delivers single bytes is one on which NUL only comes
    alone: a replaced code becomes a string of the table, which holds no
    NUL, and any other byte stays as it is. *)
Lemma single_bytes_nul_only_alone (kbd : Keyboard) :
  single_bytes kbd -> nul_only_alone kbd.
Proof.
  unfold single_bytes, nul_only_alone. apply List.Forall_impl.
  intros batch [a ->]. unfold delivered. cbn [List.map List.concat].
  rewrite app_nil_r.
  destruct (dict_get_no_nul _input_replace [a] input_replace_values [a]) as [E|E].
  - rewrite E. destruct (Ascii.eqb_spec a NUL) as [->|Hne]; [left; reflexivity|].
    right. intros [H|[]]. congruence.
  - right. exact E.
Qed.

End RealtimeNul.

(** C7, as the code has it.  In the buffered-source [input_entry] no NUL
    reaches the word, inside or outside quotes.  In [input_entry_realtime] a
    character that is the single byte NUL is dropped, inside or outside
    quotes, so no NUL reaches the word when NUL only comes alone from the
    keyboard, as it does when the keyboard delivers single bytes; a code of
    several bytes with a NUL among them that the replace table does not
    hold is not covered.  A, NUL, B gives the word AB, quoted or not, from
    a stream and from the keyboard. *)
Theorem nul_dropped_from_fields `{EA : EAscii} :
  (forall f t allow_past_end w c f',
      input_entry f t allow_past_end = Returns (w, c, f') -> ~ In NUL w)
  /\ (forall self kbd t allow_past_end w c self' kbd',
        nul_only_alone kbd -> ~ In NUL (_input_last self) ->
        input_entry_realtime self kbd t allow_past_end = Returns (w, c, self', kbd') ->
        ~ In NUL w /\ ~ In NUL (_input_last self'))
  /\ (forall kbd, single_bytes kbd -> nul_only_alone kbd)
  /\ (exists f',
        input_entry (open_input (bs "A" ++ [NUL] ++ bs "B")) STR false
          = Returns (bs "AB", [], f'))
  /\ (exists f',
        input_entry (open_input ([QUOTE] ++ bs "A" ++ [NUL] ++ bs "B" ++ [QUOTE]))
          STR false
          = Returns (bs "AB", [], f'))
  /\ (exists self' kbd',
        @input_entry_realtime ibm_eascii KYBDFile_init
          (keys (bs "A" ++ [NUL] ++ bs "B" ++ [CR])) STR false
          = Returns (bs "AB", [CR], self', kbd')).
Proof.
  split; [exact input_entry_no_nul|].
  split; [exact input_entry_realtime_no_nul|].
  split; [exact single_bytes_nul_only_alone|].
  split; [eexists; vm_compute; reflexivity|].
  split; [eexists; vm_compute; reflexivity|].
  eexists. eexists. vm_compute. reflexivity.
Qed.

Lemma nul_dropped_from_fields_witness :
  single_bytes (keys ([QUOTE] ++ bs "A" ++ [NUL] ++ bs "B" ++ [QUOTE; CR]))
  /\ exists w c self' kbd',
       @input_entry_realtime ibm_eascii KYBDFile_init
         (keys ([QUOTE] ++ bs "A" ++ [NUL] ++ bs "B" ++ [QUOTE; CR])) STR false
         = Returns (w, c, self', kbd')
       /\ ~ In NUL w.
Proof.
  assert (Hs : single_bytes (keys ([QUOTE] ++ bs "A" ++ [NUL] ++ bs "B" ++ [QUOTE; CR]))).
  { repeat constructor; eexists; reflexivity. }
  split; [exact Hs|].
  destruct (@nul_dropped_from_fields ibm_eascii) as (_ & Hrt & Hsb & _).
  eexists. eexists. eexists. eexists.
  split; [vm_compute; reflexivity|].
  eapply (Hrt KYBDFile_init
            (keys ([QUOTE] ++ bs "A" ++ [NUL] ++ bs "B" ++ [QUOTE; CR])) STR false).
  - apply Hsb. exact Hs.
  - cbn. tauto.
  - vm_compute. reflexivity.
Defined.

(** C7 as stated fails on the keyboard: a code of two bytes that the replace
    table does not hold, here NUL 0x10 (Alt+Q), is read as one character,
    which is not the single byte NUL, and goes into the word whole. *)
Lemma realtime_nul_counterexample :
  dict_get (@_input_replace ibm_eascii) [NUL; "016"%char] [NUL; "016"%char]
    = [NUL; "016"%char]
  /\ exists self' kbd',
       @input_entry_realtime ibm_eascii KYBDFile_init
         ([[NUL; "016"%char]] :: keys (bs "B" ++ [CR])) STR false
         = Returns (NUL :: "016"%char :: bs "B", [CR], self', kbd')
       /\ In NUL (NUL :: "016"%char :: bs "B").
Proof.
  split; [reflexivity|].
  eexists. eexists. split; [vm_compute; reflexivity|]. left. reflexivity.
Qed.

(** ** Devices: open and the clones' private width *)

Section Devices.
Context {D : Type} `{DI : Display D}.

Lemma alloc_spec (w : World D) (o : File) :
  files w !! fst (alloc w o) = None
  /\ files (snd (alloc w o)) !! fst (alloc w o) = Some o
  /\ (forall h, h <> fst (alloc w o) ->
        files (snd (alloc w o)) !! h = files w !! h)
  /\ display (snd (alloc w o)) = display w.
Proof.
  unfold alloc. cbn [fst snd files display].
  split; [apply not_elem_of_dom, is_fresh|].
  split; [apply lookup_insert_eq|].
  split; [|reflexivity].
  intros h Hne. apply lookup_insert_ne. congruence.
Qed.

Lemma File_open_clone_fields (master : File) (d : D) (ft md : bytes) (reclen : Z) :
  is_master (File_open_clone master d ft md reclen) = false
  /\ File_mode (File_open_clone master d ft md reclen) = md
  /\ File_filetype (File_open_clone master d ft md reclen) = ft
  /\ File_reclen (File_open_clone master d ft md reclen) = Some reclen.
Proof. destruct master; repeat split; reflexivity. Qed.

(** C8. [Device.open] raises DEVICE_UNAVAILABLE when the device has no
    master file; else it raises BAD_FILE_MODE when the mode is not in
    [allowed_modes] (Python's [in]; for a mode of one letter, that letter
    being among the allowed ones); else it returns a new file, the clone
    that the master file's [open_clone] makes: not the master, with the mode,
    file type and record length asked for, under a number no object had.
    The device, its master file and every other object, and the display are
    as before. *)
Theorem Device_open_spec (self : Device) (ft md : bytes) (reclen : Z) (w : World D) :
  (device_file self = None ->
   Device_open self ft md reclen w = Raises DEVICE_UNAVAILABLE)
  /\ (forall m,
        device_file self = Some m -> py_in md (allowed_modes self) = false ->
        Device_open self ft md reclen w = Raises BAD_FILE_MODE)
  /\ (forall m master,
        device_file self = Some m -> py_in md (allowed_modes self) = true ->
        files w !! m = Some master ->
        exists new_file w',
          Device_open self ft md reclen w = Returns (new_file, self, w')
          /\ files w !! new_file = None
          /\ files w' !! new_file
             = Some (File_open_clone master (display w) ft md reclen)
          /\ is_master (File_open_clone master (display w) ft md reclen) = false
          /\ File_mode (File_open_clone master (display w) ft md reclen) = md
          /\ File_filetype (File_open_clone master (display w) ft md reclen) = ft
          /\ File_reclen (File_open_clone master (display w) ft md reclen)
             = Some reclen
          /\ files w' !! m = Some master
          /\ (forall h, h <> new_file -> files w' !! h = files w !! h)
          /\ display w' = display w)
  /\ (forall c : ascii,
        py_in [c] (allowed_modes self) = true <-> In c (allowed_modes self)).
Proof.
  unfold Device_open.
  split; [intros ->; reflexivity|].
  split; [intros m -> ->; reflexivity|].
  split; [|intros c; rewrite py_in_single; apply existsb_eqb_In].
  intros m master -> -> Hm. rewrite Hm. cbn [negb].
  destruct (alloc_spec w (File_open_clone master (display w) ft md reclen))
    as (Hnew & Hin & Hother & Hd).
  destruct (File_open_clone_fields master (display w) ft md reclen)
    as (H1 & H2 & H3 & H4).
  destruct (alloc w (File_open_clone master (display w) ft md reclen))
    as [new_file w'] eqn:E. cbn [fst snd] in *.
  exists new_file, w'. repeat split; try assumption.
  rewrite Hother; [exact Hm|]. intros ->. congruence.
Qed.

(** The effect of [set_width] on the world, file by file. *)
Lemma set_width_at_spec (h : nat) (new_width : Z) (w : World D) (o : File) :
  files w !! h = Some o ->
  set_width_at h new_width w
  = Returns {| display := snd (File_set_width o (display w) new_width);
               files := <[h := fst (File_set_width o (display w) new_width)]> (files w) |}.
Proof.
  intros Hh. unfold set_width_at. rewrite Hh.
  destruct (File_set_width o (display w) new_width). reflexivity.
Qed.

Lemma File_set_width_clone (o : File) (d : D) (new_width : Z) :
  is_master o = false ->
  snd (File_set_width o d new_width) = d
  /\ is_master (fst (File_set_width o d new_width)) = false
  /\ File_width (fst (File_set_width o d new_width)) d
     = match o with Scrn _ => new_width | Kybd _ => File_width o d end.
Proof.
  destruct o as [k|s]; cbn; intros Hm.
  - unfold KYBDFile_set_width. rewrite Hm. cbn. auto.
  - unfold SCRNFile_set_width. rewrite Hm. cbn. unfold SCRNFile_width. cbn.
    rewrite ?Hm. auto.
Qed.

Lemma File_set_width_master (o : File) (d : D) (new_width : Z) :
  is_master o = true ->
  File_set_width o d new_width = (o, display_set_width d new_width).
Proof.
  destruct o as [k|s]; cbn; intros Hm.
  - unfold KYBDFile_set_width. rewrite Hm. reflexivity.
  - unfold SCRNFile_set_width. rewrite Hm. reflexivity.
Qed.

(** C9. [set_width] on a file of the screen or the keyboard device returns.
    Called on a clone it leaves the display as it is, and with it the width
    of the master file, and every other file object, and so every other
    clone's width; it sets the width the clone itself shows when that is a
    screen file.  Called on the master file it leaves every file object as
    it is and hands the new width to the display's own [set_width]. *)
Theorem set_width_clone_is_private
    (h : nat) (new_width : Z) (w : World D) (o : File) :
  files w !! h = Some o ->
  exists w',
    set_width_at h new_width w = Returns w'
    /\ (is_master o = false ->
        display w' = display w
        /\ (forall h', h' <> h ->
              files w' !! h' = files w !! h' /\ width_at h' w' = width_at h' w)
        /\ (forall s, o = Scrn s -> width_at h w' = Some new_width))
    /\ (is_master o = true ->
        display w' = display_set_width (display w) new_width
        /\ files w' = files w).
Proof.
  intros Hh. rewrite (set_width_at_spec h new_width w o Hh).
  eexists. split; [reflexivity|]. cbn [display files]. split.
  - intros Hm.
    destruct (File_set_width_clone o (display w) new_width Hm) as (Hd & _ & Hw).
    rewrite Hd. split; [reflexivity|]. split.
    + intros h' Hne. unfold width_at. cbn [display files].
      rewrite lookup_insert_ne by congruence. auto.
    + intros s ->. unfold width_at. cbn [display files].
      rewrite lookup_insert_eq. f_equal. exact Hw.
  - intros Hm. rewrite (File_set_width_master o (display w) new_width Hm).
    cbn [fst snd]. split; [reflexivity|]. apply insert_id, Hh.
Qed.

End Devices.

Lemma Device_open_spec_witness :
  (exists new_file w',
      @Device_open Z width_display
        (fst (@KYBDDevice_init Z width_display (mkWorld 80%Z ∅)))
        (bs "D") (bs "I") 128
        (snd (@KYBDDevice_init Z width_display (mkWorld 80%Z ∅)))
      = Returns (new_file, fst (@KYBDDevice_init Z width_display (mkWorld 80%Z ∅)), w')
      /\ display w' = 80%Z)
  /\ @Device_open Z width_display
       (fst (@KYBDDevice_init Z width_display (mkWorld 80%Z ∅)))
       (bs "D") (bs "O") 128
       (snd (@KYBDDevice_init Z width_display (mkWorld 80%Z ∅)))
     = Raises BAD_FILE_MODE
  /\ @Device_open Z width_display Device_init (bs "D") (bs "O") 128 (mkWorld 80%Z ∅)
     = Raises DEVICE_UNAVAILABLE.
Proof.
  split; [|split].
  - destruct (@Device_open_spec Z width_display
                (fst (@KYBDDevice_init Z width_display (mkWorld 80%Z ∅)))
                (bs "D") (bs "I") 128
                (snd (@KYBDDevice_init Z width_display (mkWorld 80%Z ∅))))
      as (_ & _ & H & _).
    destruct (H 0%nat (Kybd KYBDFile_init))
      as (new_file & w' & Hopen & _ & _ & _ & _ & _ & _ & _ & _ & Hd);
      [reflexivity | reflexivity | reflexivity |].
    exists new_file, w'. split; [exact Hopen | exact Hd].
  - destruct (@Device_open_spec Z width_display
                (fst (@KYBDDevice_init Z width_display (mkWorld 80%Z ∅)))
                (bs "D") (bs "O") 128
                (snd (@KYBDDevice_init Z width_display (mkWorld 80%Z ∅))))
      as (_ & H & _).
    apply (H 0%nat); reflexivity.
  - destruct (@Device_open_spec Z width_display Device_init
                (bs "D") (bs "O") 128 (mkWorld 80%Z ∅)) as (H & _).
    apply H. reflexivity.
Defined.

Lemma set_width_clone_is_private_witness :
  exists w',
    @set_width_at Z width_display 1 40 screen_session = Returns w'
    /\ display w' = 80%Z
    /\ @width_at Z width_display 0 w' = Some 80%Z
    /\ @width_at Z width_display 1 w' = Some 40%Z.
Proof.
  destruct (@set_width_clone_is_private Z width_display 1 40 screen_session
              (Scrn (@SCRNFile_open_clone Z width_display
                       (@SCRNFile_init Z width_display 80%Z) 80%Z
                       (bs "D") (bs "O") 128)))
    as (w' & Hset & Hclone & _); [reflexivity|].
  destruct Hclone as (Hd & Hothers & Hown); [reflexivity|].
  exists w'. split; [exact Hset|]. split; [exact Hd|]. split.
  - destruct (Hothers 0%nat) as [_ Hw]; [discriminate|]. rewrite Hw. reflexivity.
  - apply (Hown _ eq_refl).
Defined.

(** * Further properties *)

(** ** input_chars *)

Lemma readable_no_sub (s : bytes) : ~ In SUB (readable s).
Proof.
  induction s as [|a r IH]; [tauto|]. cbn.
  destruct (Ascii.eqb_spec a SUB) as [->|Hne]; [tauto|].
  intros [H|H]; [congruence | tauto].
Qed.

Lemma input_chars_loop_spec (n : nat) :
  forall (num : Z) (s : list bytes) (f : TextFile),
    (length (ahead f) < n)%nat ->
    exists r,
      r = (if (num >? -1)%Z
           then firstn (Z.to_nat num - length s) (readable (ahead f))
           else readable (ahead f))
      /\ input_chars_loop n num s f
         = (s ++ List.map (fun a => [a]) r, shifts (length r) f)
      /\ ahead (shifts (length r) f) = skipn (length r) (ahead f).
Proof.
  induction n as [|n IH]; intros num s f Hn; [lia|].
  cbn [input_chars_loop].
  destruct ((num >? -1)%Z && (num <=? Z.of_nat (length s))%Z) eqn:Hstop.
  { apply andb_true_iff in Hstop as [H1 H2]. rewrite H1.
    apply Z.leb_le in H2.
    replace (Z.to_nat num - length s)%nat with 0%nat by lia.
    exists []. cbn. rewrite app_nil_r. auto. }
  destruct (next_char f) as [a|] eqn:E.
  2:{ assert (Ha : ahead f = []) by (unfold ahead; rewrite E; reflexivity).
      exists []. simpl. rewrite app_nil_r, Ha. simpl.
      split; [destruct (num >? -1)%Z; [rewrite firstn_nil|]; reflexivity | auto]. }
  assert (Ha : ahead f = a :: unread (fhandle f))
    by (unfold ahead; rewrite E; reflexivity).
  destruct (Ascii.eqb a SUB) eqn:Hsub.
  { exists []. simpl. rewrite app_nil_r, Ha. simpl. rewrite Hsub.
    split; [destruct (num >? -1)%Z; [rewrite firstn_nil|]; reflexivity | auto]. }
  pose proof (ahead_shift f a E) as Hs.
  destruct (IH num (s ++ [[a]]) (shift f)) as (r & Hr & Hrun & Hah).
  { rewrite Hs. rewrite Ha in Hn. cbn in Hn. lia. }
  exists (a :: r). rewrite Ha. cbn [readable]. rewrite Hsub.
  rewrite Hs in Hr, Hah.
  split.
  - destruct (num >? -1)%Z eqn:Hnum.
    + cbn [andb] in Hstop. apply Z.leb_gt in Hstop.
      rewrite length_app in Hr. cbn [length] in Hr.
      replace (Z.to_nat num - length s)%nat
        with (S (Z.to_nat num - (length s + 1)))%nat by lia.
      cbn [firstn]. rewrite Hr. reflexivity.
    + rewrite Hr. reflexivity.
  - cbn [length List.map skipn shifts]. split; [|exact Hah].
    etransitivity; [exact Hrun|]. rewrite <- app_assoc. reflexivity.
Qed.

Lemma concat_singletons (r : bytes) : List.concat (List.map (fun a => [a]) r) = r.
Proof. induction r as [|a r IH]; [reflexivity|]. cbn. rewrite IH. reflexivity. Qed.

Lemma readable_prefix (s : bytes) :
  readable s = firstn (length (readable s)) s.
Proof.
  induction s as [|a r IH]; [reflexivity|]. cbn.
  destruct (Ascii.eqb a SUB); [reflexivity|]. cbn. rewrite <- IH. reflexivity.
Qed.

Lemma readable_skipn (s : bytes) :
  forall k, (k <= length (readable s))%nat ->
    readable (skipn k s) = skipn k (readable s).
Proof.
  induction s as [|a r IH]; intros k Hk.
  - destruct k; reflexivity.
  - destruct k as [|k]; [reflexivity|]. cbn in Hk |- *.
    destruct (Ascii.eqb a SUB); cbn in Hk |- *; [lia|]. apply IH. lia.
Qed.

Lemma firstn_plus {A : Type} (n m : nat) :
  forall l : list A, firstn (n + m) l = firstn n l ++ firstn m (skipn n l).
Proof.
  induction n as [|n IH]; intros l; [reflexivity|].
  destruct l as [|a l]; cbn.
  - rewrite firstn_nil. reflexivity.
  - rewrite IH. reflexivity.
Qed.

Lemma shifts_add (j k : nat) :
  forall f, shifts (j + k) f = shifts k (shifts j f).
Proof.
  induction j as [|j IH]; intros f; [reflexivity|]. cbn. apply IH.
Qed.

(** X1. [input_chars f num] reads the first [num] characters that can be
    read, all of them when [num] is negative; reading stops at the end of
    the stream and before the soft-EOF marker, which is never read.  What is
    read is exactly what is taken off the front of what the file has ahead,
    one [shift] per character. *)
Theorem input_chars_spec (f : TextFile) (num : Z) :
  fst (input_chars f num)
  = (if (num >? -1)%Z then firstn (Z.to_nat num) (readable (ahead f))
     else readable (ahead f))
  /\ snd (input_chars f num) = shifts (length (fst (input_chars f num))) f
  /\ ahead f = fst (input_chars f num) ++ ahead (snd (input_chars f num))
  /\ ~ In SUB (fst (input_chars f num)).
Proof.
  unfold input_chars.
  destruct (input_chars_loop_spec (S (pending f)) num [] f) as (r & Hr & Hrun & Hah).
  { pose proof (ahead_pending f). lia. }
  rewrite Hrun. cbn [app fst snd]. rewrite concat_singletons.
  cbn [length] in Hr. rewrite Nat.sub_0_r in Hr.
  split; [exact Hr|]. split; [reflexivity|].
  assert (Hpre : r = firstn (length r) (ahead f)).
  { rewrite Hr. destruct (num >? -1)%Z.
    - rewrite length_firstn. rewrite (readable_prefix (ahead f)) at 1.
      rewrite firstn_firstn. reflexivity.
    - apply readable_prefix. }
  split.
  - rewrite Hah. rewrite Hpre at 1. symmetry. apply firstn_skipn.
  - rewrite Hr. destruct (num >? -1)%Z; [|apply readable_no_sub].
    intros Hin. apply (readable_no_sub (ahead f)).
    rewrite <- (firstn_skipn (Z.to_nat num) (readable (ahead f))).
    apply in_or_app. left. exact Hin.
Qed.

(** X2. Reading [n] characters and then [m] more is reading [n + m] at
    once: the same characters and the same file afterwards. *)
Theorem input_chars_compose (f : TextFile) (n m : Z) :
  (0 <= n)%Z -> (0 <= m)%Z ->
  input_chars f (n + m)
  = (fst (input_chars f n) ++ fst (input_chars (snd (input_chars f n)) m),
     snd (input_chars (snd (input_chars f n)) m)).
Proof.
  intros Hn Hm.
  destruct (input_chars_spec f (n + m)) as (H1 & H2 & _).
  destruct (input_chars_spec f n) as (G1 & G2 & G3 & _).
  destruct (input_chars_spec (snd (input_chars f n)) m) as (K1 & K2 & _).
  assert (En : (n >? -1)%Z = true) by (apply Z.gtb_lt; lia).
  assert (Em : (m >? -1)%Z = true) by (apply Z.gtb_lt; lia).
  assert (Enm : (n + m >? -1)%Z = true) by (apply Z.gtb_lt; lia).
  rewrite En in G1. rewrite Em in K1. rewrite Enm in H1.
  set (R := readable (ahead f)) in *.
  set (r1 := fst (input_chars f n)) in *.
  set (f1 := snd (input_chars f n)) in *.
  set (r2 := fst (input_chars f1 m)) in *.
  assert (Hf1 : ahead f1 = skipn (length r1) (ahead f)).
  { rewrite G3. rewrite skipn_app, Nat.sub_diag, skipn_all. reflexivity. }
  assert (Hlen1 : (length r1 <= length R)%nat).
  { rewrite G1, length_firstn. lia. }
  assert (HR1 : readable (ahead f1) = skipn (length r1) R).
  { rewrite Hf1. apply readable_skipn. exact Hlen1. }
  assert (Hcat : fst (input_chars f (n + m)) = r1 ++ r2).
  { rewrite H1, K1, HR1, Z2Nat.inj_add by lia. rewrite firstn_plus.
    rewrite <- G1. f_equal.
    destruct (Nat.le_gt_cases (Z.to_nat n) (length R)) as [Hle|Hgt].
    - replace (length r1) with (Z.to_nat n); [reflexivity|].
      rewrite G1, length_firstn. lia.
    - assert (Hall : r1 = R) by (rewrite G1; apply firstn_all2; lia).
      rewrite Hall. rewrite skipn_all.
      rewrite (skipn_all2 R) by lia. rewrite firstn_nil. reflexivity. }
  rewrite (surjective_pairing (input_chars f (n + m))).
  f_equal; [exact Hcat|].
  rewrite H2, Hcat, K2, length_app, shifts_add. fold r2. f_equal. exact (eq_sym G2).
Qed.

Lemma input_chars_compose_witness :
  input_chars (open_input (bs "HELLO WORLD")) (2 + 3)
  = (bs "HELLO", snd (input_chars (snd (input_chars (open_input (bs "HELLO WORLD")) 2)) 3)).
Proof.
  rewrite (input_chars_compose (open_input (bs "HELLO WORLD")) 2 3); [|lia|lia].
  reflexivity.
Defined.

(** ** eof *)

Lemma shift_mode (f : TextFile) : mode (shift f) = mode f.
Proof. unfold shift. destruct (stream_read1 (fhandle f)). reflexivity. Qed.

Lemma shifts_mode (k : nat) : forall f, mode (shifts k f) = mode f.
Proof.
  induction k as [|k IH]; intros f; [reflexivity|]. cbn. rewrite IH. apply shift_mode.
Qed.

Lemma eof_readable (f : TextFile) :
  eof f
  = (if bytes_eqb (mode f) (bs "A") || bytes_eqb (mode f) (bs "O") then false
     else negb (nonempty (readable (ahead f)))).
Proof.
  unfold eof, ahead.
  destruct (bytes_eqb (mode f) (bs "A") || bytes_eqb (mode f) (bs "O")); [reflexivity|].
  destruct (next_char f) as [a|]; [|reflexivity].
  cbn. destruct (Ascii.eqb a SUB); reflexivity.
Qed.

(** X3. On a file that is not in mode A or O, [eof] says that nothing more
    can be read: every [input_chars] then gives the empty string and leaves
    the file as it is, and [eof] holds after all characters have been read
    with [input_chars(-1)].  In modes A and O [eof] is false even then. *)
Theorem eof_means_nothing_to_read (f : TextFile) :
  (eof f = true -> forall num, input_chars f num = ([], f))
  /\ eof (snd (input_chars f (-1)))
     = negb (bytes_eqb (mode f) (bs "A") || bytes_eqb (mode f) (bs "O"))
  /\ (eof f = false ->
      bytes_eqb (mode f) (bs "A") || bytes_eqb (mode f) (bs "O") = false ->
      exists a f', input_chars f 1 = ([a], f') /\ a <> SUB).
Proof.
  split; [|split].
  - intros He num. rewrite eof_readable in He.
    destruct (bytes_eqb (mode f) (bs "A") || bytes_eqb (mode f) (bs "O"));
      [discriminate|].
    destruct (readable (ahead f)) as [|a r] eqn:Hr; [|discriminate].
    destruct (input_chars_spec f num) as (H1 & H2 & _).
    rewrite Hr in H1.
    assert (E : fst (input_chars f num) = []).
    { rewrite H1. destruct (num >? -1)%Z; [apply firstn_nil | reflexivity]. }
    rewrite E in H2. cbn in H2.
    rewrite (surjective_pairing (input_chars f num)), E, H2. reflexivity.
  - destruct (input_chars_spec f (-1)) as (H1 & H2 & H3 & _).
    rewrite eof_readable, H2, shifts_mode.
    destruct (bytes_eqb (mode f) (bs "A") || bytes_eqb (mode f) (bs "O"));
      [reflexivity|].
    cbn [negb]. change (-1 >? -1)%Z with false in H1. cbv iota in H1.
    assert (Hah : ahead (shifts (length (fst (input_chars f (-1)))) f)
                  = skipn (length (readable (ahead f))) (ahead f)).
    { rewrite <- H2, <- H1. rewrite H3.
      rewrite skipn_app, Nat.sub_diag, skipn_all. reflexivity. }
    rewrite Hah, readable_skipn by lia. rewrite skipn_all. reflexivity.
  - intros He Hm. rewrite eof_readable, Hm in He.
    destruct (ahead f) as [|a r] eqn:Ha; [discriminate He|].
    cbn in He. destruct (Ascii.eqb_spec a SUB) as [->|Hne]; [discriminate He|].
    destruct (read_one_cons f a r Ha Hne) as [Hr _].
    exists a, (shift f). split; [exact Hr | exact Hne].
Qed.

Lemma eof_means_nothing_to_read_witness :
  input_chars (open_input (SUB :: bs "rest")) 5 = ([], open_input (SUB :: bs "rest"))
  /\ eof (snd (input_chars (open_input (bs "ab" ++ SUB :: bs "rest")) (-1))) = true.
Proof.
  split.
  - apply (eof_means_nothing_to_read (open_input (SUB :: bs "rest"))). reflexivity.
  - destruct (eof_means_nothing_to_read (open_input (bs "ab" ++ SUB :: bs "rest")))
      as (_ & H & _).
    rewrite H. reflexivity.
Defined.

(** ** read_line on a line of the stream *)

Lemma read_line_loop_run (s : bytes) :
  forall (fuel : nat) (out : list bytes) (f : TextFile) (tail : bytes),
    ahead f = s ++ tail ->
    Forall (fun a => a <> CR /\ a <> SUB) s ->
    (length out + length s < 255)%nat -> (fuel + length out = 255)%nat ->
    exists f1,
      ahead f1 = tail
      /\ read_line_loop fuel out f
         = read_line_loop (fuel - length s) (out ++ List.map (fun a => [a]) s) f1.
Proof.
  induction s as [|a s IH]; intros fuel out f tail Hah Hs Hlen Hfuel.
  - exists f. cbn. rewrite Nat.sub_0_r, app_nil_r. auto.
  - inversion Hs as [|? ? [Hcr Hsub] Hs']; subst.
    destruct fuel as [|k]; [cbn in Hlen; lia|].
    cbn [read_line_loop]. cbn [app] in Hah.
    destruct (read_one_cons f a (s ++ tail) Hah Hsub) as [-> Hr].
    assert (Hb : bytes_eqb [a] [CR] = false).
    { cbn. apply Ascii.eqb_neq in Hcr. rewrite Hcr. reflexivity. }
    cbn [nonempty negb orb]. rewrite Hb, length_app. cbn [length] in Hlen |- *.
    destruct (Nat.eqb_spec (length out + 1) 255) as [E|_]; [lia|].
    destruct (IH k (out ++ [[a]]) (shift f) tail Hr Hs') as (f1 & Hf1 & Hrun).
    + rewrite length_app. cbn. lia.
    + rewrite length_app. cbn. lia.
    + exists f1. split; [exact Hf1|].
      etransitivity; [exact Hrun|]. cbn [List.map Nat.sub].
      rewrite <- app_assoc. reflexivity.
Qed.

Lemma read_line_at_cr (f : TextFile) (s rest : bytes) :
  ahead f = s ++ CR :: rest ->
  Forall (fun a => a <> CR /\ a <> SUB) s -> (length s < 255)%nat ->
  exists f', read_line f = Some (s, Some [CR], f') /\ ahead f' = rest.
Proof.
  intros Hah Hs Hlen. unfold read_line.
  destruct (read_line_loop_run s 255 [] f (CR :: rest) Hah Hs) as (f1 & Hf1 & ->);
    [cbn; lia | reflexivity |].
  destruct (255 - length s)%nat as [|k] eqn:Ek; [lia|].
  cbn [read_line_loop app].
  assert (Hne : CR <> SUB) by discriminate.
  destruct (read_one_cons f1 CR rest Hf1 Hne) as [-> Hr].
  cbn. rewrite concat_singletons. eauto.
Qed.

Lemma read_line_at_end (f : TextFile) (s tail : bytes) :
  ahead f = s ++ tail -> readable tail = [] ->
  Forall (fun a => a <> CR /\ a <> SUB) s -> (length s < 255)%nat ->
  exists f', read_line f = Some (s, Some [], f') /\ ahead f' = tail.
Proof.
  intros Hah Htail Hs Hlen. unfold read_line.
  destruct (read_line_loop_run s 255 [] f tail Hah Hs) as (f1 & Hf1 & ->);
    [cbn; lia | reflexivity |].
  destruct (255 - length s)%nat as [|k] eqn:Ek; [lia|].
  cbn [read_line_loop app].
  assert (Hread : read_one f1 = ([], f1)).
  { destruct tail as [|a r]; [apply read_one_nil, Hf1|].
    cbn in Htail. destruct (Ascii.eqb_spec a SUB) as [->|_]; [|discriminate].
    apply (read_one_sub f1 r Hf1). }
  rewrite Hread. cbn. rewrite concat_singletons. eauto.
Qed.

Lemma read_line_at_cap (f : TextFile) (s tail : bytes) :
  ahead f = s ++ tail ->
  Forall (fun a => a <> CR /\ a <> SUB) s -> length s = 255%nat ->
  exists f',
    read_line f
    = Some (s, match tail with c :: _ => if Ascii.eqb c CR then Some [CR] else None
                          | [] => None end, f')
    /\ ahead f' = tail.
Proof.
  intros Hah Hs Hlen.
  destruct (exists_last (l := s)) as (s' & a & ->); [intros ->; discriminate|].
  rewrite length_app in Hlen. cbn in Hlen.
  apply Forall_app in Hs as [Hs' Ha]. inversion Ha as [|? ? [Hcr Hsub] _]; subst.
  rewrite <- app_assoc in Hah. cbn [app] in Hah.
  unfold read_line.
  destruct (read_line_loop_run s' 255 [] f (a :: tail) Hah Hs') as (f1 & Hf1 & ->);
    [cbn; lia | reflexivity |].
  replace (255 - length s')%nat with 1%nat by lia.
  cbn [read_line_loop app].
  destruct (read_one_cons f1 a tail Hf1 Hsub) as [-> Hr].
  assert (Hb : bytes_eqb [a] [CR] = false).
  { cbn. apply Ascii.eqb_neq in Hcr. rewrite Hcr. reflexivity. }
  cbn [nonempty negb orb]. rewrite Hb, length_app, length_map. cbn [length].
  replace (length s' + 1)%nat with 255%nat by lia. cbn [Nat.eqb].
  rewrite concat_snoc, concat_singletons.
  exists (shift f1). split; [|exact Hr]. repeat f_equal.
  unfold slot_is. destruct tail as [|c r].
  - rewrite (ahead_nil_next _ Hr). reflexivity.
  - rewrite (ahead_cons_next _ c r Hr). reflexivity.
Qed.

(** X4. A line of exactly 255 characters that a CR follows is read as two
    lines: [read_line] gives the 255 characters with the terminator CR but
    leaves that CR unread, so the next [read_line] gives the empty line. *)
Theorem read_line_full_line_then_empty (f : TextFile) (s rest : bytes) :
  ahead f = s ++ CR :: rest ->
  Forall (fun a => a <> CR /\ a <> SUB) s -> length s = 255%nat ->
  exists f1 f2,
    read_line f = Some (s, Some [CR], f1)
    /\ ahead f1 = CR :: rest
    /\ read_line f1 = Some ([], Some [CR], f2)
    /\ ahead f2 = rest.
Proof.
  intros Hah Hs Hlen.
  destruct (read_line_at_cap f s (CR :: rest) Hah Hs Hlen) as (f1 & Hr1 & Hf1).
  destruct (read_line_at_cr f1 [] rest Hf1) as (f2 & Hr2 & Hf2);
    [constructor | cbn; lia |].
  exists f1, f2. auto.
Qed.

Lemma read_line_full_line_then_empty_witness :
  exists f1 f2,
    read_line (open_input (repeat "x"%char 255 ++ CR :: bs "next"))
      = Some (repeat "x"%char 255, Some [CR], f1)
    /\ ahead f1 = CR :: bs "next"
    /\ read_line f1 = Some ([], Some [CR], f2)
    /\ ahead f2 = bs "next".
Proof.
  apply read_line_full_line_then_empty.
  - apply ahead_TextFileBase_init.
  - apply List.Forall_forall. intros a Ha. apply repeat_spec in Ha. subst a.
    split; discriminate.
  - apply repeat_length.
Defined.

(** ** write and write_line on any string *)

Lemma first_line_width_newline (s : bytes) :
  forall acc, In CR s \/ In LF s -> snd (first_line_width s acc) = true.
Proof.
  induction s as [|c s IH]; intros acc H; [cbn in H; tauto|].
  cbn [first_line_width].
  destruct (Ascii.eqb_spec c CR) as [->|Hcr]; [reflexivity|].
  destruct (Ascii.eqb_spec c LF) as [->|Hlf]; [reflexivity|].
  cbn [orb]. apply IH. destruct H as [[H|H]|[H|H]]; try congruence; auto.
Qed.

Lemma write_char_ahead (f : TextFile) (c : ascii) :
  ahead (write_char f c) = ahead f.
Proof.
  unfold write_char, ahead.
  destruct (Ascii.eqb c CR); [reflexivity|].
  destruct (32 <=? ord c)%Z; [|reflexivity].
  cbn. destruct (col f + 1 =? 257)%Z; reflexivity.
Qed.

Lemma write_chars_ahead (s : bytes) : forall f, ahead (write_chars f s) = ahead f.
Proof.
  unfold write_chars. induction s as [|c s IH]; intros f; [reflexivity|].
  cbn [fold_left]. rewrite IH. apply write_char_ahead.
Qed.

Lemma write_chars_width (s : bytes) : forall f, width (write_chars f s) = width f.
Proof.
  unfold write_chars. induction s as [|c s IH]; intros f; [reflexivity|].
  cbn [fold_left]. rewrite IH. apply write_char_width.
Qed.

Lemma write_breaks (f : TextFile) (s : bytes) (can_break : bool) :
  write f s can_break
  = Some (write_chars (if breaks f s can_break
                       then set_col (write_chars f [CR]) 1 else f) s).
Proof. apply write_unfold. Qed.

(** X5. [write] never loses or alters a character: the stream gets the
    string as it is, after at most one CR, and no CR at all when can_break
    is off, when the string holds a CR or LF, at width 255 or at column 1.
    Writing leaves the width and what the file has to read as they are. *)
Theorem write_appends (f : TextFile) (s : bytes) (can_break : bool) :
  exists f',
    write f s can_break = Some f'
    /\ written (fhandle f')
       = written (fhandle f) ++ (if breaks f s can_break then [CR] else []) ++ s
    /\ (can_break = false \/ In CR s \/ In LF s
        \/ width f = 255%Z \/ col f = 1%Z -> breaks f s can_break = false)
    /\ width f' = width f /\ ahead f' = ahead f.
Proof.
  rewrite write_breaks. eexists. split; [reflexivity|].
  rewrite write_chars_written, write_chars_width, write_chars_ahead.
  split; [|split; [|split]].
  - destruct (breaks f s can_break); [|reflexivity].
    cbn [set_col fhandle]. rewrite write_chars_written, <- app_assoc. reflexivity.
  - unfold breaks. intros [->|[H|[H|[H|H]]]].
    + reflexivity.
    + rewrite (first_line_width_newline s 0 (or_introl H)).
      apply andb_false_r.
    + rewrite (first_line_width_newline s 0 (or_intror H)).
      apply andb_false_r.
    + rewrite H. cbn. rewrite andb_false_r. reflexivity.
    + rewrite H. cbn. rewrite andb_false_r. reflexivity.
  - destruct (breaks f s can_break); [|reflexivity].
    cbn [set_col width]. apply write_chars_width.
  - destruct (breaks f s can_break); [|reflexivity].
    unfold ahead at 1. cbn [set_col next_char fhandle].
    change (ahead (write_chars f [CR]) = ahead f). apply write_chars_ahead.
Qed.

(** X6. [write_line] writes the string and one CR, and nothing before them:
    whatever the width and the column, it inserts no line break of its own;
    it leaves the file at column 1. *)
Theorem write_line_appends (f : TextFile) (s : bytes) :
  exists f',
    write_line f s = Some f'
    /\ written (fhandle f') = written (fhandle f) ++ s ++ [CR]
    /\ col f' = 1%Z /\ width f' = width f /\ ahead f' = ahead f.
Proof.
  unfold write_line.
  destruct (write_appends f (s ++ [CR]) true) as (f' & Hw & Hout & Hnb & Hwid & Hah).
  exists f'. split; [exact Hw|].
  rewrite Hnb in Hout by (right; left; apply in_or_app; right; left; reflexivity).
  split; [exact Hout|]. split; [|auto].
  rewrite write_breaks in Hw. injection Hw as <-.
  rewrite write_chars_app. unfold write_chars at 1. cbn [fold_left].
  rewrite write_char_col. reflexivity.
Qed.

(** ** The column as a count of what was written *)

Lemma has_cr_In (s : bytes) : has_cr s = true <-> In CR s.
Proof.
  unfold has_cr. rewrite existsb_exists. split.
  - intros (x & Hx & E). apply Ascii.eqb_eq in E. congruence.
  - intros H. exists CR. split; [exact H | reflexivity].
Qed.

Lemma after_last_cr_none (s : bytes) : has_cr s = false -> after_last_cr s = s.
Proof.
  destruct s as [|a r]; [reflexivity|]. unfold has_cr. cbn [existsb after_last_cr].
  intros H. apply orb_false_iff in H as [Ha Hr]. fold (has_cr r). unfold has_cr at 1.
  rewrite Hr. rewrite Ascii.eqb_sym, Ha. reflexivity.
Qed.

Lemma printable_length_cons (a : ascii) (s : bytes) :
  printable_length (a :: s)
  = ((if (32 <=? ord a)%Z then 1 else 0) + printable_length s)%Z.
Proof.
  unfold printable_length. cbn [List.filter].
  destruct (32 <=? ord a)%Z; cbn [length]; lia.
Qed.

Lemma write_chars_col (s : bytes) :
  forall f,
    (1 <= col f <= 256)%Z ->
    col (write_chars f s)
    = (1 + ((if has_cr s then 0 else col f - 1)
            + printable_length (after_last_cr s)) mod 256)%Z.
Proof.
  unfold write_chars. induction s as [|a s IH]; intros f Hr.
  - cbn. rewrite Z.add_0_r, Z.mod_small; lia.
  - cbn [fold_left]. rewrite IH by (apply write_char_col_range, Hr).
    cbn [after_last_cr]. unfold has_cr at 2. cbn [existsb]. fold (has_cr s).
    destruct (has_cr s) eqn:Hs; [rewrite orb_true_r; reflexivity|].
    rewrite orb_false_r, (after_last_cr_none s Hs), write_char_col.
    rewrite (Ascii.eqb_sym CR a).
    destruct (Ascii.eqb_spec a CR) as [->|Hne]; [reflexivity|].
    rewrite printable_length_cons. f_equal.
    destruct (32 <=? ord a)%Z; [|f_equal; lia].
    destruct (Z.eqb_spec (col f + 1) 257) as [E|E].
    + replace (col f - 1 + (1 + printable_length s))%Z
        with (printable_length s + 1 * 256)%Z by lia.
      rewrite Z.mod_add by lia. f_equal; lia.
    + f_equal; lia.
Qed.

(** X7. [col] is one more than the number of printable characters written
    since the last CR, counted modulo 256: after [write], it counts the
    printable characters of the string after its last CR, on top of where
    the column was when the string has no CR and no line break came before
    it.  LF and other control characters neither count nor reset it. *)
Theorem write_col_counts_printables (f : TextFile) (s : bytes) (can_break : bool) :
  (1 <= col f <= 256)%Z ->
  exists f',
    write f s can_break = Some f'
    /\ col f'
       = (1 + ((if has_cr s || breaks f s can_break then 0 else col f - 1)
               + printable_length (after_last_cr s)) mod 256)%Z.
Proof.
  intros Hr. rewrite write_breaks. eexists. split; [reflexivity|].
  destruct (breaks f s can_break).
  - rewrite write_chars_col by (cbn; lia). cbn [set_col col].
    rewrite orb_true_r. destruct (has_cr s); reflexivity.
  - rewrite write_chars_col by exact Hr. rewrite orb_false_r. reflexivity.
Qed.

Lemma write_col_counts_printables_witness :
  exists f',
    write (set_col open_output 200) (bs "ab" ++ [CR] ++ bs "c" ++ [LF] ++ bs "de") true
      = Some f'
    /\ col f' = 4%Z.
Proof.
  destruct (write_col_counts_printables (set_col open_output 200)
              (bs "ab" ++ [CR] ++ bs "c" ++ [LF] ++ bs "de") true)
    as (f' & Hw & Hc); [cbn; lia|].
  exists f'. split; [exact Hw|]. rewrite Hc. reflexivity.
Defined.

(** ** Lines written are the lines read *)

Lemma write_lines_written (ls : list bytes) :
  forall f,
    exists f',
      write_lines f ls = Some f'
      /\ written (fhandle f')
         = written (fhandle f) ++ List.concat (List.map (fun l => l ++ [CR]) ls).
Proof.
  induction ls as [|l ls IH]; intros f.
  - exists f. cbn. rewrite app_nil_r. auto.
  - cbn [write_lines List.map List.concat].
    destruct (write_line_appends f l) as (f1 & -> & Hout & _).
    destruct (IH f1) as (f' & Hw & Hout').
    exists f'. split; [exact Hw|]. rewrite Hout', Hout, <- !app_assoc. reflexivity.
Qed.

Lemma read_lines_back (ls : list bytes) :
  forall (f : TextFile) (rest : bytes),
    Forall (fun l => Forall (fun a => a <> CR /\ a <> SUB) l
                     /\ (length l < 255)%nat) ls ->
    ahead f = List.concat (List.map (fun l => l ++ [CR]) ls) ++ rest ->
    exists f',
      read_lines (length ls) f = Some (List.map (fun l => (l, Some [CR])) ls, f')
      /\ ahead f' = rest.
Proof.
  induction ls as [|l ls IH]; intros f rest Hls Hah.
  - exists f. cbn. auto.
  - inversion Hls as [|? ? [Hl Hlen] Hls']; subst.
    cbn [List.map List.concat] in Hah. rewrite <- !app_assoc in Hah.
    cbn [app] in Hah.
    destruct (read_line_at_cr f l _ Hah Hl Hlen) as (f1 & Hr & Hf1).
    destruct (IH f1 rest Hls' Hf1) as (f' & Hrs & Hf').
    exists f'. cbn [read_lines length List.map]. rewrite Hr, Hrs. auto.
Qed.

(** X8. Lines written with [write_line] are read back by [read_line]: when
    no line holds a CR or the soft-EOF marker and each is shorter than 255
    characters, reading the stream that a new file got gives the same lines
    in order, each with the terminator CR, and leaves nothing to read. *)
Theorem write_lines_read_lines (ls : list bytes) :
  Forall (fun l => Forall (fun a => a <> CR /\ a <> SUB) l
                   /\ (length l < 255)%nat) ls ->
  exists f' f'',
    write_lines open_output ls = Some f'
    /\ read_lines (length ls) (open_input (written (fhandle f')))
       = Some (List.map (fun l => (l, Some [CR])) ls, f'')
    /\ ahead f'' = [].
Proof.
  intros Hls.
  destruct (write_lines_written ls open_output) as (f' & Hw & Hout).
  cbn [open_output TextFileBase_init fhandle written app] in Hout.
  destruct (read_lines_back ls (open_input (written (fhandle f'))) [] Hls)
    as (f'' & Hr & Hf'').
  { unfold open_input. rewrite ahead_TextFileBase_init, Hout, app_nil_r.
    reflexivity. }
  exists f', f''. auto.
Qed.

Lemma write_lines_read_lines_witness :
  exists f' f'',
    write_lines open_output [bs "10 PRINT 1"; []; bs "20, END"] = Some f'
    /\ read_lines 3 (open_input (written (fhandle f')))
       = Some ([(bs "10 PRINT 1", Some [CR]); ([], Some [CR]);
                (bs "20, END", Some [CR])], f'')
    /\ ahead f'' = [].
Proof.
  apply (write_lines_read_lines [bs "10 PRINT 1"; []; bs "20, END"]).
  repeat constructor; try discriminate; cbn; lia.
Defined.

(** ** Invariants of the scan of input_entry *)

Section ScanInvariant.
Variables (t : typechar) (quoted : bool).
Variable P : bytes -> bytes -> bytes -> Prop.
Variable Q : bytes -> Prop.

Hypothesis Hexit : forall c word blanks, P c word blanks -> Q word.
Hypothesis Hlf :
  forall word blanks c2,
    quoted = false -> P [LF] word blanks -> (length c2 <= 1)%nat ->
    P c2 word blanks.
Hypothesis Hstep :
  forall a word blanks,
    P [a] word blanks ->
    (quoted = false -> a <> COMMA /\ a <> CR /\ a <> LF) ->
    (quoted = true -> a <> QUOTE) ->
    Q (fst (field_update t quoted [a] word blanks))
    /\ ((length (fst (field_update t quoted [a] word blanks))
         + length (snd (field_update t quoted [a] word blanks)) < 255)%nat ->
        forall c1, (length c1 <= 1)%nat ->
          P c1 (fst (field_update t quoted [a] word blanks))
               (snd (field_update t quoted [a] word blanks))).

Lemma input_entry_loop_invariant (fuel : nat) :
  forall (c word blanks : bytes) (f : TextFile) (w c' : bytes) (f' : TextFile),
    (length c <= 1)%nat -> P c word blanks ->
    input_entry_loop fuel t quoted c word blanks f = Returns (w, c', f') ->
    Q w.
Proof.
  induction fuel as [|k IH]; intros c word blanks f w c' f' Hc HP; [discriminate|].
  cbn [input_entry_loop].
  destruct (nonempty c && negb ((negb (is_STR t) && py_in c (soft_sep f))
                                || (py_in c [COMMA; CR] && negb quoted))) eqn:Hcond;
    [|intros [= <- _ _]; eapply Hexit, HP].
  destruct (bytes_eqb c [QUOTE] && quoted) eqn:Hq;
    [intros [= <- _ _]; eapply Hexit, HP|].
  destruct (bytes_eqb c [LF] && negb quoted) eqn:Hl.
  - apply andb_true_iff in Hl as [Hl Hnq]. apply bytes_eqb_eq in Hl. subst c.
    apply negb_true_iff in Hnq.
    destruct (read_one f) as [c1 f1] eqn:E1.
    pose proof (read_one_short _ _ _ E1) as Hc1.
    destruct (bytes_eqb c1 [CR]).
    + destruct (read_one f1) as [c2 f2] eqn:E2.
      pose proof (read_one_short _ _ _ E2) as Hc2.
      apply IH; [exact Hc2 | apply Hlf; assumption].
    + apply IH; [exact Hc1 | apply Hlf; assumption].
  - destruct c as [|a [|b c0]]; [discriminate Hcond | | cbn in Hc; lia].
    assert (Hunq : quoted = false -> a <> COMMA /\ a <> CR /\ a <> LF).
    { intros ->. apply andb_true_iff in Hcond as [_ Hcond].
      apply negb_true_iff, orb_false_iff in Hcond as [_ Hsep].
      rewrite andb_true_r, py_in_single in Hsep. cbn in Hsep.
      rewrite andb_true_r in Hl. cbn in Hl. rewrite andb_true_r in Hl.
      apply orb_false_iff in Hsep as [H1 H2]. rewrite orb_false_r in H2.
      apply Ascii.eqb_neq in H1, H2, Hl. auto. }
    assert (Hquo : quoted = true -> a <> QUOTE).
    { intros ->. rewrite andb_true_r in Hq. cbn in Hq. rewrite andb_true_r in Hq.
      apply Ascii.eqb_neq in Hq. exact Hq. }
    destruct (Hstep a word blanks HP Hunq Hquo) as [HQ Hnext].
    change (if bytes_eqb [a] [NUL] then (word, blanks)
            else if py_in [a] whitespace_input && negb quoted
                 then if is_STR t then (word, blanks ++ [a]) else (word, blanks)
                 else (word ++ blanks ++ [a], []))
      with (field_update t quoted [a] word blanks).
    destruct (field_update t quoted [a] word blanks) as [word' blanks'].
    cbn [fst snd] in *.
    destruct (Nat.leb_spec 255 (length word' + length blanks')) as [Hcap|Hcap];
      [intros [= <- _ _]; exact HQ|].
    change (input_chars f 1) with (read_one f).
    assert (E : (if negb quoted then read_one f else read_one f) = read_one f)
      by (destruct quoted; reflexivity).
    rewrite E. clear E.
    destruct (read_one f) as [c1 f1] eqn:E1.
    pose proof (read_one_short _ _ _ E1) as Hc1.
    apply IH; [exact Hc1 | apply Hnext; assumption].
Qed.

End ScanInvariant.

(** What a returning [input_entry] went through: its start, then its scan,
    which gave the word. *)
Lemma input_entry_returns_inv (f : TextFile) (t : typechar) (allow_past_end : bool)
    (w c : bytes) (f' : TextFile) :
  input_entry f t allow_past_end = Returns (w, c, f') ->
  exists h c0 f1,
    input_entry_head f t = Returns h
    /\ (length (h_c h) <= 1)%nat
    /\ h_first h = peek (snd (leading_run (ahead f) []))
    /\ (h_quoted h = false -> h_c h = h_first h)
    /\ input_entry_loop (S (S (pending (h_file h)))) t (h_quoted h) (h_c h)
         [] [] (h_file h) = Returns (w, c0, f1)
    /\ input_entry_trail (h_quoted h) c0 f1 = Returns (c, f').
Proof.
  intros Hret.
  destruct (input_entry_head_spec f t) as (h & Hh & _ & Hf & _ & Hc & _).
  destruct (input_entry_outcome f t allow_past_end h Hh)
    as [[_ Hr]|[_ (w0 & c0 & f1 & c1 & f2 & Hloop & Htrail & Hr)]]; [congruence|].
  rewrite Hr in Hret. injection Hret as <- <- <-.
  exists h, c0, f1. split; [exact Hh|]. split.
  - rewrite Hc. destruct (h_quoted h); [|rewrite Hf]; apply peek_short.
  - split; [exact Hf|]. split; [|auto]. intros Hq. rewrite Hc, Hq. reflexivity.
Qed.

(** X9. The word of the buffered-source [input_entry] is never longer than
    255 characters: a longer field is cut, not refused. *)
Theorem input_entry_word_bound (f : TextFile) (t : typechar) (allow_past_end : bool)
    (w c : bytes) (f' : TextFile) :
  input_entry f t allow_past_end = Returns (w, c, f') -> (length w <= 255)%nat.
Proof.
  intros Hret.
  destruct (input_entry_returns_inv f t allow_past_end w c f' Hret)
    as (h & c0 & f1 & _ & Hc & _ & _ & Hloop & _).
  eapply (input_entry_loop_invariant t (h_quoted h)
            (fun _ word blanks => (length word + length blanks < 255)%nat)
            (fun w => (length w <= 255)%nat));
    [| | | exact Hc | | exact Hloop].
  - intros; lia.
  - intros; assumption.
  - intros a word blanks HP _ _. unfold field_update.
    destruct (bytes_eqb [a] [NUL]); [cbn; split; [lia | auto]|].
    destruct (py_in [a] whitespace_input && negb (h_quoted h)).
    + destruct (is_STR t); cbn; split; try lia; auto.
    + cbn [fst snd]. rewrite !length_app. cbn. split; [lia | auto].
  - cbn. lia.
Qed.

Lemma input_entry_word_bound_witness :
  exists c f',
    input_entry (open_input (repeat "x"%char 300)) STR false
      = Returns (repeat "x"%char 255, c, f')
    /\ (length (repeat "x"%char 255) <= 255)%nat.
Proof.
  eexists. eexists. split; [vm_compute; reflexivity|].
  eapply (input_entry_word_bound (open_input (repeat "x"%char 300)) STR false).
  vm_compute. reflexivity.
Defined.

Lemma leading_run_head_bounded (n : nat) :
  forall (s lastc : bytes) (a : ascii) (r : bytes),
    (length s <= n)%nat ->
    snd (leading_run s lastc) = a :: r -> is_whitespace_input a = false.
Proof.
  induction n as [|n IH]; intros s lastc a r Hn.
  - destruct s; [discriminate | cbn in Hn; lia].
  - destruct s as [|x s]; [discriminate|]. cbn [leading_run]. cbn in Hn.
    destruct (is_whitespace_input x) eqn:Hx; [|intros [= <- _]; exact Hx].
    destruct s as [|y s']; [discriminate|]. cbn in Hn.
    destruct (Ascii.eqb x LF && Ascii.eqb y CR).
    + apply IH. lia.
    + apply IH. cbn. lia.
Qed.

Lemma leading_run_head (s lastc : bytes) (a : ascii) (r : bytes) :
  snd (leading_run s lastc) = a :: r -> is_whitespace_input a = false.
Proof. apply (leading_run_head_bounded (length s)). lia. Qed.

Lemma is_whitespace_input_cases (a : ascii) :
  is_whitespace_input a = true -> a = SPACE \/ a = NUL \/ a = LF.
Proof.
  unfold is_whitespace_input. cbn. rewrite orb_false_r.
  intros H. apply orb_true_iff in H as [H|H]; [|apply orb_true_iff in H as [H|H]];
    apply Ascii.eqb_eq in H; auto.
Qed.

Lemma scan_content_unquoted (fuel : nat) (t : typechar) (c : bytes) (f : TextFile)
    (w c' : bytes) (f' : TextFile) :
  (length c <= 1)%nat ->
  input_entry_loop fuel t false c [] [] f = Returns (w, c', f') ->
  Forall no_separator w
  /\ (is_STR t = false -> Forall (fun a => is_whitespace_input a = false) w).
Proof.
  intros Hc Hloop.
  eapply (input_entry_loop_invariant t false
            (fun _ word blanks =>
               Forall no_separator word /\ Forall (fun a => a = SPACE) blanks
               /\ (is_STR t = false ->
                   Forall (fun a => is_whitespace_input a = false) word
                   /\ blanks = []))
            (fun w => Forall no_separator w
                      /\ (is_STR t = false ->
                          Forall (fun a => is_whitespace_input a = false) w)));
    [| | | exact Hc | | exact Hloop].
  - intros _ word blanks (H1 & _ & H3). split; [exact H1|]. intros Ht. apply H3, Ht.
  - intros; assumption.
  - intros a word blanks (Hw & Hb & Hn) Hunq _.
    destruct (Hunq eq_refl) as (Hcomma & Hcr & Hlf).
    unfold field_update. rewrite andb_true_r, py_in_single.
    fold (is_whitespace_input a).
    destruct (bytes_eqb [a] [NUL]) eqn:Hnul.
    { cbn [fst snd]. split; [split; [exact Hw | intros Ht; apply Hn, Ht]|].
      intros _ c1 _. auto. }
    assert (Hnn : a <> NUL).
    { intros ->. discriminate Hnul. }
    destruct (is_whitespace_input a) eqn:Hws.
    + assert (Ha : a = SPACE).
      { destruct (is_whitespace_input_cases a Hws) as [H|[H|H]]; congruence. }
      destruct (is_STR t) eqn:Ht; cbn [fst snd].
      * split; [split; [exact Hw | discriminate]|].
        intros _ c1 _. split; [exact Hw|]. split; [|discriminate].
        apply Forall_app. split; [exact Hb | constructor; [exact Ha | constructor]].
      * split; [split; [exact Hw | intros _; apply Hn; reflexivity]|].
        intros _ c1 _. auto.
    + cbn [fst snd].
      assert (Hnew : Forall no_separator (word ++ blanks ++ [a])).
      { apply Forall_app. split; [exact Hw|]. apply Forall_app. split.
        - eapply List.Forall_impl; [|exact Hb]. intros x ->.
          repeat split; discriminate.
        - constructor; [|constructor]. repeat split; assumption. }
      assert (Hnum : is_STR t = false ->
                Forall (fun x => is_whitespace_input x = false) (word ++ blanks ++ [a])).
      { intros Ht. destruct (Hn Ht) as [Hww ->]. cbn [app].
        apply Forall_app. split; [exact Hww | constructor; [exact Hws | constructor]]. }
      split; [split; assumption|].
      intros _ c1 _. split; [exact Hnew|]. split; [constructor|].
      intros Ht. split; [apply Hnum, Ht | reflexivity].
  - split; [constructor|]. split; [constructor|]. intros _. split; constructor.
Qed.

Lemma trimmed_snoc (word blanks : bytes) (a : ascii) :
  trimmed word -> (word = [] -> blanks = []) ->
  is_whitespace_input a = false ->
  trimmed (word ++ blanks ++ [a]).
Proof.
  intros Hw Hb Ha. destruct word as [|x w0].
  - rewrite (Hb eq_refl). cbn. auto.
  - cbn [app trimmed] in *. destruct Hw as [Hx _]. split; [exact Hx|].
    change (x :: w0 ++ blanks ++ [a]) with ((x :: w0) ++ blanks ++ [a]).
    rewrite app_assoc, last_last. exact Ha.
Qed.

Lemma scan_trimmed_unquoted (fuel : nat) (t : typechar) (c : bytes) (f : TextFile)
    (w c' : bytes) (f' : TextFile) :
  (length c <= 1)%nat ->
  (forall a, c = [a] -> is_whitespace_input a = false) ->
  input_entry_loop fuel t false c [] [] f = Returns (w, c', f') ->
  trimmed w.
Proof.
  intros Hc Hc0 Hloop.
  eapply (input_entry_loop_invariant t false
            (fun c word blanks =>
               trimmed word
               /\ (word = [] ->
                   blanks = []
                   /\ forall a, c = [a] -> is_whitespace_input a = false))
            trimmed);
    [| | | exact Hc | | exact Hloop].
  - intros _ word blanks [H _]. exact H.
  - intros word blanks c2 _ [Hw Hb] _. split; [exact Hw|].
    intros E. destruct (Hb E) as [_ Hlfws]. discriminate (Hlfws LF eq_refl).
  - intros a word blanks [Hw Hb] _ _.
    unfold field_update. rewrite andb_true_r, py_in_single.
    fold (is_whitespace_input a).
    assert (Hne : is_whitespace_input a = true -> word <> []).
    { intros Hws E. destruct (Hb E) as [_ Ha'].
      rewrite (Ha' a eq_refl) in Hws. discriminate. }
    destruct (bytes_eqb [a] [NUL]) eqn:Hnul.
    { apply bytes_eqb_eq in Hnul. injection Hnul as ->. cbn [fst snd].
      split; [exact Hw|]. intros _ c1 _. split; [exact Hw|].
      intros E. exfalso. apply (Hne eq_refl E). }
    destruct (is_whitespace_input a) eqn:Hws.
    + destruct (is_STR t); cbn [fst snd]; (split; [exact Hw|]);
        intros _ c1 _; (split; [exact Hw|]);
        intros E; exfalso; apply (Hne eq_refl E).
    + cbn [fst snd].
      assert (Hnew : trimmed (word ++ blanks ++ [a])).
      { apply trimmed_snoc; [exact Hw | intros E; apply Hb, E | exact Hws]. }
      split; [exact Hnew|]. intros _ c1 _. split; [exact Hnew|].
      intros E. exfalso. apply (f_equal (@length ascii)) in E.
      rewrite !length_app in E. cbn in E. lia.
  - split; [exact I|]. intros _. split; [reflexivity | exact Hc0].
Qed.

(** X10. A field that [input_entry] reads without quoting holds no comma,
    CR, LF or NUL, and has no whitespace-for-input at either end: leading
    whitespace is skipped and trailing blanks are never added.  A numeric
    field holds no whitespace at all. *)
Theorem unquoted_field_content (f : TextFile) (t : typechar) (allow_past_end : bool)
    (h : entry_head) (w c : bytes) (f' : TextFile) :
  input_entry_head f t = Returns h -> h_quoted h = false ->
  input_entry f t allow_past_end = Returns (w, c, f') ->
  Forall no_separator w /\ trimmed w
  /\ (t <> STR -> Forall (fun a => is_whitespace_input a = false) w).
Proof.
  intros Hh Hq Hret.
  destruct (input_entry_returns_inv f t allow_past_end w c f' Hret)
    as (h' & c0 & f1 & Hh' & Hc & Hf & Hcf & Hloop & _).
  rewrite Hh in Hh'. injection Hh' as <-.
  rewrite Hq in Hloop.
  destruct (scan_content_unquoted _ t _ _ _ _ _ Hc Hloop) as [H1 H2].
  split; [exact H1|]. split.
  - eapply scan_trimmed_unquoted; [exact Hc | | exact Hloop].
    intros a Ha. rewrite (Hcf Hq), Hf in Ha.
    destruct (snd (leading_run (ahead f) [])) as [|x r] eqn:Hrun; [discriminate Ha|].
    cbn in Ha. destruct (Ascii.eqb x SUB); [discriminate Ha|].
    injection Ha as <-. eapply leading_run_head. exact Hrun.
  - intros Ht. apply H2. destruct t; [contradiction | | |]; reflexivity.
Qed.

Lemma unquoted_field_content_witness :
  exists f',
    input_entry (open_input (bs "   New  York  ," ++ [LF] ++ bs "x")) STR false
      = Returns (bs "New  York", [COMMA], f')
    /\ Forall no_separator (bs "New  York") /\ trimmed (bs "New  York").
Proof.
  eexists. split; [vm_compute; reflexivity|].
  edestruct (unquoted_field_content
               (open_input (bs "   New  York  ," ++ [LF] ++ bs "x")) STR false)
    as (H1 & H2 & _);
    [vm_compute; reflexivity | reflexivity | vm_compute; reflexivity |].
  split; [exact H1 | exact H2].
Defined.

(** X11. A field that [input_entry] reads in quoted mode holds no double
    quote: the first quote after the opening one ends it. *)
Theorem quoted_field_content (f : TextFile) (t : typechar) (allow_past_end : bool)
    (h : entry_head) (w c : bytes) (f' : TextFile) :
  input_entry_head f t = Returns h -> h_quoted h = true ->
  input_entry f t allow_past_end = Returns (w, c, f') ->
  ~ In QUOTE w.
Proof.
  intros Hh Hq Hret.
  destruct (input_entry_returns_inv f t allow_past_end w c f' Hret)
    as (h' & c0 & f1 & Hh' & Hc & _ & _ & Hloop & _).
  rewrite Hh in Hh'. injection Hh' as <-.
  rewrite Hq in Hloop.
  eapply (input_entry_loop_invariant t true
            (fun _ word blanks => ~ In QUOTE word /\ blanks = [])
            (fun w => ~ In QUOTE w));
    [| | | exact Hc | | exact Hloop].
  - intros _ word blanks [H _]. exact H.
  - intros word blanks c2 Hfalse. discriminate Hfalse.
  - intros a word blanks [Hw ->] _ Hquo. specialize (Hquo eq_refl).
    unfold field_update. rewrite andb_false_r.
    destruct (bytes_eqb [a] [NUL]); cbn [fst snd app].
    + split; [exact Hw | auto].
    + assert (Hnew : ~ In QUOTE (word ++ [a])).
      { apply not_in_app; [exact Hw|]. intros [E|[]]. congruence. }
      split; [exact Hnew | auto].
  - split; [tauto | reflexivity].
Qed.

Lemma quoted_field_content_witness :
  exists f',
    input_entry (open_input ([QUOTE] ++ bs "a, b" ++ [QUOTE] ++ bs "c" ++ [QUOTE]))
      STR false
      = Returns (bs "a, b", [QUOTE], f')
    /\ ~ In QUOTE (bs "a, b").
Proof.
  eexists. split; [vm_compute; reflexivity|].
  eapply (quoted_field_content
            (open_input ([QUOTE] ++ bs "a, b" ++ [QUOTE] ++ bs "c" ++ [QUOTE]))
            STR false);
    [vm_compute; reflexivity | reflexivity | vm_compute; reflexivity].
Defined.

(** ** Quoted fields come back as they were written *)

Lemma skip_spaces_loop_run (k : nat) :
  forall (fuel : nat) (c : bytes) (f : TextFile) (x : ascii) (r : bytes),
    ahead f = repeat SPACE k ++ x :: r -> x <> SPACE ->
    (length (ahead f) < fuel)%nat ->
    exists l f1, _skip_whitespace_loop fuel [SPACE] c f = Returns (l, f1)
                 /\ ahead f1 = x :: r.
Proof.
  induction k as [|k IH]; intros fuel c f x r Hah Hx Hfuel;
    (destruct fuel as [|n]; [lia|]); cbn [_skip_whitespace_loop];
    cbn [repeat app] in Hah; rewrite (ahead_cons_next f _ _ Hah);
    cbn [slot_bytes nonempty andb]; rewrite py_in_single; cbn [existsb];
    rewrite orb_false_r.
  - apply Ascii.eqb_neq in Hx. rewrite Hx. eauto.
  - rewrite Ascii.eqb_refl.
    assert (Hns : SPACE <> SUB) by discriminate.
    destruct (read_one_cons f SPACE _ Hah Hns) as [-> Hr].
    change (bytes_eqb [SPACE] [LF]) with false. cbn [andb].
    apply (IH n [SPACE] (shift f) x r Hr Hx).
    rewrite Hr. rewrite Hah in Hfuel. cbn in Hfuel. lia.
Qed.

Lemma input_entry_loop_at_quote (k : nat) (word blanks : bytes) (f : TextFile) :
  input_entry_loop (S k) STR true [QUOTE] word blanks f
  = Returns (word, [QUOTE], f).
Proof. reflexivity. Qed.

Lemma scan_quoted (s : bytes) :
  forall (fuel : nat) (a : ascii) (word : bytes) (f : TextFile) (tail : bytes),
    ahead f = s ++ QUOTE :: tail ->
    Forall quotable (a :: s) ->
    (length word + length (a :: s) < 255)%nat ->
    (length s + 3 <= fuel)%nat ->
    exists f',
      input_entry_loop fuel STR true [a] word [] f
        = Returns (word ++ a :: s, [QUOTE], f')
      /\ ahead f' = tail.
Proof.
  induction s as [|b s IH]; intros fuel a word f tail Hah Hs Hlen Hfuel;
    (destruct fuel as [|k]; [lia|]);
    inversion Hs as [|? ? (Hq & Hn & Hsub) Hs']; subst;
    cbn [input_entry_loop is_STR negb andb orb nonempty];
    rewrite !andb_false_r; cbn [negb orb andb];
    rewrite andb_true_r;
    (assert (Eq : bytes_eqb [a] [QUOTE] = false)
       by (cbn; apply Ascii.eqb_neq in Hq; rewrite Hq; reflexivity));
    (assert (En : bytes_eqb [a] [NUL] = false)
       by (cbn; apply Ascii.eqb_neq in Hn; rewrite Hn; reflexivity));
    rewrite Eq, En; cbn [app length] in Hlen |- *; rewrite Nat.add_0_r;
    (destruct (Nat.leb_spec 255 (length (word ++ [a]))) as [Hcap|_];
       [rewrite length_app in Hcap; cbn in Hcap; lia|]);
    change (input_chars f 1) with (read_one f); cbn [app] in Hah.
  - assert (Hqs : QUOTE <> SUB) by discriminate.
    destruct (read_one_cons f QUOTE tail Hah Hqs) as [-> Hr].
    destruct k as [|k']; [cbn in Hfuel; lia|].
    rewrite input_entry_loop_at_quote. exists (shift f). auto.
  - inversion Hs' as [|? ? (Hq' & Hn' & Hsub') _]; subst.
    destruct (read_one_cons f b (s ++ QUOTE :: tail) Hah Hsub') as [-> Hr].
    destruct (IH k b (word ++ [a]) (shift f) tail Hr Hs') as (f' & Hrun & Hf').
    + rewrite length_app. cbn in *. lia.
    + cbn in Hfuel. lia.
    + exists f'. rewrite Hrun, <- app_assoc. auto.
Qed.

(** X12. A string written between double quotes is read back as it is,
    commas, spaces and line ends included: when it holds no double quote,
    NUL or soft-EOF marker and is shorter than 255 characters,
    [input_entry] for a string gives it whole, skips the spaces after the
    closing quote, and consumes the comma or CR that follows as the
    terminator. *)
Theorem quoted_field_round_trip
    (f : TextFile) (s : bytes) (k : nat) (sep : ascii) (rest : bytes)
    (allow_past_end : bool) :
  ahead f = QUOTE :: s ++ QUOTE :: repeat SPACE k ++ sep :: rest ->
  sep = COMMA \/ sep = CR ->
  Forall quotable s -> (length s < 255)%nat ->
  exists f',
    input_entry f STR allow_past_end = Returns (s, [sep], f')
    /\ ahead f' = rest.
Proof.
  intros Hah Hsep Hs Hlen.
  destruct (input_entry_head_spec f STR) as (h & Hh & Hl & Hf & Hq & Hc & Hhf & _).
  rewrite Hah in Hl, Hf, Hc, Hhf. cbn [leading_run is_whitespace_input] in Hl, Hf, Hc, Hhf.
  change (is_whitespace_input QUOTE) with false in Hl, Hf, Hc, Hhf.
  cbn [fst snd peek advance] in Hl, Hf, Hc, Hhf.
  change (Ascii.eqb QUOTE SUB) with false in Hf, Hc, Hhf. cbv iota in Hf, Hc, Hhf.
  rewrite Hl, Hf in Hq. cbn in Hq. rewrite Hq in Hc, Hhf.
  assert (Hsepx : sep <> SPACE /\ sep <> SUB
                  /\ py_in [sep] [COMMA; CR] = true).
  { destruct Hsep as [->| ->]; repeat split; discriminate. }
  destruct Hsepx as (Hnsp & Hnsub & Hin).
  assert (Htrail : forall f1,
            ahead f1 = repeat SPACE k ++ sep :: rest ->
            exists f', input_entry_trail true [QUOTE] f1 = Returns ([sep], f')
                       /\ ahead f' = rest).
  { intros f1 Hf1. unfold input_entry_trail.
    change (nonempty [QUOTE] && py_in [QUOTE] whitespace_input
            || true && bytes_eqb [QUOTE] [QUOTE]) with true. cbv iota.
    unfold _skip_whitespace.
    destruct (skip_spaces_loop_run k (S (pending f1)) [] f1 sep rest Hf1 Hnsp)
      as (l & f2 & -> & Hf2).
    { pose proof (ahead_pending f1). lia. }
    cbn [bind]. rewrite (ahead_cons_next f2 sep rest Hf2).
    cbn [slot_bytes]. rewrite Hin.
    destruct (read_one_cons f2 sep rest Hf2 Hnsub) as [-> Hr]. eauto. }
  unfold input_entry. rewrite Hh. cbn [bind]. rewrite Hq.
  destruct s as [|a s1].
  - cbn [app peek advance] in Hc, Hhf.
    change (Ascii.eqb QUOTE SUB) with false in Hc, Hhf. cbv iota in Hc, Hhf.
    rewrite Hc. cbn [nonempty negb andb].
    rewrite input_entry_loop_at_quote. cbn [bind].
    destruct (Htrail (h_file h) Hhf) as (f' & -> & Hf'). cbn [bind]. eauto.
  - inversion Hs as [|? ? (Hqa & Hna & Hsa) Hs1]; subst.
    cbn [app peek advance] in Hc, Hhf.
    apply Ascii.eqb_neq in Hsa. rewrite Hsa in Hc, Hhf.
    rewrite Hc. cbn [nonempty negb andb].
    destruct (scan_quoted s1 (S (S (pending (h_file h)))) a [] (h_file h)
                (repeat SPACE k ++ sep :: rest) Hhf Hs) as (f1 & Hloop & Hf1).
    + cbn in Hlen |- *. lia.
    + pose proof (ahead_pending (h_file h)) as Hp. rewrite Hhf in Hp.
      rewrite length_app in Hp. cbn in Hp. lia.
    + rewrite Hloop. cbn [bind app].
      destruct (Htrail f1 Hf1) as (f' & -> & Hf'). cbn [bind]. eauto.
Qed.

Lemma quoted_field_round_trip_witness :
  exists f',
    input_entry
      (open_input ([QUOTE] ++ bs "Smith, J." ++ [CR; LF] ++ bs " Jr"
                   ++ [QUOTE] ++ bs "  ,42"))
      STR false
      = Returns (bs "Smith, J." ++ [CR; LF] ++ bs " Jr", [COMMA], f')
    /\ ahead f' = bs "42".
Proof.
  apply (quoted_field_round_trip _ (bs "Smith, J." ++ [CR; LF] ++ bs " Jr") 2
           COMMA (bs "42") false).
  - reflexivity.
  - left. reflexivity.
  - repeat constructor; discriminate.
  - cbn. lia.
Defined.

(** X13. Reading past the end with permission gives the empty field: when
    nothing can be read after the leading whitespace, and allow_past_end is
    set or the last whitespace character skipped was LF or NUL,
    [input_entry] returns the empty word with the empty terminator. *)
Theorem input_entry_past_end_empty
    (f : TextFile) (t : typechar) (allow_past_end : bool) :
  peek (snd (leading_run (ahead f) [])) = [] ->
  allow_past_end = true
  \/ fst (leading_run (ahead f) []) = [LF]
  \/ fst (leading_run (ahead f) []) = [NUL] ->
  exists f',
    input_entry f t allow_past_end = Returns ([], [], f')
    /\ ahead f' = snd (leading_run (ahead f) []).
Proof.
  intros Hend Hok.
  destruct (input_entry_head_spec f t) as (h & Hh & Hl & Hf & Hq & Hc & Hhf & _).
  rewrite Hend in Hf. rewrite Hf in Hq. cbn in Hq. rewrite Hq in Hc, Hhf.
  unfold input_entry. rewrite Hh. cbn [bind]. rewrite Hc, Hf, Hq, Hl.
  assert (Hcond : negb (nonempty []) && negb allow_past_end
                  && not_lf_nul (fst (leading_run (ahead f) [])) = false).
  { destruct Hok as [->|[->| ->]]; [reflexivity | |];
      cbn; rewrite andb_false_r; reflexivity. }
  rewrite Hcond. cbn [input_entry_loop nonempty andb bind].
  unfold input_entry_trail. cbn [nonempty andb orb bind].
  exists (h_file h). split; [reflexivity|]. rewrite Hhf.
  destruct (peek_advance_cases (snd (leading_run (ahead f) [])))
    as [[_ Ha]|(x & Hp & _)]; [exact Ha | congruence].
Qed.

Lemma input_entry_past_end_empty_witness :
  exists f',
    input_entry (open_input (bs "  " ++ [LF; CR])) INT false = Returns ([], [], f')
    /\ ahead f' = [].
Proof.
  apply (input_entry_past_end_empty (open_input (bs "  " ++ [LF; CR])) INT false).
  - reflexivity.
  - right. left. reflexivity.
Defined.

(** ** The character kept for the next field (live source) *)

Section RealtimePushback.
Context `{EA : EAscii}.

Lemma rt_finish_last (again : rt_state -> outcome rt_state) (t : typechar)
    (s : rt_state) (word blanks : bytes) (trail : bool) (s' : rt_state) :
  (forall s1 s2, again s1 = Returns s2 ->
     rt_last s2 = rt_last s1
     \/ (rt_last s2 = rt_c s2 /\ rt_c s2 <> []
         /\ py_in (rt_c s2) whitespace_input = false
         /\ rt_c s2 <> [COMMA] /\ rt_c s2 <> [CR])) ->
  rt_finish again t s word blanks trail = Returns s' ->
  rt_last s' = rt_last s
  \/ (rt_last s' = rt_c s' /\ rt_c s' <> []
      /\ py_in (rt_c s') whitespace_input = false
      /\ rt_c s' <> [COMMA] /\ rt_c s' <> [CR]).
Proof.
  intros Hagain. unfold rt_finish.
  destruct (255 <=? length word + length blanks)%nat;
    [intros [= <-]; left; reflexivity|].
  destruct (KYBDFile_read_one_cases (rt_kbd s))
    as [->|(c1 & k1 & -> & Hc1 & _)]; cbn [bind]; [discriminate|].
  destruct (trail && negb (py_in c1 whitespace_input)) eqn:Htr.
  - intros [= <-]. cbn [rt_last rt_c].
    apply andb_true_iff in Htr as [_ Hws]. apply negb_true_iff in Hws.
    destruct (bytes_eqb c1 [COMMA] || bytes_eqb c1 [CR]) eqn:Hsep;
      cbn [negb]; [left; reflexivity|].
    apply orb_false_iff in Hsep as [H1 H2].
    apply bytes_eqb_neq in H1, H2. right. auto.
  - intros Hrun. destruct (Hagain _ _ Hrun) as [E|E]; [left; exact E | right; exact E].
Qed.

Lemma input_entry_realtime_loop_last (fuel : nat) :
  forall (t : typechar) (quoted : bool) (s s' : rt_state),
    input_entry_realtime_loop fuel t quoted s = Returns s' ->
    rt_last s' = rt_last s
    \/ (rt_last s' = rt_c s' /\ rt_c s' <> []
        /\ py_in (rt_c s') whitespace_input = false
        /\ rt_c s' <> [COMMA] /\ rt_c s' <> [CR]).
Proof.
  induction fuel as [|k IH]; intros t quoted s s'; [discriminate|].
  cbn [input_entry_realtime_loop].
  pose proof (fun w b tr => rt_finish_last (input_entry_realtime_loop k t quoted)
                t s w b tr s' (IH t quoted)) as Hfin.
  destruct (nonempty (rt_c s)
            && negb (py_in (rt_c s) [COMMA; CR] && negb quoted));
    [|intros [= <-]; left; reflexivity].
  destruct (bytes_eqb (rt_c s) [QUOTE] && quoted); [apply Hfin|].
  destruct (bytes_eqb (rt_c s) [LF] && negb quoted).
  - destruct (KYBDFile_read_one_cases (rt_kbd s))
      as [->|(c1 & k1 & -> & _)]; cbn [bind]; [discriminate|].
    destruct (bytes_eqb c1 [CR]).
    + destruct (KYBDFile_read_one_cases k1)
        as [->|(c2 & k2 & -> & _)]; cbn [bind]; [discriminate|].
      intros Hrun. apply IH in Hrun. exact Hrun.
    + cbn [bind]. intros Hrun. apply IH in Hrun. exact Hrun.
  - destruct (bytes_eqb (rt_c s) [NUL]); [apply Hfin|].
    destruct (py_in (rt_c s) whitespace_input && negb quoted);
      [destruct (is_STR t)|]; apply Hfin.
Qed.

(** X14. After [input_entry_realtime] the file keeps a character for the
    next field only if that character is the terminator just returned, and
    then it is neither empty, nor whitespace for INPUT, nor a comma or CR;
    otherwise it keeps none. *)
Theorem realtime_keeps_terminator
    (self : KYBDFile) (kbd : Keyboard) (t : typechar) (allow_past_end : bool)
    (w c : bytes) (self' : KYBDFile) (kbd' : Keyboard) :
  input_entry_realtime self kbd t allow_past_end = Returns (w, c, self', kbd') ->
  _input_last self' = []
  \/ (_input_last self' = c /\ c <> []
      /\ py_in c whitespace_input = false /\ c <> [COMMA] /\ c <> [CR]).
Proof.
  unfold input_entry_realtime.
  assert (Hgo : forall (c1 : bytes) (kbd2 : Keyboard) (q : bool),
            (if negb (nonempty c1) && negb allow_past_end
             then Raises INPUT_PAST_END
             else bind (input_entry_realtime_loop (S (S (length kbd2))) t q
                          {| rt_c := c1; rt_word := []; rt_blanks := [];
                             rt_trail := false; rt_last := []; rt_kbd := kbd2 |})
                    (fun s => Returns (rt_word s, rt_c s,
                       {| k_text := k_text self; _input_last := rt_last s;
                          k_is_master := k_is_master self;
                          k_reclen := k_reclen self |}, rt_kbd s)))
            = Returns (w, c, self', kbd') ->
            _input_last self' = []
            \/ (_input_last self' = c /\ c <> []
                /\ py_in c whitespace_input = false /\ c <> [COMMA] /\ c <> [CR])).
  { intros c1 kbd2 q.
    destruct (negb (nonempty c1) && negb allow_past_end); [discriminate|].
    destruct (input_entry_realtime_loop (S (S (length kbd2))) t q _)
      as [s'| | |] eqn:Hloop; cbn [bind]; try discriminate.
    intros [= <- <- <- <-]. cbn [_input_last].
    apply input_entry_realtime_loop_last in Hloop. exact Hloop. }
  destruct (nonempty (_input_last self)) eqn:Hlast; cbn [bind].
  - destruct (bytes_eqb (_input_last self) [QUOTE] && is_STR t); cbn [bind].
    + destruct (KYBDFile_read_one_cases kbd) as [->|(c1 & k1 & -> & _)];
        cbn [bind]; [discriminate | apply Hgo].
    + apply Hgo.
  - assert (E : _input_last self = [])
      by (destruct (_input_last self); [reflexivity | discriminate]).
    rewrite E.
    destruct (KYBDFile_read_one_cases kbd) as [->|(c0 & k1 & -> & _)];
      cbn [bind]; [discriminate|].
    destruct (bytes_eqb c0 [QUOTE] && is_STR t); cbn [bind].
    + destruct (KYBDFile_read_one_cases k1) as [->|(c1 & k2 & -> & _)];
        cbn [bind]; [discriminate | apply Hgo].
    + apply Hgo.
Qed.

(** X15. The kept character is read again first: a file that keeps a
    character behaves as one that keeps none on a keyboard that delivers
    this character next (for a character that the replace table leaves as
    it is). *)
Theorem realtime_kept_character_is_reread
    (self : KYBDFile) (kbd : Keyboard) (c : bytes)
    (t : typechar) (allow_past_end : bool) :
  c <> [] -> dict_get _input_replace c c = c ->
  input_entry_realtime (with_input_last self c) kbd t allow_past_end
  = input_entry_realtime (with_input_last self []) ([c] :: kbd) t allow_past_end.
Proof.
  intros Hc Hrep. unfold input_entry_realtime.
  cbn [with_input_last _input_last k_text k_is_master k_reclen nonempty].
  assert (Hne : nonempty c = true) by (destruct c; [contradiction | reflexivity]).
  rewrite Hne. cbn [KYBDFile_read_one]. unfold delivered.
  cbn [List.map List.concat]. rewrite Hrep, app_nil_r.
  assert (Hlen : (length c <? 1)%nat = false).
  { destruct c; [contradiction|]. reflexivity. }
  rewrite Hlen. reflexivity.
Qed.

End RealtimePushback.

Lemma realtime_keeps_terminator_witness :
  exists self' kbd',
    @input_entry_realtime ibm_eascii KYBDFile_init
      (keys ([QUOTE] ++ bs "ab" ++ [QUOTE] ++ bs "  x")) STR false
      = Returns (bs "ab  ", bs "x", self', kbd')
    /\ _input_last self' = bs "x".
Proof.
  eexists. eexists. split; [vm_compute; reflexivity|].
  edestruct (@realtime_keeps_terminator ibm_eascii KYBDFile_init
               (keys ([QUOTE] ++ bs "ab" ++ [QUOTE] ++ bs "  x")) STR false)
    as [E|(E & _)]; [vm_compute; reflexivity | |]; reflexivity.
Defined.

Lemma realtime_kept_character_is_reread_witness :
  @input_entry_realtime ibm_eascii (with_input_last KYBDFile_init (bs "x"))
    (keys (bs "yz" ++ [CR])) STR false
  = @input_entry_realtime ibm_eascii (with_input_last KYBDFile_init [])
      (keys (bs "xyz" ++ [CR])) STR false.
Proof.
  apply (@realtime_kept_character_is_reread ibm_eascii KYBDFile_init
           (keys (bs "yz" ++ [CR])) (bs "x") STR false).
  - discriminate.
  - reflexivity.
Defined.

(** ** KYBDFile.input_chars *)

Section KybdInputChars.
Context `{EA : EAscii}.

Lemma input_char_of_short (c : bytes) : (length (input_char_of c) <= 1)%nat.
Proof.
  unfold input_char_of. destruct (dict_has _input_replace c); [cbn; lia|].
  destruct (Nat.eqb_spec (length c) 1) as [E|_]; [lia | cbn; lia].
Qed.

Lemma input_chars_of_batch_short (batch : list bytes) :
  (length (List.concat (List.map input_char_of batch)) <= length batch)%nat.
Proof.
  induction batch as [|c batch IH]; [cbn; lia|].
  cbn [List.map List.concat length]. rewrite length_app.
  pose proof (input_char_of_short c). lia.
Qed.

Lemma KYBDFile_input_chars_loop_spec (kbd : Keyboard) :
  forall (num : Z) (chars r : bytes) (kbd' : Keyboard),
    KYBDFile_input_chars_loop kbd num chars = Returns (r, kbd') ->
    (exists consumed,
        kbd = consumed ++ kbd'
        /\ r = chars ++ List.concat (List.map input_char_of (List.concat consumed)))
    /\ ((num <= Z.of_nat (length chars))%Z -> r = chars /\ kbd' = kbd)
    /\ (num <= Z.of_nat (length r))%Z
    /\ ((Z.of_nat (length chars) <= num)%Z -> delivers_as_asked kbd num chars ->
        Z.of_nat (length r) = num).
Proof.
  induction kbd as [|batch rest IH]; intros num chars r kbd'.
  - cbn [KYBDFile_input_chars_loop].
    destruct (Z.ltb_spec (Z.of_nat (length chars)) num) as [Hlt|Hge];
      [discriminate|].
    intros [= <- <-]. split; [exists []; cbn; rewrite app_nil_r; auto|].
    split; [auto|]. split; [exact Hge | lia].
  - cbn [KYBDFile_input_chars_loop].
    destruct (Z.ltb_spec (Z.of_nat (length chars)) num) as [Hlt|Hge].
    + intros Hrun.
      destruct (IH num _ r kbd' Hrun) as ((consumed & Hk & Hr) & _ & Hmin & Hexact).
      split.
      { exists (batch :: consumed). cbn [app List.concat]. rewrite Hk.
        split; [reflexivity|]. rewrite Hr, List.map_app, concat_app, app_assoc.
        reflexivity. }
      split; [lia|]. split; [exact Hmin|].
      intros _ Hask. cbn [delivers_as_asked] in Hask.
      destruct (Hask Hlt) as [Hb Hrest]. apply Hexact; [|exact Hrest].
      rewrite length_app. pose proof (input_chars_of_batch_short batch). lia.
    + intros [= <- <-]. split; [exists []; cbn; rewrite app_nil_r; auto|].
      split; [auto|]. split; [exact Hge | lia].
Qed.

(** X16. [KYBDFile.input_chars(num)] gives, code by code of what the
    keyboard delivered, NUL for a code of the replace table, the byte for any
    other code of one byte, and nothing for any other code.  It returns at
    least [num] characters and, on a keyboard that delivers no more codes
    than it is asked for, exactly [num]; for [num] <= 0 it reads nothing. *)
Theorem KYBDFile_input_chars_spec (kbd : Keyboard) (num : Z)
    (r : bytes) (kbd' : Keyboard) :
  KYBDFile_input_chars kbd num = Returns (r, kbd') ->
  (exists consumed,
      kbd = consumed ++ kbd'
      /\ r = List.concat (List.map input_char_of (List.concat consumed)))
  /\ ((num <= 0)%Z -> r = [] /\ kbd' = kbd)
  /\ (num <= Z.of_nat (length r))%Z
  /\ ((0 <= num)%Z -> delivers_as_asked kbd num [] -> Z.of_nat (length r) = num).
Proof.
  intros Hrun. apply KYBDFile_input_chars_loop_spec in Hrun. exact Hrun.
Qed.

End KybdInputChars.

Lemma KYBDFile_input_chars_spec_witness :
  @KYBDFile_input_chars ibm_eascii
    [[bs "A"; [NUL; "059"%char]; [NUL; "016"%char]]; [bs "B"]; [bs "C"]] 3
  = Returns (bs "A" ++ [NUL] ++ bs "B", [[bs "C"]])
  /\ Z.of_nat (length (bs "A" ++ [NUL] ++ bs "B")) = 3%Z.
Proof.
  split; [reflexivity|].
  destruct (@KYBDFile_input_chars_spec ibm_eascii
              [[bs "A"; [NUL; "059"%char]; [NUL; "016"%char]]; [bs "B"]; [bs "C"]] 3
              (bs "A" ++ [NUL] ++ bs "B") [[bs "C"]] eq_refl) as (_ & _ & _ & H).
  apply H; [lia|]. cbn. repeat split; lia.
Defined.

(** ** parse_protocol_string *)

Lemma split1_spec (s : ustring) :
  (~ In COLON s /\ split1 COLON s = [s])
  \/ (exists p v, ~ In COLON p /\ s = p ++ COLON :: v /\ split1 COLON s = [p; v]).
Proof.
  induction s as [|a r IH]; [left; split; [tauto | reflexivity]|].
  cbn [split1]. destruct (N.eqb_spec a COLON) as [->|Hne].
  - right. exists [], r. split; [tauto|]. split; reflexivity.
  - destruct IH as [[Hn ->]|(p & v & Hp & -> & ->)].
    + left. split; [|reflexivity]. intros [H|H]; [congruence | tauto].
    + right. exists (a :: p), v. split; [|split; reflexivity].
      intros [H|H]; [congruence | tauto].
Qed.

(** X17. [parse_protocol_string] cuts its argument at the first colon: with
    no colon there is no protocol and the value is the argument whole; with
    one, the protocol is what comes before the first colon, in upper case,
    and the value is all that comes after it, later colons included.  The
    empty argument and None give no protocol and the empty value. *)
Theorem parse_protocol_string_spec (uupper : ustring -> ustring) (arg : ustring) :
  parse_protocol_string uupper None = (None, [])
  /\ ((~ In COLON arg /\ parse_protocol_string uupper (Some arg) = (None, arg))
      \/ (exists p v,
            ~ In COLON p /\ arg = p ++ COLON :: v
            /\ parse_protocol_string uupper (Some arg) = (Some (uupper p), v))).
Proof.
  split; [reflexivity|].
  destruct arg as [|a r]; [left; split; [tauto | reflexivity]|].
  unfold parse_protocol_string.
  destruct (split1_spec (a :: r)) as [[Hn ->]|(p & v & Hp & E & ->)].
  - left. split; [exact Hn | reflexivity].
  - right. exists p, v. split; [exact Hp|]. split; [exact E|].
    cbn. rewrite app_nil_r. reflexivity.
Qed.

(** ** The magic bytes *)

Lemma dict_lookup_three (k1 v1 k2 v2 k3 v3 k v : bytes) :
  k1 <> k2 -> k1 <> k3 -> k2 <> k3 ->
  (dict_lookup [(k1, v1); (k2, v2); (k3, v3)] k = Some v
   <-> (k = k1 /\ v = v1) \/ (k = k2 /\ v = v2) \/ (k = k3 /\ v = v3)).
Proof.
  intros H12 H13 H23. cbn [dict_lookup].
  destruct (bytes_eqb k3 k) eqn:E3; destruct (bytes_eqb k2 k) eqn:E2;
    destruct (bytes_eqb k1 k) eqn:E1;
    repeat match goal with
    | E : bytes_eqb _ _ = true |- _ => apply bytes_eqb_eq in E
    | E : bytes_eqb _ _ = false |- _ => apply bytes_eqb_neq in E
    end;
    (split;
     [ intros H; try discriminate H; injection H as <-; subst; auto
     | intros [[? ?]|[[? ?]|[? ?]]]; subst; congruence ]).
Qed.

(** X18. The two tables of magic bytes are inverse to each other: a file
    type has the magic byte [m] in [TYPE_TO_MAGIC] exactly when [m] has
    that file type in [MAGIC_TO_TYPE]. *)
Theorem magic_tables_inverse (t m : bytes) :
  dict_lookup TYPE_TO_MAGIC t = Some m <-> dict_lookup MAGIC_TO_TYPE m = Some t.
Proof.
  unfold TYPE_TO_MAGIC, MAGIC_TO_TYPE.
  rewrite !dict_lookup_three by discriminate. tauto.
Qed.

(** ** The null device *)

(** X19. A file opened on the null device, in any mode, has nothing to
    read: [input_chars] and [read_line] give the empty string and leave
    the file as it is, and [input_entry] raises INPUT_PAST_END, or returns
    the empty field when reading past the end is allowed.  It starts at
    column 1 with width 255. *)
Theorem NullDevice_open_reads_nothing (ftype md : bytes) :
  ahead (NullDevice_open ftype md) = []
  /\ (forall num, input_chars (NullDevice_open ftype md) num
                  = ([], NullDevice_open ftype md))
  /\ read_line (NullDevice_open ftype md)
     = Some ([], Some [], NullDevice_open ftype md)
  /\ (forall t, input_entry (NullDevice_open ftype md) t false
                = Raises INPUT_PAST_END)
  /\ (forall t, input_entry (NullDevice_open ftype md) t true
                = Returns ([], [], NullDevice_open ftype md))
  /\ col (NullDevice_open ftype md) = 1%Z
  /\ width (NullDevice_open ftype md) = 255%Z.
Proof.
  unfold NullDevice_open, TextFileBase_init, nullstream.
  destruct (py_in (upper md) (bs "IR") && negb (nonempty (slot_bytes None)));
    cbn [stream_read1 unread].
  all: split; [reflexivity|].
  all: split; [intros num; unfold input_chars; cbn;
               match goal with |- context [if ?b then _ else _] => destruct b end;
               reflexivity|].
  all: split; [reflexivity|].
  all: split; [intros t; destruct t; reflexivity|].
  all: split; [intros t; destruct t; reflexivity|].
  all: split; reflexivity.
Qed.

(** ** The screen file *)

Lemma chars_written_app (l1 l2 : list screen_call) :
  chars_written (l1 ++ l2) = chars_written l1 ++ chars_written l2.
Proof.
  induction l1 as [|[c b|b] l1 IH]; cbn; [reflexivity | f_equal; exact IH | exact IH].
Qed.

Section ScreenWrite.
Context {D : Type} {HD : Display D} {HS : Screen D}.

Lemma scrn_inv_master (self : SCRNFile) (d : D) (st : scrn_state D) :
  scrn_inv self d st -> s_is_master (st_file st) = s_is_master self.
Proof. intros (Hf & _). rewrite <- Hf. reflexivity. Qed.

Lemma scrn_break_inv (self : SCRNFile) (d : D) (st : scrn_state D) :
  scrn_inv self d st -> scrn_inv self d (scrn_break st).
Proof.
  intros Hi. pose proof (scrn_inv_master self d st Hi) as Hm.
  destruct Hi as (Hf & Hl & Hd). unfold scrn_break, scrn_inv.
  cbn [st_file st_display st_log]. split; [|split].
  - exact Hf.
  - apply List.Forall_app. split; [exact Hl|].
    constructor; [exact Hm | constructor].
  - rewrite fold_left_app, <- Hd. reflexivity.
Qed.

Lemma scrn_write_char_inv (cwidth : Z) (self : SCRNFile) (d : D)
    (st : scrn_state D) (c : ascii) :
  scrn_inv self d st -> scrn_inv self d (scrn_write_char cwidth st c).
Proof.
  intros Hi. unfold scrn_write_char.
  match goal with |- context [if ?b then scrn_break st else st] =>
    assert (H1 : scrn_inv self d (if b then scrn_break st else st))
      by (destruct b; [apply scrn_break_inv|]; exact Hi);
    generalize dependent (if b then scrn_break st else st)
  end.
  intros st1 Hi1. pose proof (scrn_inv_master self d st1 Hi1) as Hm.
  destruct Hi1 as (Hf & Hl & Hd).
  destruct ((SCRNFile_col (st_file st1) (st_display st1) <=? cwidth)%Z
            || (SCRNFile_width (st_file st1) (st_display st1) <=? cwidth)%Z);
    unfold scrn_inv; cbn [st_file st_display st_log].
  - split; [|split].
    + destruct (Ascii.eqb c LF || Ascii.eqb c CR); exact Hf.
    + apply List.Forall_app. split; [exact Hl|].
      constructor; [exact Hm | constructor].
    + rewrite fold_left_app, <- Hd. reflexivity.
  - split; [|split; assumption].
    destruct (Ascii.eqb c LF || Ascii.eqb c CR); exact Hf.
Qed.

Lemma scrn_write_chars_inv (cwidth : Z) (self : SCRNFile) (d : D) (s : bytes) :
  forall st, scrn_inv self d st ->
             scrn_inv self d (fold_left (scrn_write_char cwidth) s st).
Proof.
  induction s as [|c s IH]; intros st Hi; cbn [fold_left]; [exact Hi|].
  apply IH, scrn_write_char_inv, Hi.
Qed.

Lemma SCRNFile_write_start_inv (self : SCRNFile) (d : D) (s : bytes) (cb : bool) :
  scrn_inv self d (SCRNFile_write_start self d s cb).
Proof.
  unfold SCRNFile_write_start.
  destruct (scrn_first_line_width s 0) as [s_width newline].
  match goal with |- context [scrn_break ?st0] =>
    assert (H0 : scrn_inv self d st0)
  end.
  { unfold scrn_inv; cbn [st_file st_display st_log].
    split; [destruct self; reflexivity|]. split; [constructor | reflexivity]. }
  match goal with |- scrn_inv _ _ (if ?b then _ else _) => destruct b end;
    [apply scrn_break_inv|]; exact H0.
Qed.

Lemma SCRNFile_write_inv (self : SCRNFile) (d : D) (s : bytes) (cb : bool) :
  scrn_inv self d (SCRNFile_write self d s cb).
Proof.
  unfold SCRNFile_write. apply scrn_write_chars_inv, SCRNFile_write_start_inv.
Qed.

(** X20. Echo follows the master flag.  Every call that [SCRNFile.write]
    and [SCRNFile.write_line] make on the screen carries the file's
    [_is_master] as [do_echo]: what is written to a clone is never echoed,
    what is written to the master always is.  The screen is touched through
    these calls only, and of the file nothing but [_col] changes. *)
Theorem SCRNFile_write_echo (self : SCRNFile) (d : D) (s : bytes) (can_break : bool) :
  (List.Forall (fun e => call_echo e = s_is_master self)
     (st_log (SCRNFile_write self d s can_break))
   /\ st_display (SCRNFile_write self d s can_break)
      = fold_left do_call (st_log (SCRNFile_write self d s can_break)) d
   /\ set__col (st_file (SCRNFile_write self d s can_break)) (_col self) = self)
  /\ (List.Forall (fun e => call_echo e = s_is_master self)
        (st_log (SCRNFile_write_line self d s))
      /\ st_display (SCRNFile_write_line self d s)
         = fold_left do_call (st_log (SCRNFile_write_line self d s)) d
      /\ set__col (st_file (SCRNFile_write_line self d s)) (_col self) = self
      /\ List.last (st_log (SCRNFile_write_line self d s)) (Write NUL false)
         = WriteLine (s_is_master self)).
Proof.
  split.
  - destruct (SCRNFile_write_inv self d s can_break) as (Hf & Hl & Hd). auto.
  - pose proof (SCRNFile_write_inv self d s true) as Hi.
    pose proof (scrn_inv_master _ _ _ Hi) as Hm.
    destruct Hi as (Hf & Hl & Hd).
    unfold SCRNFile_write_line. cbn [st_file st_display st_log].
    split; [|split; [|split]].
    + apply List.Forall_app. split; [exact Hl|].
      constructor; [exact Hm | constructor].
    + rewrite fold_left_app, <- Hd. reflexivity.
    + exact Hf.
    + rewrite last_last. f_equal. exact Hm.
Qed.

(** The second loop on a clone no wider than the screen: every character
    is handed to the screen, and the column ends within the width. *)
Lemma scrn_write_chars_clone (cwidth w : Z) (s : bytes) :
  (w <= cwidth)%Z ->
  forall st,
    s_is_master (st_file st) = false -> _width (st_file st) = w ->
    let st' := fold_left (scrn_write_char cwidth) s st in
    s_is_master (st_file st') = false /\ _width (st_file st') = w
    /\ chars_written (st_log st') = chars_written (st_log st) ++ s
    /\ ((1 <= w)%Z -> (1 <= _col (st_file st))%Z -> s <> [] ->
        (1 <= _col (st_file st') <= w + 1)%Z)
    /\ ((1 <= w)%Z -> (1 <= _col (st_file st) <= w + 1)%Z ->
        (1 <= _col (st_file st') <= w + 1)%Z).
Proof.
  intros Hw. induction s as [|c s IH]; intros st Hm Hwd; cbn [fold_left].
  - cbn zeta. rewrite app_nil_r. repeat split; try assumption; try tauto; lia.
  - set (st1 := scrn_write_char cwidth st c).
    assert (H1 : s_is_master (st_file st1) = false /\ _width (st_file st1) = w
                 /\ chars_written (st_log st1) = chars_written (st_log st) ++ [c]
                 /\ ((1 <= w)%Z -> (1 <= _col (st_file st))%Z ->
                     (1 <= _col (st_file st1) <= w + 1)%Z)).
    { subst st1. unfold scrn_write_char, SCRNFile_width, SCRNFile_col.
      rewrite Hm, Hwd.
      assert (Hle : (w <=? cwidth)%Z = true) by (apply Z.leb_le; exact Hw).
      rewrite Hle. cbn [andb].
      destruct (_col (st_file st) >? w)%Z eqn:Hgt.
      - unfold scrn_break.
        cbn [st_file st_display st_log set__col s_is_master _width _col].
        rewrite Hm, Hwd, Hle, orb_true_r.
        cbn [st_file st_display st_log].
        destruct (Ascii.eqb c LF || Ascii.eqb c CR);
          cbn [set__col s_is_master _width _col];
          (split; [exact Hm|]); (split; [exact Hwd|]);
          (split; [rewrite !chars_written_app; cbn [chars_written];
                   rewrite app_nil_r; reflexivity|]);
          intros Hw1 _; lia.
      - rewrite Hm, Hwd, Hle, orb_true_r.
        cbn [st_file st_display st_log].
        rewrite Z.gtb_ltb in Hgt. apply Z.ltb_ge in Hgt.
        destruct (Ascii.eqb c LF || Ascii.eqb c CR);
          cbn [set__col s_is_master _width _col];
          (split; [exact Hm|]); (split; [exact Hwd|]);
          (split; [rewrite chars_written_app; reflexivity|]);
          intros Hw1 Hc; lia. }
    destruct H1 as (Hm1 & Hwd1 & Hcw1 & Hcol1).
    destruct (IH st1 Hm1 Hwd1) as (Hm' & Hwd' & Hcw' & _ & Hcol').
    cbn zeta. split; [exact Hm'|]. split; [exact Hwd'|].
    split; [rewrite Hcw', Hcw1, <- app_assoc; reflexivity|].
    split.
    + intros Hw1 Hc _. apply Hcol'; [exact Hw1|]. apply Hcol1; assumption.
    + intros Hw1 Hc. apply Hcol'; [exact Hw1|]. apply Hcol1; [exact Hw1 | lia].
Qed.

Lemma SCRNFile_write_start_cases (self : SCRNFile) (d : D) (s : bytes) (cb : bool) :
  let c0 := if screen_overflow d then (screen_current_col d + 1)%Z
            else screen_current_col d in
  SCRNFile_write_start self d s cb
  = {| st_file := set__col self c0; st_display := d; st_log := [] |}
  \/ SCRNFile_write_start self d s cb
     = {| st_file := set__col self 1;
          st_display := screen_write_line d (s_is_master self);
          st_log := [WriteLine (s_is_master self)] |}.
Proof.
  cbn zeta. unfold SCRNFile_write_start.
  destruct (scrn_first_line_width s 0) as [s_width newline].
  match goal with |- context [if ?b then _ else _] => destruct b end;
    [right | left]; reflexivity.
Qed.

Lemma scrn_write_clone_chars
    (self : SCRNFile) (d : D) (s : bytes) (can_break : bool) :
  s_is_master self = false ->
  (_width self <= screen_mode_width d)%Z ->
  (_width self <= screen_mode_width (screen_write_line d false))%Z ->
  chars_written (st_log (SCRNFile_write self d s can_break)) = s.
Proof.
  intros Hm Hw1 Hw2. unfold SCRNFile_write.
  destruct (SCRNFile_write_start_cases self d s can_break) as [E|E];
    rewrite E; cbn [st_display]; rewrite ?Hm.
  - destruct (scrn_write_chars_clone (screen_mode_width d) (_width self) s Hw1
                {| st_file := set__col self
                     (if screen_overflow d then (screen_current_col d + 1)%Z
                      else screen_current_col d);
                   st_display := d; st_log := [] |} Hm eq_refl)
      as (_ & _ & Hc & _).
    exact Hc.
  - destruct (scrn_write_chars_clone
                (screen_mode_width (screen_write_line d false)) (_width self) s Hw2
                {| st_file := set__col self 1;
                   st_display := screen_write_line d false;
                   st_log := [WriteLine false] |} Hm eq_refl)
      as (_ & _ & Hc & _).
    exact Hc.
Qed.

(** X21. A clone no wider than the screen loses no character.  When the
    width of a clone is at most the width of the screen, before and after a
    line break, [SCRNFile.write] hands every character of the string to the
    screen, in order; the line breaks it adds come between them. *)
Theorem SCRNFile_write_clone_writes_all
    (self : SCRNFile) (d : D) (s : bytes) (can_break : bool) :
  s_is_master self = false ->
  (_width self <= screen_mode_width d)%Z ->
  (_width self <= screen_mode_width (screen_write_line d false))%Z ->
  chars_written (st_log (SCRNFile_write self d s can_break)) = s.
Proof. apply scrn_write_clone_chars. Qed.

(** X22. The column of a clone stays within its width.  After a clone of
    width at least 1 and at most the width of the screen has written a
    string that is not empty, with the cursor at column 1 or beyond, its
    column lies between 1 and its width plus 1. *)
Theorem SCRNFile_write_clone_col_in_range
    (self : SCRNFile) (d : D) (s : bytes) (can_break : bool) :
  s_is_master self = false ->
  (1 <= _width self)%Z ->
  (_width self <= screen_mode_width d)%Z ->
  (_width self <= screen_mode_width (screen_write_line d false))%Z ->
  (1 <= screen_current_col d)%Z ->
  s <> [] ->
  (1 <= _col (st_file (SCRNFile_write self d s can_break)) <= _width self + 1)%Z.
Proof.
  intros Hm H1 Hw1 Hw2 Hc Hs. unfold SCRNFile_write.
  destruct (SCRNFile_write_start_cases self d s can_break) as [E|E];
    rewrite E; cbn [st_display]; rewrite ?Hm.
  - destruct (scrn_write_chars_clone (screen_mode_width d) (_width self) s Hw1
                {| st_file := set__col self
                     (if screen_overflow d then (screen_current_col d + 1)%Z
                      else screen_current_col d);
                   st_display := d; st_log := [] |} Hm eq_refl)
      as (_ & _ & _ & Hcol & _).
    apply Hcol; [exact H1 | | exact Hs].
    cbn. destruct (screen_overflow d); lia.
  - destruct (scrn_write_chars_clone
                (screen_mode_width (screen_write_line d false)) (_width self) s Hw2
                {| st_file := set__col self 1;
                   st_display := screen_write_line d false;
                   st_log := [WriteLine false] |} Hm eq_refl)
      as (_ & _ & _ & Hcol & _).
    apply Hcol; [exact H1 | cbn; lia | exact Hs].
Qed.

Lemma dict_get_no_magic (ftype : bytes) :
  ftype <> bs "B" -> ftype <> bs "P" -> ftype <> bs "M" ->
  dict_get TYPE_TO_MAGIC ftype [] = [].
Proof.
  intros HB HP HM. unfold TYPE_TO_MAGIC. cbn [dict_get].
  destruct (bytes_eqb (bs "B") ftype) eqn:E1;
    [apply bytes_eqb_eq in E1; congruence|].
  destruct (bytes_eqb (bs "P") ftype) eqn:E2;
    [apply bytes_eqb_eq in E2; congruence|].
  destruct (bytes_eqb (bs "M") ftype) eqn:E3;
    [apply bytes_eqb_eq in E3; congruence|].
  reflexivity.
Qed.

(** Writing the empty string while the cursor is on the screen: a new
    clone makes no call. *)
Lemma SCRNFile_write_empty_clone (self : SCRNFile) (d : D) :
  s_is_master self = false ->
  _width self = screen_mode_width d ->
  (screen_current_col d <= screen_mode_width d)%Z ->
  st_log (SCRNFile_write self d [] true) = []
  /\ st_display (SCRNFile_write self d [] true) = d.
Proof.
  intros Hm Hw Hc. unfold SCRNFile_write, SCRNFile_write_start.
  cbn [scrn_first_line_width]. unfold SCRNFile_width, SCRNFile_col.
  cbn [set__col s_is_master _width _col]. rewrite Hm, Hw.
  assert (E : ((if screen_overflow d then (screen_current_col d + 1)%Z
                else screen_current_col d) - 1 + 0 >? screen_mode_width d)%Z
              = false).
  { rewrite Z.gtb_ltb. apply Z.ltb_ge. destruct (screen_overflow d); lia. }
  rewrite E, andb_false_r. cbn [andb negb fold_left st_log st_display]. split; reflexivity.
Qed.

(** X23. [SCRNDevice.open] on a device whose master file is a screen file.
    It raises as [Device.open] does, before anything is written.  Else it
    returns a new clone with the file type, mode and record length asked
    for and the width of the screen, under a number no object had, and
    leaves every other object as it is.  Every call it makes on the screen
    is unechoed, and the display changes through these calls only.  When a
    line break does not make the screen narrower, the characters written
    are the magic byte of the file type, or none for a type without one;
    for such a type, with the cursor on the screen, no call is made at
    all. *)
Theorem SCRNDevice_open_spec
    (self : Device) (ftype md : bytes) (reclen : Z) (w : World D) :
  (device_file self = None ->
   SCRNDevice_open self ftype md reclen w = Raises DEVICE_UNAVAILABLE)
  /\ (forall m,
        device_file self = Some m -> py_in md (allowed_modes self) = false ->
        SCRNDevice_open self ftype md reclen w = Raises BAD_FILE_MODE)
  /\ (forall m master,
        device_file self = Some m -> py_in md (allowed_modes self) = true ->
        files w !! m = Some (Scrn master) ->
        exists new_file sf w' log,
          SCRNDevice_open self ftype md reclen w
          = Returns (new_file, self, w', log)
          /\ files w !! new_file = None
          /\ files w' = <[new_file := Scrn sf]> (files w)
          /\ s_is_master sf = false
          /\ s_filetype sf = ftype
          /\ s_mode sf = md
          /\ s_reclen sf = Some reclen
          /\ _width sf = screen_mode_width (display w)
          /\ List.Forall (fun e => call_echo e = false) log
          /\ display w' = fold_left do_call log (display w)
          /\ ((screen_mode_width (display w)
               <= screen_mode_width (screen_write_line (display w) false))%Z ->
              chars_written log = dict_get TYPE_TO_MAGIC ftype [])
          /\ (ftype <> bs "B" -> ftype <> bs "P" -> ftype <> bs "M" ->
              (screen_current_col (display w) <= screen_mode_width (display w))%Z ->
              log = [] /\ display w' = display w)).
Proof.
  unfold SCRNDevice_open, Device_open.
  split; [intros ->; reflexivity|].
  split; [intros m -> ->; reflexivity|].
  intros m master -> -> Hm. rewrite Hm. cbn [negb File_open_clone].
  set (clone := SCRNFile_open_clone master (display w) ftype md reclen).
  destruct (alloc_spec w (Scrn clone)) as (Hnew & _).
  unfold alloc in *. cbn [fst snd bind files display] in *.
  rewrite lookup_insert_eq.
  set (magic := dict_get TYPE_TO_MAGIC ftype []).
  pose proof (SCRNFile_write_inv clone (display w) magic true) as Hi.
  destruct Hi as (Hf & Hl & Hd).
  exists (fresh (dom (files w))),
         (st_file (SCRNFile_write clone (display w) magic true)).
  eexists. eexists. split; [reflexivity|]. cbn [files display].
  split; [exact Hnew|].
  split; [apply insert_insert_eq|].
  split; [exact (f_equal s_is_master Hf)|].
  split; [exact (f_equal s_filetype Hf)|].
  split; [exact (f_equal s_mode Hf)|].
  split; [exact (f_equal s_reclen Hf)|].
  split; [exact (f_equal _width Hf)|].
  split; [exact Hl|].
  split; [exact Hd|].
  split.
  - intros Hwide.
    apply scrn_write_clone_chars; [reflexivity | apply Z.le_refl | exact Hwide].
  - intros HB HP HM Hc. subst magic.
    rewrite (dict_get_no_magic ftype HB HP HM).
    destruct (SCRNFile_write_empty_clone clone (display w) eq_refl eq_refl Hc)
      as (E1 & E2).
    split; assumption.
Qed.

End ScreenWrite.

Lemma SCRNFile_write_clone_writes_all_witness :
  chars_written
    (st_log (@SCRNFile_write Z column_display column_screen
               narrow_clone 1%Z (bs "abcde") true))
  = bs "abcde".
Proof.
  apply (@SCRNFile_write_clone_writes_all Z column_display column_screen
           narrow_clone 1%Z (bs "abcde") true);
    [reflexivity | vm_compute; discriminate | vm_compute; discriminate].
Defined.

Lemma SCRNFile_write_clone_col_in_range_witness :
  (1 <= _col (st_file (@SCRNFile_write Z column_display column_screen
                         narrow_clone 1%Z (bs "abcde") true))
   <= _width narrow_clone + 1)%Z.
Proof.
  apply (@SCRNFile_write_clone_col_in_range Z column_display column_screen
           narrow_clone 1%Z (bs "abcde") true);
    [reflexivity | vm_compute; discriminate | vm_compute; discriminate
    | vm_compute; discriminate | vm_compute; discriminate | discriminate].
Defined.

Lemma SCRNDevice_open_spec_witness :
  (exists new_file w' log,
      @SCRNDevice_open Z column_display column_screen
        column_device (bs "B") (bs "O") 128 column_world
      = Returns (new_file, column_device, w', log)
      /\ List.Forall (fun e => call_echo e = false) log
      /\ chars_written log = [xFF])
  /\ (exists new_file w',
        @SCRNDevice_open Z column_display column_screen
          column_device (bs "D") (bs "O") 128 column_world
        = Returns (new_file, column_device, w', [])
        /\ display w' = display column_world)
  /\ @SCRNDevice_open Z column_display column_screen
       column_device (bs "B") (bs "I") 128 column_world
     = Raises BAD_FILE_MODE
  /\ @SCRNDevice_open Z column_display column_screen
       Device_init (bs "B") (bs "O") 128 column_world
     = Raises DEVICE_UNAVAILABLE.
Proof.
  split; [|split; [|split]].
  - destruct (@SCRNDevice_open_spec Z column_display column_screen
                column_device (bs "B") (bs "O") 128 column_world)
      as (_ & _ & H).
    destruct (H 0%nat (@SCRNFile_init Z column_display 1%Z))
      as (new_file & sf & w' & log & Hopen & _ & _ & _ & _ & _ & _ & _
          & Hecho & _ & Hchars & _);
      [reflexivity | reflexivity | reflexivity |].
    exists new_file, w', log. split; [exact Hopen|]. split; [exact Hecho|].
    apply Hchars. vm_compute. discriminate.
  - destruct (@SCRNDevice_open_spec Z column_display column_screen
                column_device (bs "D") (bs "O") 128 column_world)
      as (_ & _ & H).
    destruct (H 0%nat (@SCRNFile_init Z column_display 1%Z))
      as (new_file & sf & w' & log & Hopen & _ & _ & _ & _ & _ & _ & _
          & _ & _ & _ & Hnone);
      [reflexivity | reflexivity | reflexivity |].
    destruct Hnone as (-> & Hd);
      [discriminate | discriminate | discriminate | vm_compute; discriminate |].
    exists new_file, w'. split; [exact Hopen | exact Hd].
  - destruct (@SCRNDevice_open_spec Z column_display column_screen
                column_device (bs "B") (bs "I") 128 column_world)
      as (_ & H & _).
    apply (H 0%nat); reflexivity.
  - destruct (@SCRNDevice_open_spec Z column_display column_screen
                Device_init (bs "B") (bs "O") 128 column_world)
      as (H & _).
    apply H. reflexivity.
Defined.
